(** * Chat request pipeline: routing engine, MIME sniffing, conversation
      store, atomic writes and the per-conversation lock

    Shallow embedding of
      - [src/app/api/conversation/route.ts] (routing decision engine,
        [detectMimeFromBinary], [acquireConversationLock], the tool-context
        cache, [getLatestUserMessage], [splitIntoStreamingTokens],
        [buildOcrPromptContext], [getModelExecutionChain]),
      - the conversation store [src/unnamed/part_003] (imported by the route
        as [@/lib/conversation-store]), with [renameConversationForUi], and
        its older sibling [src/unnamed/part_002].

    Conventions of the embedding.
      - A JavaScript string is a [string]: a sequence of code units, here
        restricted to the Latin-1 range U+0000..U+00FF (one [ascii] per code
        unit).  On that range [trim], [toLowerCase] and the class [\s] are
        modelled exactly.
      - A JavaScript number that the code only ever uses at integer values
        is a [Z]; [Math.floor (a / b)] is [Z.div], and [Math.round (a / b)]
        rounds half up.
      - A [Buffer] is a [list Byte.byte].
      - [async] functions that only sequence file operations are modelled by
        explicit state passing over a model of the directory; the lock, whose
        behaviour depends on interleaving, is a step relation. *)

From Stdlib Require Import ZArith Lia Bool List Ascii String Sorted.
From Stdlib Require Import Strings.Byte DecimalString.
From stdpp Require Import base option list strings gmap.

Import ListNotations.
Local Open Scope string_scope.
Local Open Scope Z_scope.

(* ===================================================================== *)
(** ** JavaScript strings on the Latin-1 range                            *)
(* ===================================================================== *)

Module Js.

(** Code unit of a character. *)
Definition code (c : ascii) : N := N_of_ascii c.

(** [WhiteSpace] and [LineTerminator] code points below U+0100: TAB, LF,
    VT, FF, CR, SP and NBSP.  This is the class [\s] and what
    [String.prototype.trim] strips. *)
Definition isWhiteSpace (c : ascii) : bool :=
  let n := code c in
  ((9 <=? n) && (n <=? 13) || (n =? 32) || (n =? 160))%N.

(** [String.prototype.toLowerCase] on one Latin-1 code unit: A..Z and the
    accented capitals U+00C0..U+00DE (without the multiplication sign
    U+00D7) move up by 32. *)
Definition lowerChar (c : ascii) : ascii :=
  let n := code c in
  if ((65 <=? n) && (n <=? 90)
      || (192 <=? n) && (n <=? 222) && negb (n =? 215))%N
  then ascii_of_N (n + 32) else c.

Fixpoint toLowerCase (s : string) : string :=
  match s with
  | EmptyString => EmptyString
  | String c r => String (lowerChar c) (toLowerCase r)
  end.

Fixpoint trimStart (s : string) : string :=
  match s with
  | EmptyString => EmptyString
  | String c r => if isWhiteSpace c then trimStart r else s
  end.

(** [trimEnd] keeps a character when it is not white space or when
    something that is kept follows it. *)
Fixpoint trimEnd (s : string) : string :=
  match s with
  | EmptyString => EmptyString
  | String c r =>
      match trimEnd r with
      | EmptyString => if isWhiteSpace c then EmptyString else String c EmptyString
      | r' => String c r'
      end
  end.

Definition trim (s : string) : string := trimEnd (trimStart s).

(** [!value] for a string value: true exactly for the empty string. *)
Definition isEmpty (s : string) : bool :=
  match s with EmptyString => true | _ => false end.

(** Number of occurrences of one character: [countMatches(s, /c/g)] for a
    one-character pattern. *)
Fixpoint countChar (c : ascii) (s : string) : nat :=
  match s with
  | EmptyString => O
  | String d r => ((if Ascii.eqb c d then 1 else 0) + countChar c r)%nat
  end.

(** [s.split(/\s+/)]: the pieces between maximal runs of white space; a
    leading or trailing run leaves an empty piece, and the empty string
    gives one empty piece. *)
Fixpoint splitWs (inSep : bool) (piece : string) (s : string) : list string :=
  match s with
  | EmptyString => [piece]
  | String c r =>
      if isWhiteSpace c
      then if inSep then splitWs true piece r
           else piece :: splitWs true EmptyString r
      else splitWs false (piece ++ String c EmptyString)%string r
  end.

Definition split_ws (s : string) : list string := splitWs false EmptyString s.

(** [pieces.filter(Boolean)]: drop the empty strings. *)
Definition filterBoolean (l : list string) : list string :=
  List.filter (fun p => negb (isEmpty p)) l.

(** [s.startsWith(p)] *)
Definition startsWith (p s : string) : bool := String.prefix p s.

Definition LF : ascii := ascii_of_N 10.
Definition QUESTION : ascii := ascii_of_N 63.

(** [s.replace(/[^...]/g, empty)]: keep the characters of the class. *)
Fixpoint keepChars (keep : ascii -> bool) (s : string) : string :=
  match s with
  | EmptyString => EmptyString
  | String c r => if keep c then String c (keepChars keep r)
                  else keepChars keep r
  end.

(** The class [[a-zA-Z0-9_-]]. *)
Definition isIdChar (c : ascii) : bool :=
  let n := code c in
  ((97 <=? n) && (n <=? 122) || (65 <=? n) && (n <=? 90)
   || (48 <=? n) && (n <=? 57) || (n =? 95) || (n =? 45))%N.

(** [s.replace(/\s+/g, " ")]: every maximal run of white space becomes
    one space. *)
Fixpoint collapseWs (inRun : bool) (s : string) : string :=
  match s with
  | EmptyString => EmptyString
  | String c r =>
      if isWhiteSpace c
      then if inRun then collapseWs true r
           else String " " (collapseWs true r)
      else String c (collapseWs false r)
  end.

(** [s.slice(0, n)] *)
Definition sliceTo (n : nat) (s : string) : string := substring 0 n s.

(** [s.endsWith(suffix) ? Some(s.slice(0, -suffix.length)) : None] *)
Definition stripSuffix (suffix s : string) : option string :=
  let n := String.length s in
  let k := String.length suffix in
  if (k <=? n)%nat && String.eqb (substring (n - k) k s) suffix
  then Some (substring 0 (n - k) s) else None.

Definition endsWith (suffix s : string) : bool :=
  match stripSuffix suffix s with Some _ => true | None => false end.

End Js.

(* ===================================================================== *)
(** ** Routing decision engine ([route.ts], lines 198-471)                *)
(* ===================================================================== *)

Module Routing.

Inductive RoutingTier := light | tooling | heavy.

Definition RoutingTier_eqb (a b : RoutingTier) : bool :=
  match a, b with
  | light, light | tooling, tooling | heavy, heavy => true
  | _, _ => false
  end.

Record CarbonRoutingSettings := {
  routingSensitivity : Z;
  historyCompression : Z
}.

Record RoutingToolSignals := {
  webSearchEnabled : bool;
  deepSearchEnabled : bool;
  attachmentCount : Z
}.

Record TierModels := {
  tm_light : string;
  tm_tooling : string;
  tm_heavy : string
}.

Record RoutingDecision := {
  tier : RoutingTier;
  model : string;
  heavyModel : string;
  maxTokens : Z;
  historyWindowMessages : Z;
  historySummaryMaxChars : Z;
  availableModels : list string;
  allowEscalation : bool
}.

Record HistoryParams := {
  hp_historyWindowMessages : Z;
  hp_historySummaryMaxChars : Z
}.

(** The module constants read from [process.env] when the module loads. *)
Record Env := {
  LIGHT_TIER_MODEL_DEFAULT : string;
  TOOLING_TIER_MODEL_DEFAULT : string;
  HEAVY_TIER_MODEL_DEFAULT : string;
  LIGHT_TIER_MAX_TOKENS : Z;
  TOOLING_TIER_MAX_TOKENS : Z;
  HEAVY_TIER_MAX_TOKENS : Z
}.

Definition DEFAULT_MODEL : string := "anthropic/claude-opus-4-5".

(** The environment with no variable set. *)
Definition defaultEnv : Env := {|
  LIGHT_TIER_MODEL_DEFAULT := "openai/gpt-5-nano";
  TOOLING_TIER_MODEL_DEFAULT := "openai/gpt-5-mini";
  HEAVY_TIER_MODEL_DEFAULT := DEFAULT_MODEL;
  LIGHT_TIER_MAX_TOKENS := 900;
  TOOLING_TIER_MAX_TOKENS := 1400;
  HEAVY_TIER_MAX_TOKENS := 2600
|}.

Definition CHAT_MODELS : list string :=
  [ "anthropic/claude-opus-4-5"; "anthropic/claude-sonnet-4-5";
    "anthropic/claude-haiku-4-5"; "openai/gpt-5"; "openai/gpt-5-mini";
    "openai/gpt-5-nano"; "google/gemini-2.5-pro"; "google/gemini-2.5-flash";
    "google/gemini-2.5-flash-lite" ].

(** [set.has(x)] *)
Definition has (set : list string) (x : string) : bool :=
  existsb (String.eqb x) set.

Definition MIN_HISTORY_WINDOW_MESSAGES : Z := 6.
Definition MAX_HISTORY_WINDOW_MESSAGES : Z := 24.
Definition MIN_HISTORY_SUMMARY_CHARS : Z := 900.
Definition MAX_HISTORY_SUMMARY_CHARS : Z := 4200.

(** [clampInt]: every integer is finite and [Math.round] is the identity
    on integers, so only the two comparisons remain. *)
Definition clampInt (value min max : Z) : Z :=
  let rounded := value in
  if rounded <? min then min
  else if max <? rounded then max
  else rounded.

(** [Math.round(n / d)] for a positive divisor: the nearest integer, a
    tie going up, that is [floor (n/d + 1/2)]. *)
Definition Math_round_div (n d : Z) : Z := (2 * n + d) / (2 * d).

Inductive Provider := anthropic | openai | google | other.

Definition getProviderFromModelName (modelName : string) : Provider :=
  if Js.startsWith "anthropic/" modelName then anthropic
  else if Js.startsWith "openai/" modelName then openai
  else if Js.startsWith "google/" modelName then google
  else other.

(** The six regular expressions of [scoreInstructionComplexity]. *)
Inductive InstructionPattern :=
| ActionVerbs | Constraints | ReasoningHints
| StepList | CodeSignals | Conjunctions.

Section Engine.

Variable env : Env.

(** [countMatches] at the six instruction patterns.  The regular
    expression engine is outside the repository; the scores below hold
    for whatever counts it returns. *)
Variable countMatches : string -> InstructionPattern -> nat.

Definition pickTierModels (selectedModel : string) : TierModels :=
  match getProviderFromModelName selectedModel with
  | anthropic =>
      {| tm_light := "anthropic/claude-haiku-4-5";
         tm_tooling := "anthropic/claude-sonnet-4-5";
         tm_heavy := if has CHAT_MODELS selectedModel then selectedModel
                     else "anthropic/claude-opus-4-5" |}
  | google =>
      {| tm_light := "google/gemini-2.5-flash-lite";
         tm_tooling := "google/gemini-2.5-flash";
         tm_heavy := if has CHAT_MODELS selectedModel then selectedModel
                     else "google/gemini-2.5-pro" |}
  | openai =>
      {| tm_light := "openai/gpt-5-nano";
         tm_tooling := "openai/gpt-5-mini";
         tm_heavy := if has CHAT_MODELS selectedModel then selectedModel
                     else "openai/gpt-5" |}
  | other =>
      let fallbackHeavy :=
        if has CHAT_MODELS selectedModel then selectedModel
        else HEAVY_TIER_MODEL_DEFAULT env in
      {| tm_light := LIGHT_TIER_MODEL_DEFAULT env;
         tm_tooling := TOOLING_TIER_MODEL_DEFAULT env;
         tm_heavy := fallbackHeavy |}
  end.

(** [if (cond) score += 1] *)
Definition pt (cond : bool) : Z := if cond then 1 else 0.

Definition scorePromptLength (prompt : string) : Z :=
  let normalized := Js.toLowerCase (Js.trim prompt) in
  if Js.isEmpty normalized then 0
  else
    let charCount := Z.of_nat (String.length normalized) in
    let wordCount :=
      Z.of_nat (List.length (Js.filterBoolean (Js.split_ws normalized))) in
    let newlineCount := Z.of_nat (Js.countChar Js.LF normalized) in
    let questionCount := Z.of_nat (Js.countChar Js.QUESTION normalized) in
    pt (180 <? charCount) + pt (420 <? charCount)
    + pt (760 <? charCount) + pt (1300 <? charCount)
    + pt (40 <? wordCount) + pt (90 <? wordCount) + pt (170 <? wordCount)
    + pt (3 <=? newlineCount) + pt (4 <=? newlineCount)
    + pt (9 <=? newlineCount)
    + pt (2 <=? questionCount).

Definition scoreInstructionComplexity (prompt : string) : Z :=
  let normalized := Js.toLowerCase (Js.trim prompt) in
  if Js.isEmpty normalized then 0
  else
    let actionVerbCount := Z.of_nat (countMatches normalized ActionVerbs) in
    let constraintCount := Z.of_nat (countMatches normalized Constraints) in
    let reasoningHintCount :=
      Z.of_nat (countMatches normalized ReasoningHints) in
    let stepListCount := Z.of_nat (countMatches prompt StepList) in
    let codeSignalCount := Z.of_nat (countMatches prompt CodeSignals) in
    let conjunctionCount :=
      Z.of_nat (countMatches normalized Conjunctions) in
    pt (2 <=? actionVerbCount) + pt (5 <=? actionVerbCount)
    + pt (2 <=? constraintCount) + pt (5 <=? constraintCount)
    + pt (1 <=? reasoningHintCount) + pt (3 <=? reasoningHintCount)
    + pt (2 <=? stepListCount) + pt (5 <=? stepListCount)
    + pt (2 <=? codeSignalCount) + pt (6 <=? codeSignalCount)
    + pt (8 <=? conjunctionCount).

Definition scoreToolComplexity (tools : RoutingToolSignals) : Z :=
  (if webSearchEnabled tools then 2 else 0)
  + (if deepSearchEnabled tools then 3 else 0)
  + (if webSearchEnabled tools && deepSearchEnabled tools then 1 else 0)
  + pt (0 <? attachmentCount tools)
  + pt (1 <? attachmentCount tools)
  + pt (3 <? attachmentCount tools).

Definition scorePromptComplexity
    (prompt : string) (tools : RoutingToolSignals) : Z :=
  if Js.isEmpty (Js.trim prompt) then 0
  else
    let lengthScore := scorePromptLength prompt in
    let instructionScore := scoreInstructionComplexity prompt in
    let toolScore := scoreToolComplexity tools in
    lengthScore + instructionScore + toolScore.

Definition computeHistoryCompression
    (t : RoutingTier) (historyCompression : Z) : HistoryParams :=
  let compression := clampInt historyCompression 0 100 in
  let baseWindow :=
    MAX_HISTORY_WINDOW_MESSAGES
    - Math_round_div
        ((MAX_HISTORY_WINDOW_MESSAGES - MIN_HISTORY_WINDOW_MESSAGES)
         * compression) 100 in
  let baseSummaryChars :=
    MAX_HISTORY_SUMMARY_CHARS
    - Math_round_div
        ((MAX_HISTORY_SUMMARY_CHARS - MIN_HISTORY_SUMMARY_CHARS)
         * compression) 100 in
  match t with
  | light =>
      {| hp_historyWindowMessages :=
           clampInt (baseWindow - 2)
             MIN_HISTORY_WINDOW_MESSAGES MAX_HISTORY_WINDOW_MESSAGES;
         hp_historySummaryMaxChars :=
           clampInt (baseSummaryChars - 350)
             MIN_HISTORY_SUMMARY_CHARS MAX_HISTORY_SUMMARY_CHARS |}
  | heavy =>
      {| hp_historyWindowMessages :=
           clampInt (baseWindow + 3)
             MIN_HISTORY_WINDOW_MESSAGES MAX_HISTORY_WINDOW_MESSAGES;
         hp_historySummaryMaxChars :=
           clampInt (baseSummaryChars + 550)
             MIN_HISTORY_SUMMARY_CHARS MAX_HISTORY_SUMMARY_CHARS |}
  | tooling =>
      {| hp_historyWindowMessages :=
           clampInt baseWindow
             MIN_HISTORY_WINDOW_MESSAGES MAX_HISTORY_WINDOW_MESSAGES;
         hp_historySummaryMaxChars :=
           clampInt baseSummaryChars
             MIN_HISTORY_SUMMARY_CHARS MAX_HISTORY_SUMMARY_CHARS |}
  end.

(** [Array.from(new Set(xs))]: first occurrences, in order. *)
Fixpoint uniqueInOrder (seen xs : list string) : list string :=
  match xs with
  | [] => []
  | x :: r => if has seen x then uniqueInOrder seen r
              else x :: uniqueInOrder (x :: seen) r
  end.

Definition buildRoutingDecision
    (latestUserMessage selectedModel : string)
    (tools : RoutingToolSignals) (settings : CarbonRoutingSettings)
    : RoutingDecision :=
  let tierModels := pickTierModels selectedModel in
  let complexity := scorePromptComplexity latestUserMessage tools in
  let sensitivity := clampInt (routingSensitivity settings) 0 100 in
  let toolingThreshold := clampInt (9 - sensitivity / 20) 4 9 in
  let heavyThreshold := clampInt (17 - sensitivity / 10) 7 17 in
  let hasAnyToolingSignals :=
    webSearchEnabled tools || deepSearchEnabled tools
    || (0 <? attachmentCount tools) in
  let heavyBiasForDeepSearch :=
    if deepSearchEnabled tools then 2 else 0 in
  let t :=
    if heavyThreshold - heavyBiasForDeepSearch <=? complexity then heavy
    else if hasAnyToolingSignals || (toolingThreshold <=? complexity)
         then tooling
         else light in
  let m :=
    match t with
    | tooling => tm_tooling tierModels
    | heavy => tm_heavy tierModels
    | light => tm_light tierModels
    end in
  let hm := tm_heavy tierModels in
  let allowEsc := RoutingTier_eqb t light && negb (String.eqb hm m) in
  let maxTok :=
    match t with
    | tooling => clampInt (TOOLING_TIER_MAX_TOKENS env) 400 8000
    | heavy => clampInt (HEAVY_TIER_MAX_TOKENS env) 400 8000
    | light => clampInt (LIGHT_TIER_MAX_TOKENS env) 400 8000
    end in
  let history := computeHistoryCompression t (historyCompression settings) in
  let available :=
    List.filter (has CHAT_MODELS)
      (uniqueInOrder []
         [tm_light tierModels; tm_tooling tierModels; tm_heavy tierModels]) in
  {| tier := t;
     model := m;
     heavyModel := hm;
     maxTokens := maxTok;
     historyWindowMessages := hp_historyWindowMessages history;
     historySummaryMaxChars := hp_historySummaryMaxChars history;
     availableModels := available;
     allowEscalation := allowEsc |}.

End Engine.

End Routing.

(* ===================================================================== *)
(** ** The routing policy as the specification words it                   *)
(* ===================================================================== *)

Module RoutingSpec.
Import Routing.

(** [clamp(x, lo, hi)] *)
Definition clamp (x lo hi : Z) : Z := Z.max lo (Z.min x hi).

Definition toolingThreshold (s : Z) : Z := clamp (9 - s / 20) 4 9.
Definition heavyThreshold (s : Z) : Z := clamp (17 - s / 10) 7 17.

Definition deepSearchBias (tools : RoutingToolSignals) : Z :=
  if deepSearchEnabled tools then 2 else 0.

(** "any tool signal present (web search, deep search, or
    attachmentCount > 0)" *)
Definition anyToolSignal (tools : RoutingToolSignals) : Prop :=
  webSearchEnabled tools = true \/ deepSearchEnabled tools = true
  \/ 0 < attachmentCount tools.

(** "heavy if complexity >= heavyThreshold - deepSearchBias; else tooling
    if any tool signal present OR complexity >= toolingThreshold; else
    light", as a relation between the inputs and the tier. *)
Inductive picks (complexity : Z) (tools : RoutingToolSignals) (s : Z)
  : RoutingTier -> Prop :=
| picks_heavy :
    complexity >= heavyThreshold s - deepSearchBias tools ->
    picks complexity tools s heavy
| picks_tooling :
    ~ complexity >= heavyThreshold s - deepSearchBias tools ->
    anyToolSignal tools \/ complexity >= toolingThreshold s ->
    picks complexity tools s tooling
| picks_light :
    ~ complexity >= heavyThreshold s - deepSearchBias tools ->
    ~ (anyToolSignal tools \/ complexity >= toolingThreshold s) ->
    picks complexity tools s light.

(** [r] is [round(n / d)]: the integer nearest to [n / d], a tie going
    up, i.e. [r - 1/2 <= n/d < r + 1/2]. *)
Definition rounds_to (n d r : Z) : Prop :=
  2 * d * r - d <= 2 * n < 2 * d * r + d.

(** Tier adjustments of the history window and of the summary budget. *)
Definition windowDelta (t : RoutingTier) : Z :=
  match t with light => -2 | heavy => 3 | tooling => 0 end.
Definition summaryDelta (t : RoutingTier) : Z :=
  match t with light => -350 | heavy => 550 | tooling => 0 end.

End RoutingSpec.

(* ===================================================================== *)
(** ** Concrete prompts of the routing scenarios                          *)
(* ===================================================================== *)

Module Scenario.
Import Routing.

Fixpoint repeatChar (n : nat) (c : ascii) : string :=
  match n with
  | O => EmptyString
  | S k => String c (repeatChar k c)
  end.

Definition newline : string := String Js.LF EmptyString.

(** 1500 characters, 5 newlines, 2 question marks, no white space at
    either end: five short lines and one line of 1488 letters. *)
Definition plainPrompt : string :=
  ("q?" ++ newline ++ "q?" ++ newline ++ "q" ++ newline ++ "q" ++ newline
   ++ "q" ++ newline ++ repeatChar 1488 "a")%string.

(** 1500 characters, 5 newlines, 2 question marks, all but the two
    question marks being trailing white space. *)
Definition paddedPrompt : string :=
  ("??" ++ newline ++ newline ++ newline ++ newline ++ newline
   ++ repeatChar 1493 " ")%string.

(** Deep search on, web search off, no attachment. *)
Definition deepSearchOnly : RoutingToolSignals :=
  {| webSearchEnabled := false; deepSearchEnabled := true;
     attachmentCount := 0 |}.

Definition noTools : RoutingToolSignals :=
  {| webSearchEnabled := false; deepSearchEnabled := false;
     attachmentCount := 0 |}.

(** The match counts of a prompt in which none of the six instruction
    patterns occurs (true of [plainPrompt] and of [paddedPrompt]: they have
    no keyword, list marker, slash, dash, back-quote, bracket or call). *)
Definition noMatches (_ : string) (_ : InstructionPattern) : nat := O.

End Scenario.

(* ===================================================================== *)
(** ** Attachment sniffing ([route.ts], [detectMimeFromBinary])           *)
(* ===================================================================== *)

Module Mime.

Definition Buffer := list byte.

Definition byteVal (b : byte) : N := Byte.to_N b.

(** [buf.subarray(start, end)] *)
Definition subarray (buf : Buffer) (start end_ : nat) : Buffer :=
  firstn (end_ - start) (skipn start buf).

(** [buf[i] === v]; an index past the end reads [undefined], equal to no
    number. *)
Definition at_is (buf : Buffer) (i : nat) (v : N) : bool :=
  match nth_error buf i with
  | Some b => (byteVal b =? v)%N
  | None => false
  end.

(** [buf.toString("ascii")]: Node decodes the legacy ["ascii"] encoding by
    clearing the highest bit of every byte and reading the result as
    Latin-1 (Node.js documentation, Buffer, "Buffers and character
    encodings"). *)
Definition toString_ascii (buf : Buffer) : string :=
  string_of_list_ascii
    (List.map (fun b => ascii_of_N (N.land (byteVal b) 127)) buf).

(** UTF-8 decoding to code points.  A well-formed sequence gives its code
    point; a byte that cannot start or continue one gives U+FFFD. *)
Inductive Utf8State :=
| Start
| Cont (remaining : nat) (acc : N) (lowest : N).

Inductive LeadClass :=
| LeadAscii
| LeadMulti (st : Utf8State)
| LeadInvalid.

Definition classify (n : N) : LeadClass :=
  if (n <? 128)%N then LeadAscii
  else if ((194 <=? n) && (n <=? 223))%N
       then LeadMulti (Cont 1 (N.land n 31) 128)
  else if ((224 <=? n) && (n <=? 239))%N
       then LeadMulti (Cont 2 (N.land n 15) 2048)
  else if ((240 <=? n) && (n <=? 244))%N
       then LeadMulti (Cont 3 (N.land n 7) 65536)
  else LeadInvalid.

Definition REPLACEMENT : N := 65533.

(** A decoded scalar value: not overlong, not a surrogate, in range. *)
Definition scalarOk (cp lowest : N) : bool :=
  ((lowest <=? cp) && (cp <=? 1114111)
   && negb ((55296 <=? cp) && (cp <=? 57343)))%N.

Fixpoint utf8Decode (st : Utf8State) (buf : Buffer) : list N :=
  match buf with
  | [] => match st with Start => [] | Cont _ _ _ => [REPLACEMENT] end
  | b :: r =>
      let n := byteVal b in
      let fromStart :=
        match classify n with
        | LeadAscii => n :: utf8Decode Start r
        | LeadMulti st' => utf8Decode st' r
        | LeadInvalid => REPLACEMENT :: utf8Decode Start r
        end in
      match st with
      | Start => fromStart
      | Cont k acc lowest =>
          if ((128 <=? n) && (n <=? 191))%N then
            let acc' := (acc * 64 + N.land n 63)%N in
            match k with
            | S (S k') => utf8Decode (Cont (S k') acc' lowest) r
            | _ => (if scalarOk acc' lowest then acc' else REPLACEMENT)
                   :: utf8Decode Start r
            end
          else REPLACEMENT :: fromStart
      end
  end.

(** [buf.toString("utf8") === literal] for a literal made of ASCII
    characters: the decoded code points are the literal's code units. *)
Definition toString_utf8_is (buf : Buffer) (literal : string) : bool :=
  bool_decide (utf8Decode Start buf
               = List.map Js.code (list_ascii_of_string literal)).

Definition detectMimeFromBinary (decoded : Buffer) : option string :=
  if (5 <=? List.length decoded)%nat
     && toString_utf8_is (subarray decoded 0 5) "%PDF-"
  then Some "application/pdf"
  else if (8 <=? List.length decoded)%nat
          && at_is decoded 0 137 && at_is decoded 1 80
          && at_is decoded 2 78 && at_is decoded 3 71
          && at_is decoded 4 13 && at_is decoded 5 10
          && at_is decoded 6 26 && at_is decoded 7 10
  then Some "image/png"
  else if (3 <=? List.length decoded)%nat
          && at_is decoded 0 255 && at_is decoded 1 216
          && at_is decoded 2 255
  then Some "image/jpeg"
  else if (12 <=? List.length decoded)%nat
          && String.eqb (toString_ascii (subarray decoded 0 4)) "RIFF"
          && String.eqb (toString_ascii (subarray decoded 8 12)) "WEBP"
  then Some "image/webp"
  else None.

(** The four signatures, as byte strings. *)
Definition PDF_SIGNATURE : Buffer := [x25; x50; x44; x46; x2d].
Definition PNG_SIGNATURE : Buffer :=
  [x89; x50; x4e; x47; x0d; x0a; x1a; x0a].
Definition JPEG_SIGNATURE : Buffer := [xff; xd8; xff].
Definition RIFF_TAG : Buffer := [x52; x49; x46; x46].
Definition WEBP_TAG : Buffer := [x57; x45; x42; x50].

(** [buf] begins with [sig]. *)
Definition beginsWith (sig buf : Buffer) : Prop :=
  exists rest, buf = (sig ++ rest)%list.

(** A RIFF....WEBP header: "RIFF", four bytes of length, "WEBP". *)
Definition isRiffWebp (buf : Buffer) : Prop :=
  exists b4 b5 b6 b7 rest,
    buf = (RIFF_TAG ++ [b4; b5; b6; b7] ++ WEBP_TAG ++ rest)%list.

(** Twelve bytes that are "RIFF", a length and "WEBP" only once the high
    bit of each tag byte is cleared. *)
Definition highBitRiff : Buffer :=
  [xd2; xc9; xc6; xc6; x00; x00; x00; x00; xd7; xc5; xc2; xd0].

End Mime.

(* ===================================================================== *)
(** ** Writing a JSON file ([atomicWriteJson], [saveBundle])              *)
(* ===================================================================== *)

Module AtomicWrite.

(** A file path, split as [path.dirname] and [path.basename] split it. *)
Abbreviation Path := (string * string)%type.
Definition dirname (p : Path) : string := fst p.
Definition basename (p : Path) : string := snd p.
(** [path.join(directory, name)] for a plain file name. *)
Definition join (directory name : string) : Path := (directory, name).

(** The files and their contents. *)
Abbreviation FileSystem := (gmap (string * string) string).

Inductive FsError := MkdirError | WriteError | RenameError.

Inductive Outcome := Resolved | Rejected (e : FsError).

(** What goes wrong during one call.  [fs.writeFile] truncates the file
    and then writes the data front to back; it may stop with an error
    after any number of characters.  [fs.rename] replaces the target in
    one step or fails without effect. *)
Record Faults := {
  mkdirFails : bool;
  writeStopsAfter : option nat;
  renameFails : bool;
  unlinkFails : bool
}.

Definition noFaults : Faults :=
  {| mkdirFails := false; writeStopsAfter := None;
     renameFails := false; unlinkFails := false |}.

(** One call: the states of the file system that another reader can
    observe while it runs, in order, and how it ends. *)
Record Run := {
  observable : list FileSystem;
  final : FileSystem;
  outcome : Outcome
}.

(** The first [k] characters of [data]. *)
Definition written (k : nat) (data : string) : string := substring 0 k data.

(** [fs.writeFile(path, data)]: the file is emptied, then grows to [data];
    with [stop = Some k] the write ends in an error after [k] characters
    (or after all of them when [data] is shorter). *)
Definition writeFile (fs : FileSystem) (path : Path) (data : string)
    (stop : option nat) : list FileSystem * FileSystem * bool :=
  let n := match stop with
           | None => String.length data
           | Some k => Nat.min k (String.length data)
           end in
  let states :=
    List.map (fun k => <[path := written k data]> fs) (seq 0 (S n)) in
  (states, <[path := written n data]> fs,
   match stop with None => true | Some _ => false end).

(** [fs.rename(from, to)] when it succeeds. *)
Definition rename (fs : FileSystem) (from to : Path) : FileSystem :=
  match fs !! from with
  | Some content => <[to := content]> (delete from fs)
  | None => fs
  end.

(** [fs.unlink(path)] when it succeeds. *)
Definition unlink (fs : FileSystem) (path : Path) : FileSystem :=
  delete path fs.

(** The temporary file of [atomicWriteJson]:
    [`.${basename}.${process.pid}.${crypto.randomUUID()}.tmp`] in the
    target's directory. *)
Definition tempPathOf (pid uuid : string) (filePath : Path) : Path :=
  join (dirname filePath)
    ("." ++ basename filePath ++ "." ++ pid ++ "." ++ uuid ++ ".tmp")%string.

(** [atomicWriteJson(filePath, payload)] of [src/unnamed/part_003], with
    [serialized] the text [`${JSON.stringify(payload, null, 2)}\n`]. *)
Definition atomicWriteJson (pid uuid : string) (faults : Faults)
    (fs : FileSystem) (filePath : Path) (serialized : string) : Run :=
  if mkdirFails faults then
    {| observable := [fs]; final := fs; outcome := Rejected MkdirError |}
  else
    let tempPath := tempPathOf pid uuid filePath in
    let '(states, fs1, ok) :=
      writeFile fs tempPath serialized (writeStopsAfter faults) in
    if negb ok then
      {| observable := fs :: states; final := fs1;
         outcome := Rejected WriteError |}
    else if renameFails faults then
      (* catch: best-effort cleanup, then rethrow *)
      let fs2 := if unlinkFails faults then fs1 else unlink fs1 tempPath in
      {| observable := fs :: states ++ [fs2]; final := fs2;
         outcome := Rejected RenameError |}
    else
      let fs2 := rename fs1 tempPath filePath in
      {| observable := fs :: states ++ [fs2]; final := fs2;
         outcome := Resolved |}.

(** [saveBundle] of [src/unnamed/part_003]. *)
Definition saveBundle (pid uuid : string) (faults : Faults)
    (fs : FileSystem) (filePath : Path) (serialized : string) : Run :=
  atomicWriteJson pid uuid faults fs filePath serialized.

(** [saveBundle] of the older store [src/unnamed/part_002]:
    [fs.writeFile(filePath, ...)] on the target itself. *)
Definition saveBundle_legacy (faults : Faults)
    (fs : FileSystem) (filePath : Path) (serialized : string) : Run :=
  let '(states, fs1, ok) :=
    writeFile fs filePath serialized (writeStopsAfter faults) in
  {| observable := fs :: states; final := fs1;
     outcome := if ok then Resolved else Rejected WriteError |}.

(** A reader of [filePath] sees the content from before the call or the
    complete new content. *)
Definition intact (fs : FileSystem) (filePath : Path) (serialized : string)
    (s : FileSystem) : Prop :=
  s !! filePath = fs !! filePath \/ s !! filePath = Some serialized.

(** A stored bundle file and the text of its next version. *)
Definition bundlePath : Path :=
  join "dedalus_stuff/conversations" "conversation1.json".
Definition oldText : string := "{ old }".
Definition newText : string := "{ new bundle }".
Definition diskWithBundle : FileSystem := {[ bundlePath := oldText ]}.
(** The write stops with an error after two characters. *)
Definition stopsAfterTwo : Faults :=
  {| mkdirFails := false; writeStopsAfter := Some 2%nat;
     renameFails := false; unlinkFails := false |}.

End AtomicWrite.

(* ===================================================================== *)
(** ** Conversation store ([src/unnamed/part_003])                        *)
(* ===================================================================== *)

Module Store.

Inductive StoredRole := user | assistant.

Definition StoredRole_eqb (a b : StoredRole) : bool :=
  match a, b with
  | user, user | assistant, assistant => true
  | _, _ => false
  end.

Record StoredMessage := {
  id : string;
  role : StoredRole;
  text : string;
  created_at : string
}.

(** The roles a [UIMessage] can carry. *)
Inductive UIRole := ui_system | ui_user | ui_assistant.

Inductive UIPart :=
| TextPart (partText : string)
| OtherPart.

(** A [UIMessage] of the request; [ui_content] is the legacy [content]
    field when it holds a string. *)
Record UIMessage := {
  ui_id : string;
  ui_role : UIRole;
  ui_parts : option (list UIPart);
  ui_content : option string
}.

Record FormatInfo := { fmt_name : string; fmt_version : string }.
Record EncodingInfo := { charset : string; line_endings : string }.

Record ConversationInfo := {
  conv_id : string;
  name : string;
  name_hash_sha256 : string;
  conv_created_at : string;
  updated_at : string;
  userId : option string;
  userName : option string
}.

Record ModelInfo := { kind : string; model_name : string }.

Record MessageContainer := {
  messages : list StoredMessage;
  filepaths : list string;
  tools : list string;
  notes : string
}.

Record ConversationBundle := {
  format : FormatInfo;
  encoding : EncodingInfo;
  conversation : ConversationInfo;
  model : ModelInfo;
  content : MessageContainer
}.

Abbreviation Path := (string * string)%type.

Record ConversationRecord := {
  conversationId : string;
  filePath : Path;
  bundle : ConversationBundle
}.

Record ConversationSummary := {
  sum_conversationId : string;
  title : string;
  updatedAt : string;
  messageCount : nat
}.

(** The fields of [globalInfo.json] that the store reads or writes (the
    carbon accumulator and the memories are carried over untouched). *)
Record GlobalInfoTemplate := {
  existsActive : option bool;
  activeChatIndex : option Z;
  activeJsonFilePath : Path;
  convoName : string;
  convoIndex : Z
}.

(** What the store takes from the platform: the clock, the random
    source, the hash, the two regular-expression based parsers, and
    whether a write of the global info file goes through.  The n-th
    reading of the clock or of the random source is the reading at
    tick [n]. *)
Record Platform := {
  (** [new Date().toISOString()] *)
  toISOString : nat -> string;
  (** [`${role}-${Date.now()}-${crypto.randomUUID().slice(0, 8)}`] *)
  messageIdAt : StoredRole -> nat -> string;
  (** [crypto.createHash("sha256").update(s).digest("hex")] *)
  sha256hex : string -> string;
  (** [Date.parse]; [None] is NaN *)
  Date_parse : string -> option Z;
  (** [/^conversation(\d+)$/i.exec(s)] followed by [parseInt] *)
  conversationIndexOf : string -> option Z;
  (** [`${n}`] *)
  numberToString : Z -> string;
  (** [process.env.DEDALUS_MODEL?.trim() || "anthropic/claude-opus-4-5"] *)
  DEFAULT_MODEL_NAME : string;
  (** whether [atomicWriteJson(GLOBAL_INFO_JSON_PATH, ...)] throws when it
      is called after [n] readings (the disk is full, the file cannot be
      renamed, ...) *)
  globalWriteFails : nat -> bool
}.

Definition CONVERSATIONS_DIR : string := "dedalus_stuff/conversations".
Definition DEFAULT_MODEL_KIND : string := "dedalus".
Definition noPath : Path := (EmptyString, EmptyString).

(** An entry of a [messages] array as [normalizeStoredMessages] looks at
    it: a field is there when the entry is an object that holds it with
    the type the code tests for ([role] one of the two roles, the others
    strings). *)
Record LooseMessage := {
  lm_id : option string;
  lm_role : option StoredRole;
  lm_text : option string;
  lm_created_at : option string
}.

(** A JSON value as [normalizeBundle] looks at it: a field is there when
    the value is an object that holds it with the type the code tests
    for ([typeof ... === "string"], [Array.isArray], [isStringArray]).
    A value that is no object ([null], [42], a string) has none of them:
    for it [normalizeBundle] returns the fall-back bundle, which is also
    what it builds field by field for an empty object. *)
Record LooseBundle := {
  l_format_name : option string;
  l_format_version : option string;
  l_charset : option string;
  l_line_endings : option string;
  l_name : option string;
  l_name_hash_sha256 : option string;
  l_created_at : option string;
  l_updated_at : option string;
  l_userId : option string;
  l_user_id : option string;
  l_userName : option string;
  l_user_name : option string;
  l_kind : option string;
  l_model_name : option string;
  l_messages : option (list LooseMessage);
  l_filepaths : option (list string);
  l_tools : option (list string);
  l_notes : option string
}.

(** The content of a file of the conversations directory: text that
    [JSON.parse] rejects, a bundle as the store writes it (every field
    there, with its type), or any other JSON value. *)
Inductive FileData :=
| Unparsable
| BundleJson (b : ConversationBundle)
| OtherJson (j : LooseBundle).

(** What [JSON.parse] returns for a file that it accepts. *)
Inductive Parsed :=
| ParsedBundle (b : ConversationBundle)
| ParsedOther (j : LooseBundle).

(** The directory in [readdir] order, the global info file (absent or
    unreadable: [None]), and the number of readings taken so far. *)
Record World := {
  files : list (string * FileData);
  globalInfo : option GlobalInfoTemplate;
  ticks : nat
}.

Inductive Error :=
| ENOENT
| SyntaxError
| MissingConversationId
| MissingActiveConversationId
| ConversationNotFound
| LastConversation
| WriteFailed.

Inductive Result (A : Type) :=
| Ok (a : A)
| Throw (e : Error).
Arguments Ok {A} a.
Arguments Throw {A} e.

(** An [async] function of the store: it runs on a world and returns or
    throws, leaving a world. *)
Definition M (A : Type) : Type := World -> Result A * World.

Definition ret {A} (a : A) : M A := fun w => (Ok a, w).
Definition throw {A} (e : Error) : M A := fun w => (Throw e, w).
Definition bind {A B} (m : M A) (k : A -> M B) : M B :=
  fun w => match m w with
           | (Ok a, w') => k a w'
           | (Throw e, w') => (Throw e, w')
           end.
(** [try { m } catch (error) { handler(error) }] *)
Definition tryCatch {A} (m : M A) (handler : Error -> M A) : M A :=
  fun w => match m w with
           | (Ok a, w') => (Ok a, w')
           | (Throw e, w') => handler e w'
           end.

Notation "'do' x <- m ; k" := (bind m (fun x => k))
  (at level 10, x name, m at level 100, k at level 200).

Fixpoint mapM {A B} (f : A -> M B) (l : list A) : M (list B) :=
  match l with
  | [] => ret []
  | x :: r => do y <- f x; do ys <- mapM f r; ret (y :: ys)
  end.

Section WithPlatform.

Variable P : Platform.

(** *** Platform operations *)

Definition tick (w : World) : World :=
  {| files := files w; globalInfo := globalInfo w; ticks := S (ticks w) |}.

Definition nowISO : M string :=
  fun w => (Ok (toISOString P (ticks w)), tick w).

Definition createMessageId (r : StoredRole) : M string :=
  fun w => (Ok (messageIdAt P r (ticks w)), tick w).

Fixpoint lookupFile (fileName : string) (fs : list (string * FileData))
    : option FileData :=
  match fs with
  | [] => None
  | (n, d) :: r => if String.eqb n fileName then Some d
                   else lookupFile fileName r
  end.

(** [JSON.parse(await fs.readFile(filePath, "utf-8"))] *)
Definition readJson (p : Path) : M Parsed :=
  fun w =>
    if negb (String.eqb (fst p) CONVERSATIONS_DIR) then (Throw ENOENT, w)
    else match lookupFile (snd p) (files w) with
         | None => (Throw ENOENT, w)
         | Some Unparsable => (Throw SyntaxError, w)
         | Some (BundleJson b) => (Ok (ParsedBundle b), w)
         | Some (OtherJson j) => (Ok (ParsedOther j), w)
         end.

Fixpoint replaceFile (fileName : string) (d : FileData)
    (fs : list (string * FileData)) : list (string * FileData) :=
  match fs with
  | [] => [(fileName, d)]
  | (n, d0) :: r => if String.eqb n fileName then (n, d) :: r
                    else (n, d0) :: replaceFile fileName d r
  end.

(** [atomicWriteJson(filePath, bundle)] when nothing fails: the target
    is replaced, or created at the end of the directory. *)
Definition atomicWriteJson (p : Path) (b : ConversationBundle) : M unit :=
  fun w => (Ok tt,
            {| files := replaceFile (snd p) (BundleJson b) (files w);
               globalInfo := globalInfo w; ticks := ticks w |}).

Definition saveBundle (p : Path) (b : ConversationBundle) : M unit :=
  atomicWriteJson p b.

(** [fs.unlink(filePath)] *)
Definition unlink (p : Path) : M unit :=
  fun w =>
    match lookupFile (snd p) (files w) with
    | None => (Throw ENOENT, w)
    | Some _ =>
        (Ok tt,
         {| files := List.filter
                       (fun e => negb (String.eqb (fst e) (snd p)))
                       (files w);
            globalInfo := globalInfo w; ticks := ticks w |})
    end.

(** [fs.readdir(CONVERSATIONS_DIR)], which [listConversationsForUi]
    calls after [fs.mkdir(CONVERSATIONS_DIR, { recursive: true })], on a
    directory that can be made and read: a world stands for such a
    directory, with its entries.  (Both calls are awaited outside any
    [try], so they throw to the caller when they fail; a store whose
    directory cannot be made or read is not a world.) *)
Definition readdir : M (list string) :=
  fun w => (Ok (List.map fst (files w)), w).

(** *** Pure helpers *)

Definition sanitizeConversationId (value : option string) : option string :=
  match value with
  | None => None
  | Some v =>
      if Js.isEmpty v then None
      else
        let sanitized := Js.keepChars Js.isIdChar (Js.trim v) in
        if (0 <? String.length sanitized)%nat then Some sanitized else None
  end.

Definition buildConversationFilePath (cid : string) : Path :=
  (CONVERSATIONS_DIR, (cid ++ ".json")%string).

Definition hashConversationName (n : string) : string := sha256hex P n.

Definition getConversationIndex (cid : string) : option Z :=
  conversationIndexOf P cid.

Definition defaultConversationTitle (cid : string) : string :=
  match getConversationIndex cid with
  | Some conversationIndex =>
      ("Conversation " ++ numberToString P conversationIndex)%string
  | None => cid
  end.

Definition normalizeConversationTitle (rawName cid : string) : string :=
  let trimmed := Js.trim rawName in
  if negb (Js.isEmpty trimmed) then
    match conversationIndexOf P trimmed with
    | Some n => ("Conversation " ++ numberToString P n)%string
    | None => trimmed
    end
  else defaultConversationTitle cid.

Definition sanitizeUserId (value : option string) : option string :=
  match value with
  | None => None
  | Some v =>
      let sanitized := Js.keepChars Js.isIdChar (Js.trim v) in
      if (0 <? String.length sanitized)%nat then Some sanitized else None
  end.

Definition sanitizeUserName (value : option string) : option string :=
  match value with
  | None => None
  | Some v =>
      let normalized := Js.collapseWs false (Js.trim v) in
      if Js.isEmpty normalized then None
      else Some (Js.sliceTo 120 normalized)
  end.

Definition partTexts (parts : list UIPart) : list string :=
  flat_map (fun p => match p with
                     | TextPart t => [t]
                     | OtherPart => []
                     end) parts.

Definition extractTextFromUIMessage (message : UIMessage) : string :=
  let fromParts :=
    match ui_parts message with
    | Some parts => Some (String.concat EmptyString (partTexts parts))
    | None => None
    end in
  match fromParts with
  | Some t => if (0 <? String.length t)%nat then t
              else match ui_content message with
                   | Some c => c
                   | None => EmptyString
                   end
  | None => match ui_content message with
            | Some c => c
            | None => EmptyString
            end
  end.

Definition toStoredMessage (message : UIMessage)
    : M (option StoredMessage) :=
  match ui_role message with
  | ui_system => ret None
  | r =>
      let r' := match r with ui_assistant => assistant | _ => user end in
      let t := extractTextFromUIMessage message in
      if Js.isEmpty (Js.trim t) then ret None
      else
        do i <- (if Js.isEmpty (ui_id message) then createMessageId r'
                 else ret (ui_id message));
        do now <- nowISO;
        ret (Some {| id := i; role := r'; text := t; created_at := now |})
  end.

Definition toUIMessage (message : StoredMessage) : UIMessage :=
  {| ui_id := id message;
     ui_role := match role message with
                | user => ui_user
                | assistant => ui_assistant
                end;
     ui_parts := Some [TextPart (text message)];
     ui_content := None |}.

Definition createConversationBundle (cid : string) : M ConversationBundle :=
  do now <- nowISO;
  let conversationName := defaultConversationTitle cid in
  ret {| format := {| fmt_name := "conversation_bundle";
                      fmt_version := "1.0" |};
         encoding := {| charset := "utf-8"; line_endings := "lf" |};
         conversation :=
           {| conv_id := cid;
              name := conversationName;
              name_hash_sha256 := hashConversationName conversationName;
              conv_created_at := now;
              updated_at := now;
              userId := None;
              userName := None |};
         model := {| kind := DEFAULT_MODEL_KIND;
                     model_name := DEFAULT_MODEL_NAME P |};
         content := {| messages := []; filepaths := []; tools := [];
                       notes := EmptyString |} |}.

(** [value.flatMap(...)]: an entry with blank text is dropped, an entry
    without an id gets a new one. *)
Fixpoint normalizeStoredMessages (value : list StoredMessage)
    : M (list StoredMessage) :=
  match value with
  | [] => ret []
  | entry :: rest =>
      if Js.isEmpty (Js.trim (text entry)) then normalizeStoredMessages rest
      else
        do i <- (if (0 <? String.length (id entry))%nat then ret (id entry)
                 else createMessageId (role entry));
        do others <- normalizeStoredMessages rest;
        ret ({| id := i; role := role entry; text := text entry;
                created_at := created_at entry |} :: others)
  end.

(** [mergeStoredMessagesPreservingExisting]: the loop, with
    [mergedMessages] and [seenMessageIds] as accumulators. *)
Fixpoint mergeLoop (mergedMessages : list StoredMessage)
    (seenMessageIds : list string) (incomingMessages : list StoredMessage)
    : list StoredMessage :=
  match incomingMessages with
  | [] => mergedMessages
  | incomingMessage :: rest =>
      if existsb (String.eqb (id incomingMessage)) seenMessageIds
      then mergeLoop mergedMessages seenMessageIds rest
      else mergeLoop (mergedMessages ++ [incomingMessage])%list
             (seenMessageIds ++ [id incomingMessage])%list rest
  end.

Definition mergeStoredMessagesPreservingExisting
    (existingMessages incomingMessages : list StoredMessage)
    : list StoredMessage :=
  if (List.length existingMessages =? 0)%nat then incomingMessages
  else if (List.length incomingMessages =? 0)%nat then existingMessages
  else mergeLoop existingMessages (List.map id existingMessages)
         incomingMessages.

Definition normalizeBundle (raw : ConversationBundle) (cid : string)
    : M ConversationBundle :=
  do fallback <- createConversationBundle cid;
  let conversationName :=
    normalizeConversationTitle (name (conversation raw)) cid in
  do normalized <- normalizeStoredMessages (messages (content raw));
  ret {| format := format raw;
         encoding := encoding raw;
         conversation :=
           {| conv_id := cid;
              name := conversationName;
              name_hash_sha256 := name_hash_sha256 (conversation raw);
              conv_created_at := conv_created_at (conversation raw);
              updated_at := updated_at (conversation raw);
              userId := sanitizeUserId (userId (conversation raw));
              userName := sanitizeUserName (userName (conversation raw)) |};
         model := model raw;
         content := {| messages := normalized;
                       filepaths := filepaths (content raw);
                       tools := tools (content raw);
                       notes := notes (content raw) |} |}.

(** [normalizeStoredMessages] on the [messages] field of a JSON value
    that the store did not write: no array gives no message; an entry is
    kept when it has a role and a text that is not blank, and it gets a
    new id or the time of the call where it has none. *)
Fixpoint normalizeOtherMessages (value : list LooseMessage)
    : M (list StoredMessage) :=
  match value with
  | [] => ret []
  | entry :: rest =>
      match lm_role entry, lm_text entry with
      | Some r, Some t =>
          if Js.isEmpty (Js.trim t) then normalizeOtherMessages rest
          else
            do i <- (match lm_id entry with
                     | Some i => if (0 <? String.length i)%nat then ret i
                                 else createMessageId r
                     | None => createMessageId r
                     end);
            do created <- (match lm_created_at entry with
                           | Some c => ret c
                           | None => nowISO
                           end);
            do others <- normalizeOtherMessages rest;
            ret ({| id := i; role := r; text := t;
                    created_at := created |} :: others)
      | _, _ => normalizeOtherMessages rest
      end
  end.

Definition orElse {A} (o : option A) (fallback : A) : A :=
  match o with
  | Some a => a
  | None => fallback
  end.

(** [normalizeBundle] on a JSON value that the store did not write:
    every field that is missing comes from the fall-back bundle, which
    is dated at the call. *)
Definition normalizeOther (raw : LooseBundle) (cid : string)
    : M ConversationBundle :=
  do fallback <- createConversationBundle cid;
  let conversationName :=
    match l_name raw with
    | Some rawName => normalizeConversationTitle rawName cid
    | None => defaultConversationTitle cid
    end in
  do normalized <- normalizeOtherMessages (orElse (l_messages raw) []);
  ret {| format :=
           {| fmt_name := orElse (l_format_name raw)
                            (fmt_name (format fallback));
              fmt_version := orElse (l_format_version raw)
                               (fmt_version (format fallback)) |};
         encoding :=
           {| charset := orElse (l_charset raw)
                           (charset (encoding fallback));
              line_endings := orElse (l_line_endings raw)
                                (line_endings (encoding fallback)) |};
         conversation :=
           {| conv_id := cid;
              name := conversationName;
              name_hash_sha256 :=
                orElse (l_name_hash_sha256 raw)
                  (hashConversationName conversationName);
              conv_created_at :=
                orElse (l_created_at raw)
                  (conv_created_at (conversation fallback));
              updated_at :=
                orElse (l_updated_at raw)
                  (updated_at (conversation fallback));
              userId := match sanitizeUserId (l_userId raw) with
                        | Some u => Some u
                        | None => sanitizeUserId (l_user_id raw)
                        end;
              userName := match sanitizeUserName (l_userName raw) with
                          | Some u => Some u
                          | None => sanitizeUserName (l_user_name raw)
                          end |};
         model := {| kind := orElse (l_kind raw) (kind (model fallback));
                     model_name := orElse (l_model_name raw)
                                     (model_name (model fallback)) |};
         content := {| messages := normalized;
                       filepaths := orElse (l_filepaths raw) [];
                       tools := orElse (l_tools raw) [];
                       notes := orElse (l_notes raw) EmptyString |} |}.

Definition loadBundle (p : Path) (cid : string) : M ConversationBundle :=
  do raw <- readJson p;
  match raw with
  | ParsedBundle b => normalizeBundle b cid
  | ParsedOther j => normalizeOther j cid
  end.

Definition getConversationIdFromPath (p : Path) : option string :=
  let fileName := snd p in
  let cid := match Js.stripSuffix ".json" fileName with
             | Some c => c
             | None => EmptyString
             end in
  sanitizeConversationId (Some cid).

(** [normalizeGlobalInfoPayload(await loadGlobalPayload())] *)
Definition loadGlobalInfo : M GlobalInfoTemplate :=
  fun w =>
    (Ok match globalInfo w with
        | Some g => g
        | None => {| existsActive := None; activeChatIndex := None;
                     activeJsonFilePath := noPath;
                     convoName := EmptyString; convoIndex := 0 |}
        end, w).

Definition pathIsEmpty (p : Path) : bool :=
  Js.isEmpty (fst p) && Js.isEmpty (snd p).

Definition getActiveConversationIdFromGlobal : M (option string) :=
  do payload <- loadGlobalInfo;
  let fromPath :=
    if negb (pathIsEmpty (activeJsonFilePath payload))
    then getConversationIdFromPath (activeJsonFilePath payload)
    else None in
  match fromPath with
  | Some c => ret (Some c)
  | None =>
      match activeChatIndex payload with
      | Some n => ret (Some ("conversation" ++ numberToString P n)%string)
      | None => ret None
      end
  end.

(** [atomicWriteJson(GLOBAL_INFO_JSON_PATH, current)]: when it throws,
    the file is as it was. *)
Definition writeGlobalInfo (g : GlobalInfoTemplate) : M unit :=
  fun w =>
    if globalWriteFails P (ticks w) then (Throw WriteFailed, w)
    else (Ok tt, {| files := files w; globalInfo := Some g;
                    ticks := ticks w |}).

Definition updateGlobalActiveConversation (record : ConversationRecord)
    : M unit :=
  do current <- loadGlobalInfo;
  let conversationIndex := getConversationIndex (conversationId record) in
  let updated :=
    {| existsActive := Some true;
       activeChatIndex := match conversationIndex with
                          | Some n => Some n
                          | None => activeChatIndex current
                          end;
       activeJsonFilePath := filePath record;
       convoName :=
         normalizeConversationTitle
           (name (conversation (bundle record))) (conversationId record);
       convoIndex := match conversationIndex with
                     | Some n => Z.max (convoIndex current) n
                     | None => convoIndex current
                     end |} in
  writeGlobalInfo updated.

(** The numbered file names [conversation<N>.json] (lower case). *)
Definition fileNumber (fileName : string) : option Z :=
  match Js.stripSuffix ".json" fileName with
  | Some base => if Js.startsWith "conversation" base
                 then conversationIndexOf P base else None
  | None => None
  end.

(** [largestConversationNumber + 1] on a number that is an integer: the
    sum of two doubles.  It is exact below 2^53; from there on the
    doubles are 2 apart up to 2^54, where the sum lies half way between
    two of them and is rounded to the one with the even significand, and
    further apart beyond, where the sum is rounded back to the number
    itself. *)
Definition addOne (n : Z) : Z :=
  if n <? 2 ^ 53 then n + 1
  else if (n <? 2 ^ 54) && Z.odd (n / 2) then n + 2
  else n.

Definition getNextConversationId : M string :=
  do names <- readdir;
  let largestConversationNumber :=
    fold_left (fun largestNumber fileName =>
                 match fileNumber fileName with
                 | Some candidate => Z.max largestNumber candidate
                 | None => largestNumber
                 end) names 0 in
  ret ("conversation"
       ++ numberToString P (addOne largestConversationNumber))%string.

Definition ensureConversationRecord (preferredConversationId : option string)
    : M ConversationRecord :=
  match sanitizeConversationId preferredConversationId with
  | Some sanitizedConversationId =>
      let p := buildConversationFilePath sanitizedConversationId in
      tryCatch
        (do b <- loadBundle p sanitizedConversationId;
         ret {| conversationId := sanitizedConversationId;
                filePath := p; bundle := b |})
        (fun error =>
           match error with
           | ENOENT =>
               do b <- createConversationBundle sanitizedConversationId;
               do _ <- saveBundle p b;
               ret {| conversationId := sanitizedConversationId;
                      filePath := p; bundle := b |}
           | _ => throw error
           end)
  | None =>
      do cid <- getNextConversationId;
      let p := buildConversationFilePath cid in
      do b <- createConversationBundle cid;
      do _ <- saveBundle p b;
      ret {| conversationId := cid; filePath := p; bundle := b |}
  end.

Definition ensureExistingConversationRecord
    (requiredConversationId : option string) : M ConversationRecord :=
  match sanitizeConversationId requiredConversationId with
  | None => throw MissingActiveConversationId
  | Some sanitizedConversationId =>
      let p := buildConversationFilePath sanitizedConversationId in
      do b <- loadBundle p sanitizedConversationId;
      ret {| conversationId := sanitizedConversationId;
             filePath := p; bundle := b |}
  end.

(** What [loadConversationForUi] returns. *)
Record UiConversation := {
  uc_conversationId : string;
  uc_messages : list UIMessage;
  uc_model : string
}.

Definition loadConversationForUi (cid : option string) : M UiConversation :=
  do record <- ensureConversationRecord cid;
  do _ <- tryCatch (updateGlobalActiveConversation record)
            (fun _ => ret tt);
  ret {| uc_conversationId := conversationId record;
         uc_messages :=
           List.map toUIMessage (messages (content (bundle record)));
         uc_model := model_name (model (bundle record)) |}.

Record PersistOptions := {
  allowCreate : option bool;
  opt_modelName : option string;
  opt_userId : option string;
  opt_userName : option string
}.

Definition withMessages (b : ConversationBundle)
    (ms : list StoredMessage) : ConversationBundle :=
  {| format := format b; encoding := encoding b;
     conversation := conversation b; model := model b;
     content := {| messages := ms; filepaths := filepaths (content b);
                   tools := tools (content b);
                   notes := notes (content b) |} |}.

Definition withModel (b : ConversationBundle) (m : ModelInfo)
    : ConversationBundle :=
  {| format := format b; encoding := encoding b;
     conversation := conversation b; model := m; content := content b |}.

Definition withConversation (b : ConversationBundle)
    (c : ConversationInfo) : ConversationBundle :=
  {| format := format b; encoding := encoding b;
     conversation := c; model := model b; content := content b |}.

Definition setUser (c : ConversationInfo)
    (uid uname : option string) : ConversationInfo :=
  {| conv_id := conv_id c; name := name c;
     name_hash_sha256 := name_hash_sha256 c;
     conv_created_at := conv_created_at c;
     updated_at := updated_at c;
     userId := match uid with Some u => Some u | None => userId c end;
     userName := match uname with
                 | Some u => Some u
                 | None => userName c
                 end |}.

Definition setUpdatedAt (c : ConversationInfo) (now : string)
    : ConversationInfo :=
  {| conv_id := conv_id c; name := name c;
     name_hash_sha256 := name_hash_sha256 c;
     conv_created_at := conv_created_at c;
     updated_at := now;
     userId := userId c; userName := userName c |}.

(** [.filter((message) => message !== null)] *)
Definition dropNulls {A} (l : list (option A)) : list A :=
  flat_map (fun o => match o with Some a => [a] | None => [] end) l.

Definition persistPromptSnapshot (cid : option string)
    (msgs : list UIMessage) (options : option PersistOptions) : M string :=
  let allow := match options with
               | Some o => match allowCreate o with
                           | Some b => b
                           | None => true
                           end
               | None => true
               end in
  do record <- (if allow then ensureConversationRecord cid
                else ensureExistingConversationRecord cid);
  let modelName := match options with
                   | Some o => match opt_modelName o with
                               | Some m => Js.trim m
                               | None => EmptyString
                               end
                   | None => EmptyString
                   end in
  let uid := sanitizeUserId
               (match options with Some o => opt_userId o | None => None end) in
  let uname := sanitizeUserName
                 (match options with
                  | Some o => opt_userName o
                  | None => None
                  end) in
  do converted <- mapM toStoredMessage msgs;
  let incomingMessages := dropNulls converted in
  let b1 := withMessages (bundle record)
              (mergeStoredMessagesPreservingExisting
                 (messages (content (bundle record))) incomingMessages) in
  let b2 := if negb (Js.isEmpty modelName)
            then withModel b1 {| kind := DEFAULT_MODEL_KIND;
                                 model_name := modelName |}
            else b1 in
  let b3 := withConversation b2 (setUser (conversation b2) uid uname) in
  do now <- nowISO;
  let b4 := withConversation b3 (setUpdatedAt (conversation b3) now) in
  do _ <- saveBundle (filePath record) b4;
  let record' := {| conversationId := conversationId record;
                    filePath := filePath record; bundle := b4 |} in
  do _ <- tryCatch (updateGlobalActiveConversation record')
            (fun _ => ret tt);
  ret (conversationId record).

Definition toTimestamp (value : string) : Z :=
  match Date_parse P value with
  | Some parsed => parsed
  | None => 0
  end.

(** [summaries.sort((a, b) => toTimestamp(b.updatedAt) -
    toTimestamp(a.updatedAt))]: a stable sort, latest first. *)
Fixpoint insertByRecency (x : ConversationSummary)
    (sorted : list ConversationSummary) : list ConversationSummary :=
  match sorted with
  | [] => [x]
  | y :: r =>
      if toTimestamp (updatedAt y) - toTimestamp (updatedAt x) <=? 0
      then x :: y :: r
      else y :: insertByRecency x r
  end.

Fixpoint sortByRecency (l : list ConversationSummary)
    : list ConversationSummary :=
  match l with
  | [] => []
  | x :: r => insertByRecency x (sortByRecency r)
  end.

(** The body of the loop of [listConversationsForUi] for one file name:
    the summary, or nothing when the file is skipped. *)
Definition summarize (fileName : string) : M (option ConversationSummary) :=
  match Js.stripSuffix ".json" fileName with
  | None => ret None
  | Some cid =>
      if Js.isEmpty cid then ret None
      else
        tryCatch
          (do b <- loadBundle (CONVERSATIONS_DIR, fileName) cid;
           ret (Some
             {| sum_conversationId := cid;
                title := normalizeConversationTitle
                           (name (conversation b)) cid;
                updatedAt :=
                  if negb (Js.isEmpty (updated_at (conversation b)))
                  then updated_at (conversation b)
                  else conv_created_at (conversation b);
                messageCount := List.length (messages (content b)) |}))
          (fun _ => ret None)
  end.

Definition listConversationsForUi : M (list ConversationSummary) :=
  do names <- readdir;
  do found <- mapM summarize names;
  ret (sortByRecency (dropNulls found)).

Definition deleteConversationForUi (cid : option string)
    (preferredActiveConversationId : option string) : M UiConversation :=
  match sanitizeConversationId cid with
  | None => throw MissingConversationId
  | Some sanitizedConversationId =>
      do existingConversations <- listConversationsForUi;
      if negb (existsb (fun c => String.eqb (sum_conversationId c)
                                   sanitizedConversationId)
                 existingConversations)
      then throw ConversationNotFound
      else if (List.length existingConversations <=? 1)%nat
      then throw LastConversation
      else
        do _ <- unlink (buildConversationFilePath sanitizedConversationId);
        do remainingConversations <- listConversationsForUi;
        let preferredActiveId :=
          sanitizeConversationId preferredActiveConversationId in
        do globalActiveId <- getActiveConversationIdFromGlobal;
        let remainingConversationIds :=
          List.map sum_conversationId remainingConversations in
        let has x := existsb (String.eqb x) remainingConversationIds in
        let fallbackActiveId :=
          match remainingConversations with
          | c :: _ => Some (sum_conversationId c)
          | [] => None
          end in
        let usable (candidate : option string) :=
          match candidate with
          | Some c => negb (String.eqb c sanitizedConversationId) && has c
          | None => false
          end in
        let nextActiveConversationId :=
          if usable preferredActiveId then preferredActiveId
          else if usable globalActiveId then globalActiveId
          else fallbackActiveId in
        loadConversationForUi nextActiveConversationId
  end.

(** [messages.at(-1)] *)
Definition lastMessage (l : list StoredMessage) : option StoredMessage :=
  List.last (List.map Some l) None.

Definition appendAssistantCompletion (cid : string) (t : string) : M unit :=
  if Js.isEmpty (Js.trim t) then ret tt
  else
    do record <- ensureConversationRecord (Some cid);
    let repeated :=
      match lastMessage (messages (content (bundle record))) with
      | Some m => StoredRole_eqb (role m) assistant && String.eqb (text m) t
      | None => false
      end in
    if repeated then ret tt
    else
      do i <- createMessageId assistant;
      do created <- nowISO;
      let b1 := withMessages (bundle record)
                  (messages (content (bundle record))
                   ++ [{| id := i; role := assistant; text := t;
                          created_at := created |}])%list in
      do now <- nowISO;
      let b2 := withConversation b1 (setUpdatedAt (conversation b1) now) in
      saveBundle (filePath record) b2.

End WithPlatform.

End Store.

(* ===================================================================== *)
(** ** A concrete platform and concrete stores                            *)
(* ===================================================================== *)

Module StoreScenario.
Import Store.

Definition natToString (n : nat) : string :=
  NilZero.string_of_uint (Nat.to_uint n).

Definition isDigit (c : ascii) : bool :=
  let n := Js.code c in ((48 <=? n) && (n <=? 57))%N.

Fixpoint allDigits (s : string) : bool :=
  match s with
  | EmptyString => true
  | String c r => isDigit c && allDigits r
  end.

(** A non-empty string of digits read as a decimal number. *)
Definition parseDigits (s : string) : option Z :=
  if negb (Js.isEmpty s) && allDigits s then
    match NilZero.uint_of_string s with
    | Some u => Some (Z.of_nat (Nat.of_uint u))
    | None => None
    end
  else None.

(** A platform for running the store: the clock reads "t0", "t1", ...,
    a time "t<n>" parses to [n], and message ids are numbered by the
    tick. *)
Definition testPlatform : Platform := {|
  toISOString := fun n => ("t" ++ natToString n)%string;
  messageIdAt := fun r n =>
    ((match r with user => "user" | assistant => "assistant" end)
     ++ "-" ++ natToString n)%string;
  sha256hex := fun s => ("sha256:" ++ s)%string;
  Date_parse := fun s =>
    match s with
    | String "t" r => parseDigits r
    | _ => None
    end;
  conversationIndexOf := fun s =>
    let l := Js.toLowerCase s in
    if Js.startsWith "conversation" l
    then parseDigits (substring 12 (String.length l - 12) l)
    else None;
  numberToString := fun z => NilZero.string_of_int (Z.to_int z);
  DEFAULT_MODEL_NAME := "anthropic/claude-opus-4-5";
  globalWriteFails := fun _ => false
|}.

(** The same platform on a disk where no write of the global info file
    goes through. *)
Definition fullDisk : Platform := {|
  toISOString := toISOString testPlatform;
  messageIdAt := messageIdAt testPlatform;
  sha256hex := sha256hex testPlatform;
  Date_parse := Date_parse testPlatform;
  conversationIndexOf := conversationIndexOf testPlatform;
  numberToString := numberToString testPlatform;
  DEFAULT_MODEL_NAME := DEFAULT_MODEL_NAME testPlatform;
  globalWriteFails := fun _ => true
|}.

Definition emptyWorld : World :=
  {| files := []; globalInfo := None; ticks := 0 |}.

Definition userText (i t : string) : UIMessage :=
  {| ui_id := i; ui_role := ui_user; ui_parts := Some [TextPart t];
     ui_content := None |}.

(** Two messages of one request that carry the same id. *)
Definition twiceM1 : list UIMessage :=
  [userText "m1" "hello"; userText "m1" "hello again"].

(** The ids stored for a conversation, in order. *)
Definition storedIds (cid : string) (w : World) : option (list string) :=
  match lookupFile (cid ++ ".json")%string (files w) with
  | Some (BundleJson b) => Some (List.map id (messages (content b)))
  | _ => None
  end.

(** The world after one snapshot of [msgs] for [cid]. *)
Definition afterSnapshot (cid : string) (msgs : list UIMessage) (w : World)
    : World :=
  snd (persistPromptSnapshot testPlatform (Some cid) msgs None w).

(** Three conversations: [conversation1] updated at t10, [conversation2]
    at t30 and [conversation3] at t20. *)
Definition bundleAt (cid time : string) : ConversationBundle :=
  {| format := {| fmt_name := "conversation_bundle"; fmt_version := "1.0" |};
     encoding := {| charset := "utf-8"; line_endings := "lf" |};
     conversation :=
       {| conv_id := cid; name := cid;
          name_hash_sha256 := EmptyString;
          conv_created_at := "t1"; updated_at := time;
          userId := None; userName := None |};
     model := {| kind := "dedalus";
                 model_name := "anthropic/claude-opus-4-5" |};
     content := {| messages := []; filepaths := []; tools := [];
                   notes := EmptyString |} |}.

Definition threeConversations : World :=
  {| files := [ ("conversation1.json", BundleJson (bundleAt "conversation1" "t10"));
                ("conversation2.json", BundleJson (bundleAt "conversation2" "t30"));
                ("conversation3.json", BundleJson (bundleAt "conversation3" "t20")) ];
     globalInfo := None; ticks := 100 |}.

Definition oneConversation : World :=
  {| files := [ ("conversation1.json", BundleJson (bundleAt "conversation1" "t10")) ];
     globalInfo := None; ticks := 100 |}.

(** A directory with a file that the store did not name: the name
    holds a space, which no sanitized id does. *)
Definition foreignName : World :=
  {| files := [ ("conversation1.json", BundleJson (bundleAt "conversation1" "t10"));
                ("my chat.json", BundleJson (bundleAt "my chat" "t20")) ];
     globalInfo := None; ticks := 100 |}.

(** The JSON values [{}], [null] and [42] as the store looks at them:
    none of the fields is there. *)
Definition noFields : LooseBundle :=
  {| l_format_name := None; l_format_version := None;
     l_charset := None; l_line_endings := None;
     l_name := None; l_name_hash_sha256 := None;
     l_created_at := None; l_updated_at := None;
     l_userId := None; l_user_id := None;
     l_userName := None; l_user_name := None;
     l_kind := None; l_model_name := None;
     l_messages := None; l_filepaths := None; l_tools := None;
     l_notes := None |}.

(** A directory with a bundle, a file [42.json] that holds the number
    42, a file that is not JSON and a file that is no [.json] file. *)
Definition mixedDirectory : World :=
  {| files := [ ("conversation1.json", BundleJson (bundleAt "conversation1" "t10"));
                ("42.json", OtherJson noFields);
                ("broken.json", Unparsable);
                ("notes.txt", BundleJson (bundleAt "notes" "t50")) ];
     globalInfo := None; ticks := 100 |}.

End StoreScenario.

(* ===================================================================== *)
(** ** Merging by message id, as the specification words it               *)
(* ===================================================================== *)

Module StoreSpec.
Import Store.

(** The incoming messages "with unseen ids", in incoming order: a message
    counts when its id is neither in [seen] nor the id of an earlier
    incoming message. *)
Fixpoint unseen (seen : list string) (incoming : list StoredMessage)
    : list StoredMessage :=
  match incoming with
  | [] => []
  | m :: r =>
      if existsb (String.eqb (id m)) seen then unseen seen r
      else m :: unseen (seen ++ [id m])%list r
  end.

(** "existing messages are never dropped; new messages with unseen ids
    are appended" *)
Definition mergeById (existing incoming : list StoredMessage)
    : list StoredMessage :=
  (existing ++ unseen (List.map id existing) incoming)%list.

(** The bundle [createConversationBundle] builds when the clock is at
    tick [t]. *)
Definition freshBundle (P : Platform) (cid : string) (t : nat)
    : ConversationBundle :=
  let now := toISOString P t in
  let conversationName := defaultConversationTitle P cid in
  {| format := {| fmt_name := "conversation_bundle"; fmt_version := "1.0" |};
     encoding := {| charset := "utf-8"; line_endings := "lf" |};
     conversation :=
       {| conv_id := cid;
          name := conversationName;
          name_hash_sha256 := hashConversationName P conversationName;
          conv_created_at := now;
          updated_at := now;
          userId := None;
          userName := None |};
     model := {| kind := DEFAULT_MODEL_KIND;
                 model_name := DEFAULT_MODEL_NAME P |};
     content := {| messages := []; filepaths := []; tools := [];
                   notes := EmptyString |} |}.

(** What [normalizeBundle] returns for the stored object [raw], given
    the normalized messages. *)
Definition normalizedWith (P : Platform) (raw : ConversationBundle)
    (cid : string) (ms : list StoredMessage) : ConversationBundle :=
  {| format := format raw;
     encoding := encoding raw;
     conversation :=
       {| conv_id := cid;
          name := normalizeConversationTitle P (name (conversation raw)) cid;
          name_hash_sha256 := name_hash_sha256 (conversation raw);
          conv_created_at := conv_created_at (conversation raw);
          updated_at := updated_at (conversation raw);
          userId := sanitizeUserId (userId (conversation raw));
          userName := sanitizeUserName (userName (conversation raw)) |};
     model := model raw;
     content := {| messages := ms;
                   filepaths := filepaths (content raw);
                   tools := tools (content raw);
                   notes := notes (content raw) |} |}.

(** The stored messages that survive loading: those with non-blank text. *)
Definition nonBlank (ms : list StoredMessage) : list StoredMessage :=
  List.filter (fun m => negb (Js.isEmpty (Js.trim (text m)))) ms.

(** Two worlds with the same files and the same global info. *)
Definition sameDisk (w w' : World) : Prop :=
  files w' = files w /\ globalInfo w' = globalInfo w.

(** A message and a bundle as the store writes them, looked at the way
    any JSON value is: every field is there. *)
Definition asLooseMessage (m : StoredMessage) : LooseMessage :=
  {| lm_id := Some (id m); lm_role := Some (role m);
     lm_text := Some (text m); lm_created_at := Some (created_at m) |}.

Definition asLoose (b : ConversationBundle) : LooseBundle :=
  {| l_format_name := Some (fmt_name (format b));
     l_format_version := Some (fmt_version (format b));
     l_charset := Some (charset (encoding b));
     l_line_endings := Some (line_endings (encoding b));
     l_name := Some (name (conversation b));
     l_name_hash_sha256 := Some (name_hash_sha256 (conversation b));
     l_created_at := Some (conv_created_at (conversation b));
     l_updated_at := Some (updated_at (conversation b));
     l_userId := userId (conversation b);
     l_user_id := None;
     l_userName := userName (conversation b);
     l_user_name := None;
     l_kind := Some (kind (model b));
     l_model_name := Some (model_name (model b));
     l_messages := Some (List.map asLooseMessage (messages (content b)));
     l_filepaths := Some (filepaths (content b));
     l_tools := Some (tools (content b));
     l_notes := Some (notes (content b)) |}.

(** A file holds JSON: [JSON.parse] accepts its text. *)
Definition holdsJson (d : FileData) : bool :=
  match d with
  | Unparsable => false
  | BundleJson _ | OtherJson _ => true
  end.

(** The id under which the file [fileName] of the directory [fs] is a
    conversation, if it is one: the name without its ending ".json",
    when something is left of it and the file holds JSON. *)
Definition listedAs (fs : list (string * FileData)) (fileName : string)
    : option string :=
  match Js.stripSuffix ".json" fileName with
  | None => None
  | Some cid =>
      if Js.isEmpty cid then None
      else match lookupFile fileName fs with
           | Some d => if holdsJson d then Some cid else None
           | None => None
           end
  end.

(** The ids of the conversations of a directory, in the order of the
    directory (whether a file is a conversation is a matter of its name
    and content only: the platform plays no part in it). *)
Definition listedIds (P : Platform) (fs : list (string * FileData))
    : list string :=
  dropNulls (List.map (listedAs fs) (List.map fst fs)).

(** The instant that a time stamp denotes, in milliseconds since the
    epoch; a time stamp that is no date counts as the epoch itself. *)
Definition timeOf (P : Platform) (stamp : string) : Z :=
  match Date_parse P stamp with
  | Some instant => instant
  | None => 0
  end.

(** [a] was updated no earlier than [b]. *)
Definition notOlder (P : Platform) (a b : ConversationSummary) : Prop :=
  timeOf P (updatedAt b) <= timeOf P (updatedAt a).

(** Latest first: no summary is older than one that follows it. *)
Definition latestFirst (P : Platform) (l : list ConversationSummary) : Prop :=
  StronglySorted (notOlder P) l.

(** The date the listing goes by for a bundle as the store writes it:
    its [updated_at], or its [created_at] when that is empty. *)
Definition dateOf (raw : ConversationBundle) : string :=
  if Js.isEmpty (updated_at (conversation raw))
  then conv_created_at (conversation raw)
  else updated_at (conversation raw).

(** The summary [c] is a summary of its file in the directory [fs]: the
    file [cid.json] of its id holds JSON; for a bundle as the store
    writes it the summary carries the date of the bundle and the number
    of its messages with text; for any other JSON value it carries the
    [updated_at] that the value states, if it states one (what a value
    does not state is taken from the clock at the call). *)
Definition summaryOf (fs : list (string * FileData))
    (c : ConversationSummary) : Prop :=
  match lookupFile (sum_conversationId c ++ ".json")%string fs with
  | Some (BundleJson raw) =>
      updatedAt c = dateOf raw
      /\ messageCount c = List.length (nonBlank (messages (content raw)))
  | Some (OtherJson j) =>
      forall stated, l_updated_at j = Some stated ->
                     Js.isEmpty stated = false -> updatedAt c = stated
  | Some Unparsable | None => False
  end.

(** The directory without the file [fileName]. *)
Definition removeFile (fileName : string) (fs : list (string * FileData))
    : list (string * FileData) :=
  List.filter (fun e => negb (String.eqb (fst e) fileName)) fs.

(** The "current global active id" recorded in the global info file. *)
Definition activeIdOf (P : Platform) (g : option GlobalInfoTemplate)
    : option string :=
  match g with
  | None => None
  | Some payload =>
      match (if negb (pathIsEmpty (activeJsonFilePath payload))
             then getConversationIdFromPath (activeJsonFilePath payload)
             else None) with
      | Some c => Some c
      | None =>
          match activeChatIndex payload with
          | Some n => Some ("conversation" ++ numberToString P n)%string
          | None => None
          end
      end
  end.

(** The test [deleteConversationForUi] applies to a candidate id. *)
Definition usableb (deleted : string) (remaining : list ConversationSummary)
    (candidate : option string) : bool :=
  match candidate with
  | Some c => negb (String.eqb c deleted)
              && existsb (String.eqb c)
                   (List.map sum_conversationId remaining)
  | None => false
  end.

(** A candidate id is usable when "it still exists and is not the deleted
    one". *)
Definition usable (deleted : string) (remaining : list ConversationSummary)
    (candidate : option string) (c : string) : Prop :=
  candidate = Some c /\ c <> deleted
  /\ In c (List.map sum_conversationId remaining).

(** The preference order for the next active conversation:
    "caller-supplied id (if it still exists and isn't the deleted one),
    then current global active id (same condition), then first remaining
    conversation by recency". *)
Inductive chooses (P : Platform) (deleted : string)
    (remaining : list ConversationSummary)
    (preferred globalActive : option string) : string -> Prop :=
| choose_preferred c :
    usable deleted remaining preferred c ->
    chooses P deleted remaining preferred globalActive c
| choose_global c :
    (forall p, ~ usable deleted remaining preferred p) ->
    usable deleted remaining globalActive c ->
    chooses P deleted remaining preferred globalActive c
| choose_latest first others :
    (forall p, ~ usable deleted remaining preferred p) ->
    (forall g, ~ usable deleted remaining globalActive g) ->
    remaining = first :: others ->
    Forall (notOlder P first) others ->
    chooses P deleted remaining preferred globalActive
      (sum_conversationId first).

End StoreSpec.

(* ===================================================================== *)
(** ** Per-conversation lock ([route.ts], [acquireConversationLock])      *)
(* ===================================================================== *)

Module Lock.

Inductive PromiseState := Pending | Fulfilled | Rejected.

(** The promises of the lock.  The gate of a call is named by the index
    of the call; the tail installed by that call is
    [previousTail.then(() => gate, () => gate)].  A chain starts at
    [Promise.resolve()]; [PromiseReject] stands for a tail that would
    have rejected. *)
Inductive Promise :=
| PromiseResolve
| PromiseReject
| ThenGate (previousTail : Promise) (gate : nat).

#[global] Instance Promise_eq_dec : EqDecision Promise.
Proof. solve_decision. Defined.

(** The queue object [{ tail }]; [ref] is its identity.  Once an object
    has left the map its tail is never read again: [acquire] takes the
    object from the map, and a release function reads [queue.tail] only
    behind the test that the map still holds this very object.  So the map
    entry carries the tail. *)
Record ConversationLockQueue := {
  ref : nat;
  tail : Promise
}.

(** One call of [acquireConversationLock]: its local variables, whether
    its gate is resolved, the [released] flag of the function it returns,
    and whether it has returned (the [await] is over). *)
Record Call := {
  conversationId : string;
  queue : nat;
  previousTail : Promise;
  nextTail : Promise;
  gateResolved : bool;
  released : bool;
  returned : bool
}.

Record State := {
  conversationLockQueues : gmap string ConversationLockQueue;
  nextRef : nat;
  calls : list Call
}.

Definition init : State :=
  {| conversationLockQueues := ∅; nextRef := 0; calls := [] |}.

(** Whether the gate of call [g] is resolved. *)
Definition gateIsResolved (s : State) (g : nat) : bool :=
  match calls s !! g with
  | Some c => gateResolved c
  | None => false
  end.

(** The state of a promise.  Both handlers of [then] return the gate, so
    once [previousTail] is settled, either way, the result follows the
    gate, which is only ever resolved. *)
Fixpoint stateOf (s : State) (p : Promise) : PromiseState :=
  match p with
  | PromiseResolve => Fulfilled
  | PromiseReject => Rejected
  | ThenGate prev g =>
      match stateOf s prev with
      | Pending => Pending
      | _ => if gateIsResolved s g then Fulfilled else Pending
      end
  end.

(** [p.catch(() => undefined)] *)
Definition catchUndefined (st : PromiseState) : PromiseState :=
  match st with
  | Pending => Pending
  | _ => Fulfilled
  end.

(** [acquireConversationLock(conversationId)] up to its [await]: one
    synchronous block. *)
Definition acquire (cid : string) (s : State) : State :=
  let existing := conversationLockQueues s !! cid in
  let q := match existing with
           | Some q => q
           | None => {| ref := nextRef s; tail := PromiseResolve |}
           end in
  let prev := tail q in
  let gate := List.length (calls s) in
  let next := ThenGate prev gate in
  {| conversationLockQueues :=
       <[cid := {| ref := ref q; tail := next |}]> (conversationLockQueues s);
     nextRef := match existing with
                | Some _ => nextRef s
                | None => S (nextRef s)
                end;
     calls := calls s ++ [{| conversationId := cid;
                             queue := ref q;
                             previousTail := prev;
                             nextTail := next;
                             gateResolved := false;
                             released := false;
                             returned := false |}] |}.

Definition setCall (t : nat) (c : Call) (s : State) : State :=
  {| conversationLockQueues := conversationLockQueues s;
     nextRef := nextRef s;
     calls := <[t := c]> (calls s) |}.

(** The continuation after [await previousTail.catch(() => undefined)]:
    it runs once the awaited promise is fulfilled, and returns the release
    function. *)
Definition resume (t : nat) (s : State) : option State :=
  match calls s !! t with
  | Some c =>
      if returned c then None
      else match catchUndefined (stateOf s (previousTail c)) with
           | Fulfilled =>
               Some (setCall t
                       {| conversationId := conversationId c;
                          queue := queue c;
                          previousTail := previousTail c;
                          nextTail := nextTail c;
                          gateResolved := gateResolved c;
                          released := released c;
                          returned := true |} s)
           | _ => None
           end
  | None => None
  end.

(** One call of the release function that call [t] returned. *)
Definition release (t : nat) (s : State) : option State :=
  match calls s !! t with
  | Some c =>
      if negb (returned c) then None
      else if released c then Some s
      else
        let c' := {| conversationId := conversationId c;
                     queue := queue c;
                     previousTail := previousTail c;
                     nextTail := nextTail c;
                     gateResolved := true;
                     released := true;
                     returned := returned c |} in
        let s1 := setCall t c' s in
        let superseded :=
          match conversationLockQueues s1 !! conversationId c with
          | Some q => negb (bool_decide (ref q = queue c)
                            && bool_decide (tail q = nextTail c))
          | None => true
          end in
        Some (if superseded then s1
              else {| conversationLockQueues :=
                        delete (conversationId c) (conversationLockQueues s1);
                      nextRef := nextRef s1;
                      calls := calls s1 |})
  | None => None
  end.

(** What can happen next: a request calls the lock, a suspended call is
    resumed, or a release function is called.  Each label is one
    synchronous block of the source.  Any order is allowed in which each
    step is enabled: a suspended call may be resumed at any moment after
    the promise it awaits has settled, which covers every order in which
    the event loop can run the continuations. *)
Inductive Label :=
| Acquire (cid : string)
| Resume (t : nat)
| Release (t : nat).

Definition step (l : Label) (s : State) : option State :=
  match l with
  | Acquire cid => Some (acquire cid s)
  | Resume t => resume t s
  | Release t => release t s
  end.

Fixpoint run (ls : list Label) (s : State) : option State :=
  match ls with
  | [] => Some s
  | l :: r => match step l s with
              | Some s' => run r s'
              | None => None
              end
  end.

Inductive reachable : State -> Prop :=
| reachable_init : reachable init
| reachable_step s l s' :
    reachable s -> step l s = Some s' -> reachable s'.





(** The tail that a new call for [cid] finds. *)
Definition tailFor (cid : string) (s : State) : Promise :=
  match conversationLockQueues s !! cid with
  | Some q => tail q
  | None => PromiseResolve
  end.

(** The gates a promise waits for. *)
Fixpoint gatesOf (p : Promise) : list nat :=
  match p with
  | PromiseResolve | PromiseReject => []
  | ThenGate prev g => gatesOf prev ++ [g]
  end.

(** The invariant of the reachable states. *)
Record Inv (s : State) : Prop := {
  inv_flags : forall t c, calls s !! t = Some c ->
    gateResolved c = released c /\ (released c = true -> returned c = true);
  inv_next : forall t c, calls s !! t = Some c ->
    nextTail c = ThenGate (previousTail c) t;
  inv_cover : forall i j ci cj,
    calls s !! i = Some ci -> calls s !! j = Some cj -> (i < j)%nat ->
    conversationId ci = conversationId cj ->
    In i (gatesOf (previousTail cj)) \/ released ci = true;
  inv_sound : forall j cj g,
    calls s !! j = Some cj -> In g (gatesOf (previousTail cj)) ->
    (g < j)%nat /\ exists cg, calls s !! g = Some cg
                              /\ conversationId cg = conversationId cj;
  inv_returned : forall j cj g,
    calls s !! j = Some cj -> returned cj = true ->
    In g (gatesOf (previousTail cj)) -> gateIsResolved s g = true;
  inv_entry_cover : forall cid q i ci,
    conversationLockQueues s !! cid = Some q ->
    calls s !! i = Some ci -> conversationId ci = cid ->
    In i (gatesOf (tail q)) \/ released ci = true;
  inv_entry_sound : forall cid q g,
    conversationLockQueues s !! cid = Some q -> In g (gatesOf (tail q)) ->
    exists cg, calls s !! g = Some cg /\ conversationId cg = cid;
  inv_no_entry : forall cid i ci,
    conversationLockQueues s !! cid = None ->
    calls s !! i = Some ci -> conversationId ci = cid ->
    released ci = true
}.



End Lock.

Module TierOrder.
Import Routing.

(** The tiers in the order of their cost: light, tooling, heavy. *)
Definition tierRank (t : RoutingTier) : Z :=
  match t with light => 0 | tooling => 1 | heavy => 2 end.

(** The three tier models of a decision's [tierModels] record. *)
Definition tierModelsOf (tm : TierModels) : list string :=
  [tm_light tm; tm_tooling tm; tm_heavy tm].

End TierOrder.

(* ===================================================================== *)
(** ** Character classes of whole strings                                 *)
(* ===================================================================== *)

Module StringClass.

(** Every character of [s] is in the class [p]. *)
Fixpoint allChars (p : ascii -> bool) (s : string) : bool :=
  match s with
  | EmptyString => true
  | String c r => p c && allChars p r
  end.

(** The white space of [s] is made of plain spaces, each one behind a
    character that is not white space; with [afterSpace] the string is
    read as the continuation of a space, so it may not begin with one. *)
Fixpoint spacedOnce (afterSpace : bool) (s : string) : bool :=
  match s with
  | EmptyString => true
  | String c r =>
      if Js.isWhiteSpace c
      then negb afterSpace && Ascii.eqb c " " && spacedOnce true r
      else spacedOnce false r
  end.

End StringClass.

(* ===================================================================== *)
(** ** Signatures up to the high bit                                      *)
(* ===================================================================== *)

Module MimeMask.
Import Mime.

(** A byte with its highest bit cleared, as Node's "ascii" decoding reads
    it. *)
Definition low7 (b : byte) : N := N.land (byteVal b) 127.

(** A "RIFF" tag, four more bytes and a "WEBP" tag, each tag byte read
    without its highest bit. *)
Definition isRiffWebpLow7 (buf : Buffer) : Prop :=
  exists r0 r1 r2 r3 b4 b5 b6 b7 w0 w1 w2 w3 rest,
    buf = ([r0; r1; r2; r3; b4; b5; b6; b7; w0; w1; w2; w3] ++ rest)%list
    /\ List.map low7 [r0; r1; r2; r3] = List.map byteVal RIFF_TAG
    /\ List.map low7 [w0; w1; w2; w3] = List.map byteVal WEBP_TAG.

End MimeMask.

(* ===================================================================== *)
(** ** Tool-context cache ([route.ts], lines 473-493)                     *)
(* ===================================================================== *)

Module ToolCache.

(** [CachedToolContext] *)
Record CachedToolContext := {
  value : string;
  expiresAt : Z
}.

(** [toolContextCache], a [Map] from cache keys to entries. *)
Abbreviation Cache := (gmap string CachedToolContext).

(** [Number(process.env.CHAT_TOOL_CACHE_TTL_MS ?? 3 * 60 * 1000)]: a
    number of milliseconds, or a value that [Number.isFinite] rejects
    (NaN for text that is no number, or an infinity). *)
Inductive TtlSetting :=
| Finite (ms : Z)
| NotFinite.

Definition ttlOf (TOOL_CONTEXT_CACHE_TTL_MS : TtlSetting) : Z :=
  match TOOL_CONTEXT_CACHE_TTL_MS with
  | Finite ms => Z.max 30000 ms
  | NotFinite => 3 * 60 * 1000
  end.

(** [getCachedToolContext(cacheKey)] when [Date.now()] reads [now]: the
    answer and the cache it leaves. *)
Definition getCachedToolContext (now : Z) (cacheKey : string) (c : Cache)
    : option string * Cache :=
  match c !! cacheKey with
  | None => (None, c)
  | Some cached =>
      if expiresAt cached <=? now then (None, delete cacheKey c)
      else (Some (value cached), c)
  end.

(** [setCachedToolContext(cacheKey, value)] when [Date.now()] reads
    [now]. *)
Definition setCachedToolContext (TOOL_CONTEXT_CACHE_TTL_MS : TtlSetting)
    (now : Z) (cacheKey v : string) (c : Cache) : Cache :=
  let ttl := ttlOf TOOL_CONTEXT_CACHE_TTL_MS in
  <[cacheKey := {| value := v; expiresAt := now + ttl |}]> c.


End ToolCache.

(* ===================================================================== *)
(** ** Reading the request and cutting the answer ([route.ts], 513-559)   *)
(* ===================================================================== *)

Module Stream.
Import Store.

(** [getLatestUserMessage]: the loop runs from the last message to the
    first.  The [extractTextFromUIMessage] of [route.ts] (lines 495-511)
    has the same text as the one of the store, which is used here. *)
Fixpoint latestFrom (fromLast : list UIMessage) : option string :=
  match fromLast with
  | [] => None
  | message :: earlier =>
      match ui_role message with
      | ui_user =>
          let text := Js.trim (extractTextFromUIMessage message) in
          if negb (Js.isEmpty text) then Some text else latestFrom earlier
      | _ => latestFrom earlier
      end
  end.

Definition getLatestUserMessage (messages : list UIMessage) : option string :=
  latestFrom (rev messages).

(** A user message that carries text. *)
Definition speaks (message : UIMessage) : Prop :=
  ui_role message = ui_user
  /\ Js.trim (extractTextFromUIMessage message) <> EmptyString.

(** The longest prefix of [s] made of characters of the class, and what
    follows it: one greedy match of [\s+] or of [[^\s]+]. *)
Fixpoint span (p : ascii -> bool) (s : string) : string * string :=
  match s with
  | EmptyString => (EmptyString, EmptyString)
  | String c r =>
      if p c then let '(tok, rest) := span p r in (String c tok, rest)
      else (EmptyString, s)
  end.

Definition notWhiteSpace (c : ascii) : bool := negb (Js.isWhiteSpace c).

(** [text.match(/\s+|[^\s]+/g)]: from the current position the first
    alternative that matches is taken, greedily, and the search goes on
    behind the match.  Every match has at least one character, so the
    length of the text bounds the number of matches. *)
Fixpoint matchAll (fuel : nat) (s : string) : list string :=
  match fuel with
  | O => []
  | S fuel' =>
      match s with
      | EmptyString => []
      | String c _ =>
          let '(tok, rest) :=
            if Js.isWhiteSpace c then span Js.isWhiteSpace s
            else span notWhiteSpace s in
          tok :: matchAll fuel' rest
      end
  end.

Definition splitIntoStreamingTokens (text : string) : list string :=
  if Js.isEmpty text then []
  else
    match matchAll (String.length text) text with
    | [] => [text]
    | tokens => tokens
    end.

(** A token is a non-empty run of white space or a non-empty run of
    other characters. *)
Definition isRun (tok : string) : bool :=
  negb (Js.isEmpty tok)
  && (StringClass.allChars Js.isWhiteSpace tok
      || StringClass.allChars notWhiteSpace tok).

(** Whether a token begins with white space. *)
Definition startsWithSpace (tok : string) : bool :=
  match tok with
  | String c _ => Js.isWhiteSpace c
  | EmptyString => false
  end.

(** Neighbouring tokens are of different kinds. *)
Fixpoint alternate (tokens : list string) : bool :=
  match tokens with
  | a :: ((b :: _) as rest) =>
      negb (Bool.eqb (startsWithSpace a) (startsWithSpace b))
      && alternate rest
  | _ => true
  end.

End Stream.

(* ===================================================================== *)
(** ** What a stored conversation says                                    *)
(* ===================================================================== *)

Module StoreView.
Import Store.

(** The role and the text of a stored message: what loading keeps of it
    whatever id it gets. *)
Definition said (m : StoredMessage) : StoredRole * string :=
  (role m, text m).

(** The roles and the texts that loading finds in a [messages] array of
    a JSON value that the store did not write. *)
Definition looseSaid (ms : list LooseMessage) : list (StoredRole * string) :=
  flat_map (fun entry =>
              match lm_role entry, lm_text entry with
              | Some r, Some t =>
                  if Js.isEmpty (Js.trim t) then [] else [(r, t)]
              | _, _ => []
              end) ms.

(** The roles and the texts of the messages that loading finds in a
    file, in order. *)
Definition saidIn (d : FileData) : list (StoredRole * string) :=
  match d with
  | Unparsable => []
  | BundleJson raw => List.map said (StoreSpec.nonBlank (messages (content raw)))
  | OtherJson j => looseSaid (orElse (l_messages j) [])
  end.

(** The last of them. *)
Definition lastSaidIn (d : FileData) : option (StoredRole * string) :=
  List.last (List.map Some (saidIn d)) None.

End StoreView.

(* ===================================================================== *)
(** ** Renaming a conversation ([src/unnamed/part_003], lines 613-655)    *)
(* ===================================================================== *)

Module Rename.
Import Store.

(** The errors of [renameConversationForUi]: those of the store, and the
    error of [sanitizeConversationTitle], "Conversation name cannot be
    empty." *)
Inductive RenameError :=
| StoreError (e : Error)
| EmptyConversationName.

Inductive RenameResult :=
| Renamed (summary : ConversationSummary)
| RenameThrows (e : RenameError).

(** [sanitizeConversationTitle]; [None] when it throws. *)
Definition sanitizeConversationTitle (n : string) : option string :=
  let normalized := Js.collapseWs false (Js.trim n) in
  if Js.isEmpty normalized then None
  else Some (Js.sliceTo 120 normalized).

Definition setName (c : ConversationInfo) (nextName hash now : string)
    : ConversationInfo :=
  {| conv_id := conv_id c; name := nextName;
     name_hash_sha256 := hash;
     conv_created_at := conv_created_at c;
     updated_at := now;
     userId := userId c; userName := userName c |}.

Section WithPlatform.

Variable P : Platform.

(** The part of [renameConversationForUi] behind the two checks. *)
Definition storeName (record : ConversationRecord) (nextName : string)
    : M ConversationSummary :=
  do now <- nowISO P;
  let b := withConversation (bundle record)
             (setName (conversation (bundle record)) nextName
                (hashConversationName P nextName) now) in
  let record' := {| conversationId := conversationId record;
                    filePath := filePath record; bundle := b |} in
  do _ <- saveBundle (filePath record') b;
  do activeConversationId <- getActiveConversationIdFromGlobal P;
  do _ <- (if match activeConversationId with
              | Some a => String.eqb a (conversationId record')
              | None => false
              end
           then tryCatch (updateGlobalActiveConversation P record')
                  (fun _ => ret tt)
           else ret tt);
  ret {| sum_conversationId := conversationId record';
         title := nextName;
         updatedAt := now;
         messageCount := List.length (messages (content b)) |}.

Definition renameConversationForUi (cid : option string)
    (requestedName : string) (w : World) : RenameResult * World :=
  match sanitizeConversationId cid with
  | None => (RenameThrows (StoreError MissingConversationId), w)
  | Some sanitizedConversationId =>
      match ensureExistingConversationRecord P (Some sanitizedConversationId) w
      with
      | (Throw ENOENT, w1) =>
          (RenameThrows (StoreError ConversationNotFound), w1)
      | (Throw error, w1) => (RenameThrows (StoreError error), w1)
      | (Ok record, w1) =>
          match sanitizeConversationTitle requestedName with
          | None => (RenameThrows EmptyConversationName, w1)
          | Some nextName =>
              match storeName record nextName w1 with
              | (Ok summary, w2) => (Renamed summary, w2)
              | (Throw error, w2) => (RenameThrows (StoreError error), w2)
              end
          end
      end
  end.

End WithPlatform.

End Rename.

(* ===================================================================== *)
(** ** The entries of the lock map                                        *)
(* ===================================================================== *)

Module LockView.
Import Lock.

(** Call [t] is a call for [cid] whose release function has not run. *)
Definition unreleased (s : State) (cid : string) (t : nat) : Prop :=
  exists c, calls s !! t = Some c /\ conversationId c = cid
            /\ released c = false.

(** Every entry of the map is what an unreleased call for its key left
    there: the queue object of that call, with the tail that the call
    installed. *)
Definition Owned (s : State) : Prop :=
  forall cid q,
    conversationLockQueues s !! cid = Some q ->
    exists t c, calls s !! t = Some c /\ conversationId c = cid
                /\ released c = false
                /\ tail q = nextTail c /\ ref q = queue c.

(** Two calls for conversation1 and one for conversation2, all granted
    and released in turn. *)
Definition allReleased : list Label :=
  [Acquire "conversation1"; Acquire "conversation1"; Acquire "conversation2";
   Resume 0%nat; Release 0%nat; Resume 1%nat; Resume 2%nat;
   Release 2%nat; Release 1%nat].

Definition afterAllReleased : State :=
  match run allReleased init with
  | Some s => s
  | None => init
  end.

End LockView.

(* ===================================================================== *)
(** ** The OCR context of a prompt ([route.ts], [buildOcrPromptContext])  *)
(* ===================================================================== *)

Module Ocr.

Inductive AttachmentKind := file | url.

(** An attachment together with what [parseOcrAttachment] answers for it:
    the extracted text, or [None] when the call throws (the OCR service
    is outside the repository). *)
Record ParsedAttachment := {
  kind : AttachmentKind;
  name : string;
  parsedText : option string
}.

Definition MAX_OCR_CONTEXT_CHARS_PER_FILE : Z := 12000.
Definition MAX_OCR_CONTEXT_CHARS_TOTAL : Z := 30000.

Definition CR : ascii := ascii_of_N 13.

(** [s.replace(/\r\n/g, "\n")] *)
Fixpoint replaceCRLF (s : string) : string :=
  match s with
  | EmptyString => EmptyString
  | String c rest =>
      match rest with
      | String d r =>
          if Ascii.eqb c CR && Ascii.eqb d Js.LF
          then String Js.LF (replaceCRLF r)
          else String c (replaceCRLF rest)
      | EmptyString => String c EmptyString
      end
  end.

(** What the loop pushes for one attachment, before it is put into one
    string. *)
Record OcrSection := {
  sourceLabel : string;
  sourceName : string;
  nextChunk : string;
  truncated : bool
}.

(** The loop of [buildOcrPromptContext], with [totalChars] and
    [sections] as accumulators; [None] when [parseOcrAttachment]
    throws. *)
Fixpoint collect (totalChars : Z) (sections : list OcrSection)
    (attachments : list ParsedAttachment) : option (list OcrSection) :=
  match attachments with
  | [] => Some sections
  | attachment :: rest =>
      match parsedText attachment with
      | None => None
      | Some parsed =>
          let normalizedText := Js.trim (replaceCRLF parsed) in
          if Js.isEmpty normalizedText then collect totalChars sections rest
          else
            let remaining := MAX_OCR_CONTEXT_CHARS_TOTAL - totalChars in
            if remaining <=? 0 then Some sections
            else
              let chunk :=
                Js.sliceTo
                  (Z.to_nat (Z.min MAX_OCR_CONTEXT_CHARS_PER_FILE remaining))
                  normalizedText in
              if Js.isEmpty chunk then collect totalChars sections rest
              else
                collect (totalChars + Z.of_nat (String.length chunk))
                  (sections
                   ++ [{| sourceLabel := match kind attachment with
                                         | url => "URL"
                                         | file => "File"
                                         end;
                          sourceName := name attachment;
                          nextChunk := chunk;
                          truncated :=
                            (String.length chunk
                             <? String.length normalizedText)%nat |}])%list
                  rest
      end
  end.

Definition NL : string := String Js.LF EmptyString.

(** [[label, chunk, truncated ? note : empty].filter(Boolean).join("\n")] *)
Definition renderSection (s : OcrSection) : string :=
  String.concat NL
    (Js.filterBoolean
       [ (sourceLabel s ++ ": " ++ sourceName s)%string;
         nextChunk s;
         if truncated s
         then "[Attachment text truncated to fit context window.]"
         else EmptyString ]).

Inductive OcrError := ParseFailed | NoTextExtracted.

Definition buildOcrPromptContext (attachments : list ParsedAttachment)
    : OcrError + string :=
  match collect 0 [] attachments with
  | None => inl ParseFailed
  | Some [] => inl NoTextExtracted
  | Some sections =>
      inr (String.concat (NL ++ NL)%string
             ("The user attached files or links. Use this extracted OCR context when answering."
              :: List.map renderSection sections))
  end.

(** The number of characters of attachment text in a list of sections. *)
Definition chunkChars (sections : list OcrSection) : Z :=
  fold_right (fun s n => Z.of_nat (String.length (nextChunk s)) + n) 0
    sections.

(** A section holds text: between 1 and 12000 characters. *)
Definition wellSized (s : OcrSection) : Prop :=
  1 <= Z.of_nat (String.length (nextChunk s))
    <= MAX_OCR_CONTEXT_CHARS_PER_FILE.

End Ocr.

(* ===================================================================== *)
(** ** The models a request is tried on ([route.ts], lines 1458-1486)     *)
(* ===================================================================== *)

Module Failover.
Import Routing.

Definition RELIABLE_FALLBACK_MODEL : string := "openai/gpt-5-mini".

(** The loop of [getModelExecutionChain] over the candidates, with
    [deduped] as accumulator; it stops at two models. *)
Fixpoint dedupe (deduped candidates : list string) : list string :=
  match candidates with
  | [] => deduped
  | candidate :: rest =>
      if negb (has CHAT_MODELS candidate) then dedupe deduped rest
      else
        let deduped' :=
          if negb (has deduped candidate)
          then (deduped ++ [candidate])%list else deduped in
        if (2 <=? List.length deduped')%nat then deduped'
        else dedupe deduped' rest
  end.

(** [getModelExecutionChain]; [ENABLE_MODEL_FAILOVER] is read from the
    environment when the module loads. *)
Definition getModelExecutionChain (ENABLE_MODEL_FAILOVER : bool)
    (routingDecision : RoutingDecision) : list string :=
  let candidates0 := [model routingDecision] in
  let candidates1 :=
    if allowEscalation routingDecision
       && negb (String.eqb (heavyModel routingDecision)
                           (model routingDecision))
    then (candidates0 ++ [heavyModel routingDecision])%list
    else candidates0 in
  let candidates :=
    if ENABLE_MODEL_FAILOVER && (List.length candidates1 <? 2)%nat
       && has CHAT_MODELS RELIABLE_FALLBACK_MODEL
    then (candidates1 ++ [RELIABLE_FALLBACK_MODEL])%list
    else candidates1 in
  let deduped := dedupe [] candidates in
  if (List.length deduped =? 0)%nat then [DEFAULT_MODEL] else deduped.

End Failover.

(* ===================================================================== *)
(** * Part II: properties                                                 *)
(* ===================================================================== *)

Module JsFacts.
Import Js.

Lemma lowerChar_LF d : Ascii.eqb LF (lowerChar d) = Ascii.eqb LF d.
Proof. destruct d as [[] [] [] [] [] [] [] []]; reflexivity. Qed.

Lemma lowerChar_QUESTION d :
  Ascii.eqb QUESTION (lowerChar d) = Ascii.eqb QUESTION d.
Proof. destruct d as [[] [] [] [] [] [] [] []]; reflexivity. Qed.

Lemma length_toLowerCase s : String.length (toLowerCase s) = String.length s.
Proof. induction s as [|c r IH]; simpl; [reflexivity | now rewrite IH]. Qed.

Lemma countChar_LF_toLowerCase s :
  countChar LF (toLowerCase s) = countChar LF s.
Proof.
  induction s as [|c r IH]; cbn [countChar toLowerCase]; [reflexivity|].
  now rewrite lowerChar_LF, IH.
Qed.

Lemma countChar_QUESTION_toLowerCase s :
  countChar QUESTION (toLowerCase s) = countChar QUESTION s.
Proof.
  induction s as [|c r IH]; cbn [countChar toLowerCase]; [reflexivity|].
  now rewrite lowerChar_QUESTION, IH.
Qed.

Lemma isEmpty_toLowerCase s : isEmpty (toLowerCase s) = isEmpty s.
Proof. destruct s; reflexivity. Qed.

Lemma isEmpty_length s : isEmpty s = true <-> String.length s = 0%nat.
Proof. destruct s; simpl; split; congruence. Qed.

Lemma append_cons c (a b : string) :
  (String c a ++ b)%string = String c (a ++ b)%string.
Proof. reflexivity. Qed.

Lemma length_append (a b : string) :
  String.length (a ++ b)%string = (String.length a + String.length b)%nat.
Proof.
  induction a as [|c a IH]; [reflexivity|].
  rewrite append_cons. cbn [String.length]. now rewrite IH.
Qed.

Lemma substring_all s : substring 0 (String.length s) s = s.
Proof.
  induction s as [|c r IH]; [reflexivity|].
  cbn [String.length substring]. now rewrite IH.
Qed.

Lemma substring_0_0 s : substring 0 0 s = EmptyString.
Proof. destruct s; reflexivity. Qed.

Lemma substring_split s : forall m,
  (m <= String.length s)%nat ->
  s = (substring 0 m s ++ substring m (String.length s - m) s)%string.
Proof.
  induction s as [|c r IH]; intros m Hm.
  - cbn in Hm. assert (m = 0%nat) by lia. subst. reflexivity.
  - destruct m as [|m'].
    + rewrite substring_0_0, Nat.sub_0_r, substring_all. reflexivity.
    + cbn [String.length] in Hm.
      cbn [String.length Nat.sub substring]. rewrite append_cons.
      f_equal. apply IH. lia.
Qed.

(** A stripped suffix can be put back. *)
Lemma stripSuffix_Some suffix s c :
  stripSuffix suffix s = Some c -> s = (c ++ suffix)%string.
Proof.
  unfold stripSuffix.
  destruct (String.length suffix <=? String.length s)%nat eqn:Hle; [|discriminate].
  destruct (String.eqb _ suffix) eqn:He; [|discriminate].
  cbn [andb]. intros H. inversion H; subst c. clear H.
  apply Nat.leb_le in Hle. apply String.eqb_eq in He.
  pose proof (substring_split s (String.length s - String.length suffix)
                ltac:(lia)) as H.
  replace (String.length s - (String.length s - String.length suffix))%nat
    with (String.length suffix) in H by lia.
  rewrite He in H. exact H.
Qed.

Lemma append_inj_l (a b suffix : string) :
  (a ++ suffix)%string = (b ++ suffix)%string -> a = b.
Proof.
  revert b. induction a as [|c a IH]; intros [|d b] H.
  - reflexivity.
  - exfalso. apply (f_equal String.length) in H.
    rewrite append_cons in H. cbn [String.length] in H.
    rewrite !length_append in H. cbn [String.length] in H. lia.
  - exfalso. apply (f_equal String.length) in H.
    rewrite append_cons in H. cbn [String.length] in H.
    rewrite !length_append in H. cbn [String.length] in H. lia.
  - rewrite !append_cons in H. inversion H. f_equal. now apply IH.
Qed.
End JsFacts.

Module RoutingFacts.
Import Routing Scenario.

Lemma clampInt_clamp value lo hi :
  lo <= hi -> clampInt value lo hi = RoutingSpec.clamp value lo hi.
Proof.
  intros Hle. unfold clampInt, RoutingSpec.clamp.
  destruct (value <? lo) eqn:E1; [apply Z.ltb_lt in E1; lia|].
  apply Z.ltb_ge in E1.
  destruct (hi <? value) eqn:E2; [apply Z.ltb_lt in E2 | apply Z.ltb_ge in E2]; lia.
Qed.

Lemma clampInt_id value lo hi :
  lo <= value <= hi -> clampInt value lo hi = value.
Proof.
  intros H. unfold clampInt.
  destruct (value <? lo) eqn:E1; [apply Z.ltb_lt in E1; lia|].
  destruct (hi <? value) eqn:E2; [apply Z.ltb_lt in E2; lia|]. reflexivity.
Qed.

Lemma clampInt_mono a b lo hi :
  lo <= hi -> a <= b -> clampInt a lo hi <= clampInt b lo hi.
Proof.
  intros Hle Hab. rewrite !clampInt_clamp by assumption.
  unfold RoutingSpec.clamp. lia.
Qed.

Lemma tier_buildRoutingDecision env cm prompt selectedModel tools settings :
  tier (buildRoutingDecision env cm prompt selectedModel tools settings) =
  let complexity := scorePromptComplexity cm prompt tools in
  let sensitivity := clampInt (routingSensitivity settings) 0 100 in
  if clampInt (17 - sensitivity / 10) 7 17
     - (if deepSearchEnabled tools then 2 else 0) <=? complexity then heavy
  else if webSearchEnabled tools || deepSearchEnabled tools
          || (0 <? attachmentCount tools)
          || (clampInt (9 - sensitivity / 20) 4 9 <=? complexity)
       then tooling else light.
Proof. reflexivity. Qed.

(** C2: for every prompt, tool-signal triple and sensitivity [s] in
    [0,100], the tier of the routing decision is the one the policy of the
    specification picks: heavy when the complexity reaches
    [clamp(17 - floor(s/10), 7, 17)] minus the deep-search bias, else
    tooling when a tool signal is present or the complexity reaches
    [clamp(9 - floor(s/20), 4, 9)], else light. *)
Theorem tier_refines_spec env cm prompt selectedModel tools s hc :
  0 <= s <= 100 ->
  RoutingSpec.picks (scorePromptComplexity cm prompt tools) tools s
    (tier (buildRoutingDecision env cm prompt selectedModel tools
             {| routingSensitivity := s; historyCompression := hc |})).
Proof.
  intros Hs. rewrite tier_buildRoutingDecision. cbv zeta. simpl routingSensitivity.
  rewrite (clampInt_id s) by lia.
  rewrite !clampInt_clamp by lia.
  fold (RoutingSpec.heavyThreshold s) (RoutingSpec.toolingThreshold s).
  fold (RoutingSpec.deepSearchBias tools).
  set (c := scorePromptComplexity cm prompt tools).
  destruct (Z.leb_spec (RoutingSpec.heavyThreshold s - RoutingSpec.deepSearchBias tools) c) as [Hh|Hh].
  - apply RoutingSpec.picks_heavy. lia.
  - destruct (webSearchEnabled tools || deepSearchEnabled tools || (0 <? attachmentCount tools) || (RoutingSpec.toolingThreshold s <=? c)) eqn:E.
    + apply RoutingSpec.picks_tooling; [lia|].
      unfold RoutingSpec.anyToolSignal.
      rewrite !orb_true_iff in E. rewrite Z.ltb_lt, Z.leb_le in E.
      intuition lia.
    + apply RoutingSpec.picks_light; [lia|].
      unfold RoutingSpec.anyToolSignal.
      rewrite !orb_false_iff in E. rewrite Z.ltb_ge, Z.leb_gt in E.
      destruct E as [[[E1 E2] E3] E4]. rewrite E1, E2.
      intros [[?|[?|?]]|?]; try discriminate; lia.
Qed.

Lemma tier_refines_spec_witness :
  0 <= 55 <= 100 /\
  RoutingSpec.picks (scorePromptComplexity noMatches "hi" noTools) noTools 55
    (tier (buildRoutingDecision defaultEnv noMatches "hi" DEFAULT_MODEL
             noTools
             {| routingSensitivity := 55; historyCompression := 50 |})).
Proof.
  split; [lia|].
  apply (tier_refines_spec defaultEnv noMatches "hi" DEFAULT_MODEL noTools
           55 50).
  lia.
Defined.

(** C5: for a fixed prompt and fixed tool signals the tier is monotone in
    the routing sensitivity: when the decision is heavy at [s] it is heavy
    at every larger sensitivity [s'] (in particular for [s], [s'] in
    [0,100]). *)
Theorem heavy_monotone_in_sensitivity
    env cm prompt selectedModel tools hc (s s' : Z) :
  s <= s' ->
  tier (buildRoutingDecision env cm prompt selectedModel tools
          {| routingSensitivity := s; historyCompression := hc |}) = heavy ->
  tier (buildRoutingDecision env cm prompt selectedModel tools
          {| routingSensitivity := s'; historyCompression := hc |}) = heavy.
Proof.
  intros Hle. rewrite !tier_buildRoutingDecision. cbv zeta.
  simpl routingSensitivity.
  set (c := scorePromptComplexity cm prompt tools).
  set (bias := if deepSearchEnabled tools then 2 else 0).
  assert (Hmono : clampInt (17 - clampInt s' 0 100 / 10) 7 17
                  <= clampInt (17 - clampInt s 0 100 / 10) 7 17).
  { apply clampInt_mono; [lia|].
    assert (clampInt s 0 100 / 10 <= clampInt s' 0 100 / 10); [|lia].
    apply Z.div_le_mono; [lia|]. apply clampInt_mono; lia. }
  destruct (Z.leb_spec (clampInt (17 - clampInt s 0 100 / 10) 7 17 - bias) c) as [H1|H1].
  - intros _. destruct (Z.leb_spec (clampInt (17 - clampInt s' 0 100 / 10) 7 17 - bias) c); [reflexivity|lia].
  - destruct (_ || _); discriminate.
Qed.

Lemma heavy_monotone_in_sensitivity_witness :
  55 <= 80 /\
  tier (buildRoutingDecision defaultEnv noMatches plainPrompt DEFAULT_MODEL
          deepSearchOnly
          {| routingSensitivity := 55; historyCompression := 50 |}) = heavy /\
  tier (buildRoutingDecision defaultEnv noMatches plainPrompt DEFAULT_MODEL
          deepSearchOnly
          {| routingSensitivity := 80; historyCompression := 50 |}) = heavy.
Proof.
  split; [lia|].
  assert (H55 : tier (buildRoutingDecision defaultEnv noMatches plainPrompt
                        DEFAULT_MODEL deepSearchOnly
                        {| routingSensitivity := 55;
                           historyCompression := 50 |}) = heavy)
    by (vm_compute; reflexivity).
  split; [exact H55|].
  apply (heavy_monotone_in_sensitivity defaultEnv noMatches plainPrompt
           DEFAULT_MODEL deepSearchOnly 50 55 80); [lia | exact H55].
Defined.

Lemma Math_round_div_rounds n d :
  0 < d -> RoutingSpec.rounds_to n d (Math_round_div n d).
Proof.
  intros Hd. unfold RoutingSpec.rounds_to, Math_round_div.
  pose proof (Z.mul_div_le (2 * n + d) (2 * d)) as H1.
  pose proof (Z.mul_succ_div_gt (2 * n + d) (2 * d)) as H2.
  lia.
Qed.

(** C6: for every compression [c] in [0,100] and every tier, the history
    window is [24 - round(18*c/100)] messages and the summary budget is
    [4200 - round(3300*c/100)] characters, moved by -2 / -350 for the light
    tier, by +3 / +550 for the heavy tier and not at all for the tooling
    tier, and clamped to [6,24] messages and [900,4200] characters. *)
Theorem history_parameters (t : RoutingTier) (c : Z) :
  0 <= c <= 100 ->
  exists rw rs,
    RoutingSpec.rounds_to (18 * c) 100 rw /\
    RoutingSpec.rounds_to (3300 * c) 100 rs /\
    computeHistoryCompression t c =
      {| hp_historyWindowMessages :=
           RoutingSpec.clamp (24 - rw + RoutingSpec.windowDelta t) 6 24;
         hp_historySummaryMaxChars :=
           RoutingSpec.clamp (4200 - rs + RoutingSpec.summaryDelta t) 900 4200 |}.
Proof.
  intros Hc.
  exists (Math_round_div (18 * c) 100), (Math_round_div (3300 * c) 100).
  split; [apply Math_round_div_rounds; lia|].
  split; [apply Math_round_div_rounds; lia|].
  unfold computeHistoryCompression.
  rewrite (clampInt_id c) by lia.
  unfold MAX_HISTORY_WINDOW_MESSAGES, MIN_HISTORY_WINDOW_MESSAGES,
    MAX_HISTORY_SUMMARY_CHARS, MIN_HISTORY_SUMMARY_CHARS.
  change (24 - 6) with 18. change (4200 - 900) with 3300.
  destruct t; cbn [RoutingSpec.windowDelta RoutingSpec.summaryDelta];
    rewrite !clampInt_clamp by lia; f_equal; f_equal; lia.
Qed.

Lemma history_parameters_witness :
  0 <= 25 <= 100 /\
  exists rw rs,
    RoutingSpec.rounds_to (18 * 25) 100 rw /\
    RoutingSpec.rounds_to (3300 * 25) 100 rs /\
    computeHistoryCompression light 25 =
      {| hp_historyWindowMessages :=
           RoutingSpec.clamp (24 - rw + RoutingSpec.windowDelta light) 6 24;
         hp_historySummaryMaxChars :=
           RoutingSpec.clamp (4200 - rs + RoutingSpec.summaryDelta light)
             900 4200 |}.
Proof.
  split; [lia|]. apply (history_parameters light 25). lia.
Defined.

(** The tie 18*25/100 = 4.5 rounds up to 5: window 24 - 5 - 2. *)
Example history_light_25 :
  computeHistoryCompression light 25 =
    {| hp_historyWindowMessages := 17; hp_historySummaryMaxChars := 3025 |}.
Proof. reflexivity. Qed.

Example history_heavy_0 :
  computeHistoryCompression heavy 0 =
    {| hp_historyWindowMessages := 24; hp_historySummaryMaxChars := 4200 |}.
Proof. reflexivity. Qed.

Example history_light_100 :
  computeHistoryCompression light 100 =
    {| hp_historyWindowMessages := 6; hp_historySummaryMaxChars := 900 |}.
Proof. reflexivity. Qed.

Lemma pt_range b : 0 <= pt b <= 1.
Proof. destruct b; simpl; lia. Qed.

Lemma scoreInstructionComplexity_nonneg cm prompt :
  0 <= scoreInstructionComplexity cm prompt.
Proof.
  unfold scoreInstructionComplexity.
  destruct (Js.isEmpty _); [lia|].
  repeat match goal with
         | |- context [pt ?b] =>
             let H := fresh in pose proof (pt_range b) as H;
             generalize dependent (pt b); intros
         end.
  lia.
Qed.

Lemma scorePromptLength_scenario prompt :
  String.length (Js.trim prompt) = 1500%nat ->
  Js.countChar Js.LF (Js.trim prompt) = 5%nat ->
  Js.countChar Js.QUESTION (Js.trim prompt) = 2%nat ->
  7 <= scorePromptLength prompt.
Proof.
  intros Hlen Hnl Hq. unfold scorePromptLength.
  destruct (Js.isEmpty (Js.toLowerCase (Js.trim prompt))) eqn:E.
  { rewrite JsFacts.isEmpty_toLowerCase in E.
    apply JsFacts.isEmpty_length in E. lia. }
  rewrite JsFacts.length_toLowerCase, JsFacts.countChar_LF_toLowerCase,
    JsFacts.countChar_QUESTION_toLowerCase, Hlen, Hnl, Hq.
  change (pt (180 <? Z.of_nat 1500)) with 1.
  change (pt (420 <? Z.of_nat 1500)) with 1.
  change (pt (760 <? Z.of_nat 1500)) with 1.
  change (pt (1300 <? Z.of_nat 1500)) with 1.
  change (pt (3 <=? Z.of_nat 5)) with 1.
  change (pt (4 <=? Z.of_nat 5)) with 1.
  change (pt (9 <=? Z.of_nat 5)) with 0.
  change (pt (2 <=? Z.of_nat 2)) with 1.
  repeat match goal with
         | |- context [pt ?b] =>
             let H := fresh in pose proof (pt_range b) as H;
             generalize dependent (pt b); intros
         end.
  lia.
Qed.

(** C8, as amended: for a prompt whose trimmed text has 1500 characters,
    5 newlines and 2 question marks, with deep search as the only tool
    signal and sensitivity 55, the length score is at least 6, the tool
    score is 3, and the decision is heavy (12 lowered by the deep-search
    bias to 10, reached by 7 + 3). *)
Theorem deep_search_scenario env cm prompt selectedModel hc :
  String.length (Js.trim prompt) = 1500%nat ->
  Js.countChar Js.LF (Js.trim prompt) = 5%nat ->
  Js.countChar Js.QUESTION (Js.trim prompt) = 2%nat ->
  6 <= scorePromptLength prompt /\
  scoreToolComplexity deepSearchOnly = 3 /\
  tier (buildRoutingDecision env cm prompt selectedModel deepSearchOnly
          {| routingSensitivity := 55; historyCompression := hc |}) = heavy.
Proof.
  intros Hlen Hnl Hq.
  pose proof (scorePromptLength_scenario prompt Hlen Hnl Hq) as H7.
  split; [lia|]. split; [reflexivity|].
  rewrite tier_buildRoutingDecision. cbv zeta. simpl routingSensitivity.
  change (clampInt (17 - clampInt 55 0 100 / 10) 7 17) with 12.
  change (if deepSearchEnabled deepSearchOnly then 2 else 0) with 2.
  unfold scorePromptComplexity.
  destruct (Js.isEmpty (Js.trim prompt)) eqn:E.
  { apply JsFacts.isEmpty_length in E. lia. }
  change (scoreToolComplexity deepSearchOnly) with 3.
  pose proof (scoreInstructionComplexity_nonneg cm prompt).
  destruct (Z.leb_spec (12 - 2)
              (scorePromptLength prompt
               + scoreInstructionComplexity cm prompt + 3));
    [reflexivity|lia].
Qed.

Lemma deep_search_scenario_witness :
  String.length (Js.trim plainPrompt) = 1500%nat /\
  Js.countChar Js.LF (Js.trim plainPrompt) = 5%nat /\
  Js.countChar Js.QUESTION (Js.trim plainPrompt) = 2%nat /\
  6 <= scorePromptLength plainPrompt /\
  scoreToolComplexity deepSearchOnly = 3 /\
  tier (buildRoutingDecision defaultEnv noMatches plainPrompt DEFAULT_MODEL
          deepSearchOnly
          {| routingSensitivity := 55; historyCompression := 50 |}) = heavy.
Proof.
  split; [vm_compute; reflexivity|].
  split; [vm_compute; reflexivity|].
  split; [vm_compute; reflexivity|].
  apply (deep_search_scenario defaultEnv noMatches plainPrompt DEFAULT_MODEL
           50); vm_compute; reflexivity.
Defined.

(** C8 as stated fails.  On [plainPrompt] (1500 characters, 5 newlines,
    2 question marks) with deep search only, the tool score is 3, below 5.
    On [paddedPrompt], which has the same three counts but loses all of its
    newlines and padding to [trim], the length score is 1 and the decision
    is tooling. *)
Lemma deep_search_scenario_counterexample :
  (String.length plainPrompt = 1500%nat /\
   Js.countChar Js.LF plainPrompt = 5%nat /\
   Js.countChar Js.QUESTION plainPrompt = 2%nat /\
   ~ (6 <= scorePromptLength plainPrompt /\
      5 <= scoreToolComplexity deepSearchOnly /\
      tier (buildRoutingDecision defaultEnv noMatches plainPrompt
              DEFAULT_MODEL deepSearchOnly
              {| routingSensitivity := 55; historyCompression := 50 |})
      = heavy)) /\
  (String.length paddedPrompt = 1500%nat /\
   Js.countChar Js.LF paddedPrompt = 5%nat /\
   Js.countChar Js.QUESTION paddedPrompt = 2%nat /\
   scorePromptLength paddedPrompt = 1 /\
   tier (buildRoutingDecision defaultEnv noMatches paddedPrompt
           DEFAULT_MODEL deepSearchOnly
           {| routingSensitivity := 55; historyCompression := 50 |})
   = tooling).
Proof.
  split.
  - split; [vm_compute; reflexivity|].
    split; [vm_compute; reflexivity|].
    split; [vm_compute; reflexivity|].
    intros (_ & Htool & _). vm_compute in Htool. apply Htool. reflexivity.
  - repeat split; vm_compute; reflexivity.
Qed.

(** The scenario "hi", no tools: complexity 0, tier light. *)
Example hi_is_light :
  scorePromptComplexity noMatches "hi" noTools = 0 /\
  tier (buildRoutingDecision defaultEnv noMatches "hi" DEFAULT_MODEL noTools
          {| routingSensitivity := 55; historyCompression := 50 |}) = light.
Proof. split; reflexivity. Qed.
End RoutingFacts.

Module MimeFacts.
Import Mime.

Lemma subarray_prefix (sig rest : Buffer) :
  subarray (sig ++ rest)%list 0 (List.length sig) = sig.
Proof.
  unfold subarray. rewrite Nat.sub_0_r. apply take_app_length.
Qed.

Lemma classify_multi n st :
  classify n = LeadMulti st ->
  exists k acc lowest, st = Cont k acc lowest /\ (128 <= lowest)%N.
Proof.
  unfold classify. intros H.
  repeat match type of H with
         | (if ?c then _ else _) = _ => destruct c
         end; inversion H; subst; do 3 eexists; split; try reflexivity; lia.
Qed.

(** In the middle of a sequence the decoder's next output is never an
    ASCII code point. *)
Lemma utf8Decode_cont_head buf : forall k acc lowest,
  (128 <= lowest)%N ->
  exists x l, utf8Decode (Cont k acc lowest) buf = x :: l /\ (128 <= x)%N.
Proof.
  induction buf as [|b r IH]; intros k acc lowest Hlow.
  - exists REPLACEMENT, []. split; [reflexivity | unfold REPLACEMENT; lia].
  - cbn [utf8Decode].
    destruct ((128 <=? byteVal b) && (byteVal b <=? 191))%N.
    + destruct k as [|[|k']].
      * destruct (scalarOk _ lowest) eqn:E; do 2 eexists; (split; [reflexivity|]).
        -- unfold scalarOk in E. rewrite !andb_true_iff, N.leb_le in E. lia.
        -- unfold REPLACEMENT; lia.
      * destruct (scalarOk _ lowest) eqn:E; do 2 eexists; (split; [reflexivity|]).
        -- unfold scalarOk in E. rewrite !andb_true_iff, N.leb_le in E. lia.
        -- unfold REPLACEMENT; lia.
      * apply IH, Hlow.
    + do 2 eexists. split; [reflexivity | unfold REPLACEMENT; lia].
Qed.

(** A decoding made of ASCII code points only is the byte string itself. *)
Lemma utf8Decode_ascii buf : forall l,
  utf8Decode Start buf = l -> Forall (fun x => (x < 128)%N) l ->
  List.map byteVal buf = l.
Proof.
  induction buf as [|b r IH]; intros l Hdec Hall.
  - exact Hdec.
  - cbn [utf8Decode] in Hdec. cbn [List.map].
    destruct (classify (byteVal b)) as [|st|] eqn:Ec.
    + subst l. inversion Hall; subst. f_equal. now apply IH.
    + destruct (classify_multi _ _ Ec) as (k & acc & lowest & -> & Hlow).
      destruct (utf8Decode_cont_head r k acc lowest Hlow) as (x & l' & Hx & Hge).
      rewrite Hx in Hdec. subst l. inversion Hall; subst. lia.
    + subst l. inversion Hall; subst. unfold REPLACEMENT in *. lia.
Qed.

Lemma byteVal_inj a b : byteVal a = byteVal b -> a = b.
Proof.
  unfold byteVal. intros H.
  pose proof (Byte.of_to_N a) as Ha. pose proof (Byte.of_to_N b) as Hb.
  rewrite H in Ha. congruence.
Qed.

Lemma map_byteVal_inj (a b : Buffer) :
  List.map byteVal a = List.map byteVal b -> a = b.
Proof.
  revert b. induction a as [|x a IH]; intros [|y b] H; try discriminate; [reflexivity|].
  cbn [List.map] in H. inversion H. f_equal; [now apply byteVal_inj | now apply IH].
Qed.

(** The UTF-8 test against "%PDF-" holds of the five signature bytes and
    of nothing else. *)
Lemma toString_utf8_is_pdf buf :
  toString_utf8_is buf "%PDF-" = true <-> buf = PDF_SIGNATURE.
Proof.
  unfold toString_utf8_is. rewrite bool_decide_eq_true. split.
  - intros H. apply utf8Decode_ascii in H.
    + apply map_byteVal_inj. exact H.
    + repeat constructor.
  - intros ->. reflexivity.
Qed.

Lemma pdf_test_false buf :
  subarray buf 0 5 <> PDF_SIGNATURE ->
  toString_utf8_is (subarray buf 0 5) "%PDF-" = false.
Proof.
  intros H. destruct (toString_utf8_is _ _) eqn:E; [|reflexivity].
  apply toString_utf8_is_pdf in E. contradiction.
Qed.

Lemma detect_pdf buf :
  beginsWith PDF_SIGNATURE buf ->
  detectMimeFromBinary buf = Some "application/pdf".
Proof.
  intros [rest ->]. unfold detectMimeFromBinary.
  change 5%nat with (List.length PDF_SIGNATURE) at 2.
  rewrite subarray_prefix. reflexivity.
Qed.

Lemma detect_png buf :
  beginsWith PNG_SIGNATURE buf ->
  detectMimeFromBinary buf = Some "image/png".
Proof. intros [rest ->]. reflexivity. Qed.

Lemma detect_jpeg buf :
  beginsWith JPEG_SIGNATURE buf ->
  detectMimeFromBinary buf = Some "image/jpeg".
Proof.
  intros [rest ->]. unfold detectMimeFromBinary.
  rewrite pdf_test_false by (destruct rest as [|? [|? ?]]; discriminate).
  rewrite andb_false_r.
  replace (at_is (JPEG_SIGNATURE ++ rest)%list 0 137) with false by reflexivity.
  rewrite andb_false_r. reflexivity.
Qed.

Lemma detect_webp buf :
  isRiffWebp buf -> detectMimeFromBinary buf = Some "image/webp".
Proof.
  intros (b4 & b5 & b6 & b7 & rest & ->). unfold detectMimeFromBinary.
  rewrite pdf_test_false by discriminate.
  rewrite andb_false_r.
  replace (at_is _ 0 137) with false by reflexivity.
  replace (at_is _ 0 255) with false by reflexivity.
  rewrite !andb_false_r. reflexivity.
Qed.

Lemma detect_arbitrary_none :
  detectMimeFromBinary [x00; x01; x02; x03; x04; x05; x06; x07; x08; x09; x0a; x0b] = None.
Proof. reflexivity. Qed.

(** C9 fails on [highBitRiff]: the twelve bytes D2 C9 C6 C6, four zero
    bytes, D7 C5 C2 D0 begin with none of the four signatures, and
    [detectMimeFromBinary] returns "image/webp" for them instead of null,
    because the "ascii" decoding clears the high bit of each byte before
    the comparison with "RIFF" and "WEBP". *)
Theorem detect_high_bit_riff :
  ~ beginsWith PDF_SIGNATURE highBitRiff /\
  ~ beginsWith PNG_SIGNATURE highBitRiff /\
  ~ beginsWith JPEG_SIGNATURE highBitRiff /\
  ~ isRiffWebp highBitRiff /\
  detectMimeFromBinary highBitRiff = Some "image/webp".
Proof.
  repeat split; try (intros [rest H]; discriminate H).
  intros (b4 & b5 & b6 & b7 & rest & H). discriminate H.
Qed.
End MimeFacts.

Module AtomicWriteFacts.
Import AtomicWrite.

(** The temporary file is never the target: its name is longer. *)
Lemma tempPath_fresh pid uuid filePath :
  tempPathOf pid uuid filePath <> filePath.
Proof.
  destruct filePath as [d b]. unfold tempPathOf, join, dirname, basename.
  cbn [fst snd]. intros H. inversion H as [Hb].
  apply (f_equal String.length) in Hb.
  rewrite !JsFacts.length_append in Hb. cbn [String.length] in Hb. lia.
Qed.

Lemma writeFile_other fs path data stop other :
  other <> path ->
  let '(states, fs1, _) := writeFile fs path data stop in
  Forall (fun s : FileSystem => s !! other = fs !! other) states
  /\ fs1 !! other = fs !! other.
Proof.
  intros Hne. unfold writeFile. split.
  - apply Forall_forall. intros s Hs. apply list_elem_of_In, in_map_iff in Hs.
    destruct Hs as (k & <- & _). now apply lookup_insert_ne.
  - now apply lookup_insert_ne.
Qed.

Lemma writeFile_complete fs path data :
  writeFile fs path data None
  = (List.map (fun k => <[path := written k data]> fs)
       (seq 0 (S (String.length data))),
     <[path := data]> fs, true).
Proof.
  unfold writeFile. repeat f_equal. unfold written.
  clear. induction data as [|c r IH]; [reflexivity|].
  cbn [String.length substring]. now rewrite IH.
Qed.

(** X18: whatever goes wrong (the directory cannot be made, the write
    of the temporary file stops early, the rename fails, the clean-up
    fails), every state a reader can observe during [atomicWriteJson], and
    the state it leaves, shows the target with its previous content or
    with the complete new content, never with a part of it. *)
Theorem atomicWriteJson_never_partial pid uuid faults fs filePath serialized :
  Forall (intact fs filePath serialized)
    (observable (atomicWriteJson pid uuid faults fs filePath serialized))
  /\ intact fs filePath serialized
       (final (atomicWriteJson pid uuid faults fs filePath serialized)).
Proof.
  pose proof (tempPath_fresh pid uuid filePath) as Hfresh.
  unfold atomicWriteJson.
  destruct (mkdirFails faults).
  { cbn. split; [repeat constructor|]; now left. }
  pose proof (writeFile_other fs (tempPathOf pid uuid filePath) serialized
                (writeStopsAfter faults) filePath (not_eq_sym Hfresh)) as Hw.
  destruct (writeFile _ _ _ _) as [[states fs1] ok] eqn:Ew.
  destruct Hw as [Hstates Hfs1].
  assert (Hobs : Forall (intact fs filePath serialized) (fs :: states)).
  { constructor; [now left|].
    eapply Forall_impl; [exact Hstates|]. intros s Hs. now left. }
  destruct ok; cbn [negb].
  2:{ cbn. split; [exact Hobs | now left]. }
  destruct (renameFails faults).
  - assert (Hfs2 : intact fs filePath serialized
              (if unlinkFails faults then fs1
               else unlink fs1 (tempPathOf pid uuid filePath))).
    { left. destruct (unlinkFails faults); [exact Hfs1|].
      unfold unlink. rewrite lookup_delete_ne by exact Hfresh. exact Hfs1. }
    cbn. split; [|exact Hfs2].
    constructor; [now left|]. apply Forall_app. split; [|constructor; [exact Hfs2 | constructor]].
    now inversion Hobs.
  - assert (Hfs2 : intact fs filePath serialized
              (rename fs1 (tempPathOf pid uuid filePath) filePath)).
    { destruct (writeStopsAfter faults) eqn:Est.
      { unfold writeFile in Ew. inversion Ew. }
      rewrite writeFile_complete in Ew. inversion Ew; subst.
      right. unfold rename. rewrite lookup_insert_eq.
      apply lookup_insert_eq. }
    cbn. split; [|exact Hfs2].
    constructor; [now left|]. apply Forall_app. split; [|constructor; [exact Hfs2 | constructor]].
    now inversion Hobs.
Qed.

(** A rejected [atomicWriteJson] leaves the target as it was. *)
Lemma atomicWriteJson_rejected pid uuid faults fs filePath serialized e :
  outcome (atomicWriteJson pid uuid faults fs filePath serialized)
  = Rejected e ->
  final (atomicWriteJson pid uuid faults fs filePath serialized) !! filePath
  = fs !! filePath.
Proof.
  pose proof (tempPath_fresh pid uuid filePath) as Hfresh.
  unfold atomicWriteJson.
  destruct (mkdirFails faults); [reflexivity|].
  pose proof (writeFile_other fs (tempPathOf pid uuid filePath) serialized
                (writeStopsAfter faults) filePath (not_eq_sym Hfresh)) as Hw.
  destruct (writeFile _ _ _ _) as [[states fs1] ok].
  destruct Hw as [_ Hfs1].
  destruct ok; cbn [negb]; [|intros _; exact Hfs1].
  destruct (renameFails faults); [|discriminate].
  intros _. cbn. destruct (unlinkFails faults); [exact Hfs1|].
  unfold unlink. rewrite lookup_delete_ne by exact Hfresh. exact Hfs1.
Qed.

(** Without a fault the target holds the new text and no temporary file
    is left. *)
Lemma atomicWriteJson_resolved pid uuid fs filePath serialized :
  let run := atomicWriteJson pid uuid noFaults fs filePath serialized in
  outcome run = Resolved
  /\ final run !! filePath = Some serialized
  /\ final run !! tempPathOf pid uuid filePath = None.
Proof.
  pose proof (tempPath_fresh pid uuid filePath) as Hfresh.
  unfold atomicWriteJson. cbn [noFaults mkdirFails writeStopsAfter renameFails].
  rewrite writeFile_complete. cbn.
  unfold rename. rewrite lookup_insert_eq.
  split; [reflexivity|]. split.
  - apply lookup_insert_eq.
  - rewrite lookup_insert_ne by (apply not_eq_sym; exact Hfresh).
    apply lookup_delete_eq.
Qed.

(** When the rename fails the error is rethrown, and the temporary file
    is gone unless removing it failed too. *)
Lemma atomicWriteJson_rename_fails pid uuid fs filePath serialized :
  let faults := {| mkdirFails := false; writeStopsAfter := None;
                   renameFails := true; unlinkFails := false |} in
  let run := atomicWriteJson pid uuid faults fs filePath serialized in
  outcome run = Rejected RenameError
  /\ final run !! tempPathOf pid uuid filePath = None
  /\ final run !! filePath = fs !! filePath.
Proof.
  pose proof (tempPath_fresh pid uuid filePath) as Hfresh.
  unfold atomicWriteJson. cbn [mkdirFails writeStopsAfter renameFails unlinkFails].
  rewrite writeFile_complete. cbn. unfold unlink.
  split; [reflexivity|]. split.
  - apply lookup_delete_eq.
  - rewrite lookup_delete_ne by exact Hfresh.
    apply lookup_insert_ne. exact Hfresh.
Qed.

(** C4 at the older store: [saveBundle] writes the target in place.  When
    the write stops after two characters the call is rejected and the
    bundle file holds the first two characters of the new text: neither
    the previous content nor the new one. *)
Theorem saveBundle_legacy_partial_write :
  let run := saveBundle_legacy stopsAfterTwo diskWithBundle bundlePath newText in
  outcome run = Rejected WriteError
  /\ final run !! bundlePath = Some "{ "
  /\ ~ intact diskWithBundle bundlePath newText (final run)
  /\ ~ Forall (intact diskWithBundle bundlePath newText) (observable run).
Proof.
  intros run.
  split; [reflexivity|]. split; [vm_compute; reflexivity|]. split.
  - intros [H|H]; vm_compute in H; discriminate H.
  - intros H. rewrite Forall_forall in H.
    assert (Hin : <[bundlePath := EmptyString]> diskWithBundle ∈ observable run).
    { right. left. }
    destruct (H _ Hin) as [H'|H']; vm_compute in H'; discriminate H'.
Qed.

(** The same fault under [atomicWriteJson]: rejected, target untouched. *)
Example saveBundle_same_fault :
  let run := saveBundle "4242" "uuid" stopsAfterTwo diskWithBundle bundlePath
               newText in
  outcome run = Rejected WriteError
  /\ final run !! bundlePath = Some oldText.
Proof. split; vm_compute; reflexivity. Qed.
End AtomicWriteFacts.

Module MergeFacts.
Import Store StoreSpec.

Lemma existsb_eqb_In (x : string) (l : list string) :
  existsb (String.eqb x) l = true <-> In x l.
Proof.
  rewrite existsb_exists. split.
  - intros (y & Hy & He). apply String.eqb_eq in He. now subst.
  - intros H. exists x. split; [exact H | apply String.eqb_refl].
Qed.

Lemma existsb_eqb_notIn (x : string) (l : list string) :
  existsb (String.eqb x) l = false <-> ~ In x l.
Proof.
  rewrite <- existsb_eqb_In. destruct (existsb _ l); split; congruence.
Qed.

(** The loop appends to [mergedMessages] exactly the unseen messages. *)
Lemma mergeLoop_unseen incoming : forall merged seen,
  mergeLoop merged seen incoming = (merged ++ unseen seen incoming)%list.
Proof.
  induction incoming as [|m r IH]; intros merged seen; cbn [mergeLoop unseen].
  - now rewrite app_nil_r.
  - destruct (existsb _ seen); [apply IH|].
    rewrite IH, <- app_assoc. reflexivity.
Qed.

(** With a stored message present, the code merges by id. *)
Lemma merge_nonempty_existing existing incoming :
  existing <> [] ->
  mergeStoredMessagesPreservingExisting existing incoming
  = mergeById existing incoming.
Proof.
  intros Hne. unfold mergeStoredMessagesPreservingExisting, mergeById.
  destruct existing as [|e existing']; [contradiction|].
  cbn [List.length Nat.eqb].
  destruct incoming as [|m r]; [now rewrite app_nil_r|].
  cbn [List.length Nat.eqb]. apply mergeLoop_unseen.
Qed.

(** With no stored message, the incoming list is taken as it is. *)
Lemma merge_empty_existing incoming :
  mergeStoredMessagesPreservingExisting [] incoming = incoming.
Proof. reflexivity. Qed.

(** Stored messages are never dropped nor moved. *)
Lemma merge_keeps_existing existing incoming :
  exists appended,
    mergeStoredMessagesPreservingExisting existing incoming
    = (existing ++ appended)%list.
Proof.
  destruct existing as [|e existing'].
  - exists incoming. reflexivity.
  - eexists. rewrite merge_nonempty_existing by discriminate. reflexivity.
Qed.

Lemma unseen_ids incoming : forall seen x,
  In x (List.map id (unseen seen incoming)) ->
  ~ In x seen /\ In x (List.map id incoming).
Proof.
  induction incoming as [|m r IH]; intros seen x; cbn [unseen List.map].
  - intros [].
  - destruct (existsb _ seen) eqn:E.
    + intros H. destruct (IH _ _ H). split; [assumption | now right].
    + cbn [List.map]. intros [<-|H].
      * split; [now apply existsb_eqb_notIn | now left].
      * destruct (IH _ _ H) as [Hn Hi]. split; [|now right].
        intros Hs. apply Hn, in_or_app. now left.
Qed.

Lemma unseen_NoDup incoming : forall seen,
  NoDup (List.map id (unseen seen incoming)).
Proof.
  induction incoming as [|m r IH]; intros seen; cbn [unseen List.map].
  - constructor.
  - destruct (existsb _ seen); [apply IH|].
    cbn [List.map]. apply NoDup_cons. split; [|apply IH].
    rewrite list_elem_of_In. intros H. apply unseen_ids in H.
    destruct H as [H _]. apply H, in_or_app. right. now left.
Qed.

(** Merging by id keeps the ids of a bundle distinct. *)
Lemma mergeById_NoDup existing incoming :
  NoDup (List.map id existing) ->
  NoDup (List.map id (mergeById existing incoming)).
Proof.
  intros Hnd. unfold mergeById. rewrite map_app.
  apply NoDup_app. split; [exact Hnd|]. split; [|apply unseen_NoDup].
  intros x Hx Hu. rewrite list_elem_of_In in Hx, Hu.
  apply unseen_ids in Hu. tauto.
Qed.

Lemma unseen_all_seen incoming : forall seen,
  (forall m, In m incoming -> In (id m) seen) -> unseen seen incoming = [].
Proof.
  induction incoming as [|m r IH]; intros seen H; cbn [unseen]; [reflexivity|].
  rewrite (proj2 (existsb_eqb_In _ _)) by (apply H; now left).
  apply IH. intros m' Hm'. apply H. now right.
Qed.

Lemma unseen_covers incoming : forall seen m,
  In m incoming ->
  In (id m) seen \/ In (id m) (List.map id (unseen seen incoming)).
Proof.
  induction incoming as [|m0 r IH]; intros seen m; [intros []|].
  cbn [unseen]. intros [->|Hin].
  - destruct (existsb _ seen) eqn:E.
    + left. now apply existsb_eqb_In.
    + right. now left.
  - destruct (existsb _ seen) eqn:E.
    + apply IH, Hin.
    + destruct (IH (seen ++ [id m0])%list m Hin) as [H|H].
      * apply in_app_or in H. destruct H as [H|[H|[]]].
        -- now left.
        -- right. left. exact H.
      * right. right. exact H.
Qed.

(** X20: merging is idempotent: merging the same incoming messages a
    second time into the result of the first merge changes nothing,
    whatever the stored and the incoming messages are. *)
Lemma merge_twice existing incoming :
  mergeStoredMessagesPreservingExisting
    (mergeStoredMessagesPreservingExisting existing incoming) incoming
  = mergeStoredMessagesPreservingExisting existing incoming.
Proof.
  destruct existing as [|e existing'].
  - rewrite merge_empty_existing.
    destruct incoming as [|m r]; [reflexivity|].
    rewrite merge_nonempty_existing by discriminate.
    unfold mergeById. rewrite unseen_all_seen; [apply app_nil_r|].
    intros m' H. now apply in_map.
  - rewrite (merge_nonempty_existing (e :: existing')) by discriminate.
    rewrite merge_nonempty_existing
      by (unfold mergeById; cbn; discriminate).
    unfold mergeById at 1. rewrite unseen_all_seen; [apply app_nil_r|].
    intros m' H. unfold mergeById. rewrite map_app. apply in_or_app.
    destruct (unseen_covers incoming (List.map id (e :: existing')) m' H);
      [now left | now right].
Qed.
End MergeFacts.

Module StoreFacts.
Import Store StoreSpec StoreScenario.

Lemma lookupFile_app_absent fileName fs d :
  lookupFile fileName fs = None ->
  lookupFile fileName (fs ++ [(fileName, d)])%list = Some d.
Proof.
  induction fs as [|[n d0] r IH]; cbn [lookupFile app]; intros H.
  - now rewrite String.eqb_refl.
  - destruct (String.eqb n fileName); [discriminate | now apply IH].
Qed.

Lemma replaceFile_absent fileName d fs :
  lookupFile fileName fs = None ->
  replaceFile fileName d fs = (fs ++ [(fileName, d)])%list.
Proof.
  induction fs as [|[n d0] r IH]; cbn [lookupFile replaceFile app]; intros H.
  - reflexivity.
  - destruct (String.eqb n fileName); [discriminate|]. now rewrite IH.
Qed.

Lemma replaceFile_last fileName d d' fs :
  lookupFile fileName fs = None ->
  replaceFile fileName d' (fs ++ [(fileName, d)])%list
  = (fs ++ [(fileName, d')])%list.
Proof.
  induction fs as [|[n d0] r IH]; cbn [lookupFile replaceFile app]; intros H.
  - now rewrite String.eqb_refl.
  - destruct (String.eqb n fileName); [discriminate|]. now rewrite IH.
Qed.

Lemma createConversationBundle_fresh P cid w :
  createConversationBundle P cid w = (Ok (freshBundle P cid (ticks w)), tick w).
Proof. reflexivity. Qed.

Lemma readJson_absent cid w :
  lookupFile (cid ++ ".json")%string (files w) = None ->
  readJson (buildConversationFilePath cid) w = (Throw ENOENT, w).
Proof.
  intros H. unfold readJson, buildConversationFilePath. cbn [fst snd].
  rewrite String.eqb_refl. cbn [negb]. now rewrite H.
Qed.

(** [ensureConversationRecord] on an id without a file creates the file
    with a fresh bundle, at the end of the directory. *)
Lemma ensureConversationRecord_absent P preferred sid w :
  sanitizeConversationId preferred = Some sid ->
  lookupFile (sid ++ ".json")%string (files w) = None ->
  ensureConversationRecord P preferred w
  = (Ok {| conversationId := sid;
           filePath := buildConversationFilePath sid;
           bundle := freshBundle P sid (ticks w) |},
     {| files := (files w ++ [((sid ++ ".json")%string,
                               BundleJson (freshBundle P sid (ticks w)))])%list;
        globalInfo := globalInfo w;
        ticks := S (ticks w) |}).
Proof.
  intros Hsan Habs. unfold ensureConversationRecord. rewrite Hsan.
  cbv zeta. unfold tryCatch, loadBundle, bind.
  rewrite (readJson_absent sid w Habs).
  rewrite createConversationBundle_fresh.
  unfold saveBundle, atomicWriteJson, ret, tick. cbn [files globalInfo ticks].
  unfold buildConversationFilePath at 1. cbn [snd].
  now rewrite (replaceFile_absent _ _ _ Habs).
Qed.

(** Below 2^53 the next number is the successor. *)
Lemma addOne_exact n : n < 2 ^ 53 -> addOne n = n + 1.
Proof.
  intros H. unfold addOne.
  destruct (Z.ltb_spec n (2 ^ 53)); [reflexivity | lia].
Qed.

(** From 2^53 on it is not: 2^53 + 1 is no double, and the sum is
    rounded to a double. *)
Example addOne_rounds :
  addOne (2 ^ 53) = 2 ^ 53
  /\ addOne (2 ^ 53 + 2) = 2 ^ 53 + 4
  /\ addOne (2 ^ 54) = 2 ^ 54.
Proof. repeat split; vm_compute; reflexivity. Qed.

(** The next id of a directory: one more than the largest number of a
    file [conversation<N>.json]. *)
Example next_conversation_ids :
  fst (getNextConversationId testPlatform threeConversations)
  = Ok "conversation4"
  /\ fst (getNextConversationId testPlatform emptyWorld) = Ok "conversation1".
Proof. repeat split; vm_compute; reflexivity. Qed.

(** C1 fails on the first snapshot of a conversation: the stored list is
    empty, [mergeStoredMessagesPreservingExisting] returns the incoming
    list as it is, and two incoming messages with the id m1 are both
    stored, also after the second snapshot.  With one message stored
    beforehand the same request stores m1 once. *)
Theorem first_snapshot_stores_duplicate_ids :
  storedIds "conversation1"
    (afterSnapshot "conversation1" twiceM1 emptyWorld)
  = Some ["m1"; "m1"]
  /\ storedIds "conversation1"
       (afterSnapshot "conversation1" twiceM1
          (afterSnapshot "conversation1" twiceM1 emptyWorld))
     = Some ["m1"; "m1"]
  /\ storedIds "conversation1"
       (afterSnapshot "conversation1" twiceM1
          (afterSnapshot "conversation1" [userText "m0" "first"] emptyWorld))
     = Some ["m0"; "m1"].
Proof. repeat split; vm_compute; reflexivity. Qed.

(** C10: [appendAssistantCompletion] with a non-blank text, on a
    conversation id whose bundle file does not exist, does not throw (no
    NotFound error): it creates a fresh bundle at that id and stores the
    assistant message in it. *)
Theorem appendAssistantCompletion_resurrects P w cid sid t :
  sanitizeConversationId (Some cid) = Some sid ->
  lookupFile (sid ++ ".json")%string (files w) = None ->
  Js.isEmpty (Js.trim t) = false ->
  appendAssistantCompletion P cid t w
  = (Ok tt,
     {| files :=
          (files w
           ++ [((sid ++ ".json")%string,
                BundleJson
                  (withConversation
                     (withMessages (freshBundle P sid (ticks w))
                        [{| id := messageIdAt P assistant (1 + ticks w);
                            role := assistant;
                            text := t;
                            created_at := toISOString P (2 + ticks w) |}])
                     (setUpdatedAt
                        (conversation (freshBundle P sid (ticks w)))
                        (toISOString P (3 + ticks w)))))])%list;
        globalInfo := globalInfo w;
        ticks := (4 + ticks w)%nat |}).
Proof.
  intros Hsan Habs Htext. unfold appendAssistantCompletion. rewrite Htext.
  unfold bind at 1.
  rewrite (ensureConversationRecord_absent P (Some cid) sid w Hsan Habs).
  cbn [bundle content messages freshBundle lastMessage List.map List.last].
  unfold bind, createMessageId, nowISO, saveBundle, atomicWriteJson, tick.
  cbn [files globalInfo ticks filePath snd buildConversationFilePath].
  rewrite (replaceFile_last _ _ _ _ Habs). reflexivity.
Qed.

Lemma appendAssistantCompletion_resurrects_witness :
  sanitizeConversationId (Some "conversation9") = Some "conversation9" /\
  lookupFile "conversation9.json" (files oneConversation) = None /\
  Js.isEmpty (Js.trim "answer") = false /\
  fst (appendAssistantCompletion testPlatform "conversation9" "answer"
         oneConversation) = Ok tt /\
  storedIds "conversation9"
    (snd (appendAssistantCompletion testPlatform "conversation9" "answer"
            oneConversation))
  = Some ["assistant-101"].
Proof.
  split; [reflexivity|]. split; [reflexivity|]. split; [reflexivity|].
  rewrite (appendAssistantCompletion_resurrects testPlatform oneConversation
             "conversation9" "conversation9" "answer");
    [split; reflexivity | reflexivity | reflexivity | reflexivity].
Defined.
End StoreFacts.

Module ListingFacts.
Import Store StoreSpec StoreView.

Lemma sameDisk_refl w : sameDisk w w.
Proof. split; reflexivity. Qed.

Lemma sameDisk_trans w1 w2 w3 :
  sameDisk w1 w2 -> sameDisk w2 w3 -> sameDisk w1 w3.
Proof. intros [H1 H2] [H3 H4]. split; congruence. Qed.

Lemma sameDisk_tick w : sameDisk w (tick w).
Proof. split; reflexivity. Qed.

Create HintDb store.
#[local] Hint Resolve sameDisk_refl sameDisk_tick : store.

(** Loading normalizes the stored messages without touching the disk;
    the messages with non-blank text survive, in order. *)
Lemma normalizeStoredMessages_ok P ms : forall w,
  exists l w',
    normalizeStoredMessages P ms w = (Ok l, w')
    /\ sameDisk w w'
    /\ List.length l = List.length (nonBlank ms).
Proof.
  induction ms as [|m r IH]; intros w; cbn [normalizeStoredMessages nonBlank List.filter].
  - exists [], w. repeat split; reflexivity.
  - destruct (Js.isEmpty (Js.trim (text m))) eqn:E; cbn [negb].
    + apply IH.
    + unfold bind.
      destruct (0 <? String.length (id m))%nat.
      * unfold ret at 1.
        destruct (IH w) as (l & w' & Hrun & Hd & Hlen).
        fold (nonBlank r). rewrite Hrun.
        eexists _, w'. split; [reflexivity|]. split; [exact Hd|].
        cbn [List.length]. now rewrite Hlen.
      * unfold createMessageId.
        destruct (IH (tick w)) as (l & w' & Hrun & Hd & Hlen).
        fold (nonBlank r). rewrite Hrun.
        eexists _, w'. split; [reflexivity|]. split.
        { eapply sameDisk_trans; [apply sameDisk_tick | exact Hd]. }
        cbn [List.length]. now rewrite Hlen.
Qed.

Lemma normalizeBundle_ok P raw cid w :
  exists ms w',
    normalizeBundle P raw cid w = (Ok (normalizedWith P raw cid ms), w')
    /\ sameDisk w w'
    /\ List.length ms = List.length (nonBlank (messages (content raw))).
Proof.
  unfold normalizeBundle. unfold bind at 1.
  unfold createConversationBundle, bind, nowISO, ret.
  destruct (normalizeStoredMessages_ok P (messages (content raw)) (tick w))
    as (l & w' & Hrun & Hd & Hlen).
  rewrite Hrun. exists l, w'. split; [reflexivity|]. split; [|exact Hlen].
  eapply sameDisk_trans; [apply sameDisk_tick | exact Hd].
Qed.

Lemma readJson_present fileName raw w :
  lookupFile fileName (files w) = Some (BundleJson raw) ->
  readJson (CONVERSATIONS_DIR, fileName) w = (Ok (ParsedBundle raw), w).
Proof.
  intros H. unfold readJson. cbn [fst snd].
  rewrite String.eqb_refl. cbn [negb]. now rewrite H.
Qed.

Lemma readJson_other fileName j w :
  lookupFile fileName (files w) = Some (OtherJson j) ->
  readJson (CONVERSATIONS_DIR, fileName) w = (Ok (ParsedOther j), w).
Proof.
  intros H. unfold readJson. cbn [fst snd].
  rewrite String.eqb_refl. cbn [negb]. now rewrite H.
Qed.

Lemma readJson_unparsable fileName w :
  lookupFile fileName (files w) = Some Unparsable ->
  readJson (CONVERSATIONS_DIR, fileName) w = (Throw SyntaxError, w).
Proof.
  intros H. unfold readJson. cbn [fst snd].
  rewrite String.eqb_refl. cbn [negb]. now rewrite H.
Qed.

Lemma readJson_missing fileName w :
  lookupFile fileName (files w) = None ->
  readJson (CONVERSATIONS_DIR, fileName) w = (Throw ENOENT, w).
Proof.
  intros H. unfold readJson. cbn [fst snd].
  rewrite String.eqb_refl. cbn [negb]. now rewrite H.
Qed.

Lemma loadBundle_present P fileName cid raw w :
  lookupFile fileName (files w) = Some (BundleJson raw) ->
  exists ms w',
    loadBundle P (CONVERSATIONS_DIR, fileName) cid w
    = (Ok (normalizedWith P raw cid ms), w')
    /\ sameDisk w w'
    /\ List.length ms = List.length (nonBlank (messages (content raw))).
Proof.
  intros H. unfold loadBundle, bind. rewrite (readJson_present _ _ _ H).
  apply normalizeBundle_ok.
Qed.

(** Loading a JSON value that the store did not write keeps the role and
    the text of every entry that has both, in order, and touches no
    file. *)
Lemma normalizeOtherMessages_ok P ms : forall w,
  exists l w',
    normalizeOtherMessages P ms w = (Ok l, w')
    /\ sameDisk w w'
    /\ List.map said l = looseSaid ms.
Proof.
  induction ms as [|e r IH]; intros w;
    cbn [normalizeOtherMessages looseSaid flat_map].
  - exists [], w. repeat split; reflexivity.
  - destruct (lm_role e) as [ro|]; [|exact (IH w)].
    destruct (lm_text e) as [t|]; [|exact (IH w)].
    destruct (Js.isEmpty (Js.trim t)); [exact (IH w)|].
    assert (Hid : exists i w1,
              match lm_id e with
              | Some i => if (0 <? String.length i)%nat then ret i
                          else createMessageId P ro
              | None => createMessageId P ro
              end w = (Ok i, w1) /\ sameDisk w w1).
    { destruct (lm_id e) as [i|]; [destruct (0 <? String.length i)%nat|];
        unfold ret, createMessageId; eexists _, _;
        (split; [reflexivity | auto with store]). }
    destruct Hid as (i & w1 & Hi & Hd1).
    assert (Hat : exists c w2,
              match lm_created_at e with
              | Some c => ret c
              | None => nowISO P
              end w1 = (Ok c, w2) /\ sameDisk w1 w2).
    { destruct (lm_created_at e) as [c|]; unfold ret, nowISO; eexists _, _;
        (split; [reflexivity | auto with store]). }
    destruct Hat as (c & w2 & Hc & Hd2).
    destruct (IH w2) as (l & w3 & Hrun & Hd3 & Hs).
    unfold bind at 1. rewrite Hi.
    unfold bind at 1. rewrite Hc.
    unfold bind at 1. fold (normalizeOtherMessages P). rewrite Hrun.
    eexists _, w3. split; [reflexivity|]. split.
    { eapply sameDisk_trans; [exact Hd1|].
      eapply sameDisk_trans; [exact Hd2 | exact Hd3]. }
    cbn [List.map app]. unfold said at 1. cbn [role text].
    fold (looseSaid r). now rewrite Hs.
Qed.

Lemma normalizeOther_ok P j cid w :
  exists b w',
    normalizeOther P j cid w = (Ok b, w')
    /\ sameDisk w w'
    /\ List.map said (messages (content b))
       = looseSaid (orElse (l_messages j) [])
    /\ (forall stated, l_updated_at j = Some stated ->
                       updated_at (conversation b) = stated).
Proof.
  unfold normalizeOther. unfold bind at 1.
  unfold createConversationBundle, bind at 1, nowISO, ret at 1.
  unfold bind at 1.
  destruct (normalizeOtherMessages_ok P (orElse (l_messages j) []) (tick w))
    as (l & w' & Hrun & Hd & Hs).
  rewrite Hrun. unfold ret. eexists _, w'. split; [reflexivity|].
  split; [eapply sameDisk_trans; [apply sameDisk_tick | exact Hd]|].
  cbn [content messages conversation updated_at].
  split; [exact Hs|]. now intros stated ->.
Qed.

Lemma normalizeOtherMessages_asLoose P ms : forall w,
  normalizeOtherMessages P (List.map asLooseMessage ms) w
  = normalizeStoredMessages P ms w.
Proof.
  induction ms as [|m r IH]; intros w; [reflexivity|].
  cbn [List.map normalizeOtherMessages normalizeStoredMessages asLooseMessage
         lm_role lm_text lm_id lm_created_at].
  destruct (Js.isEmpty (Js.trim (text m))); [apply IH|].
  unfold bind.
  destruct (0 <? String.length (id m))%nat;
    unfold ret at 1 2, createMessageId; cbv beta;
    fold (normalizeOtherMessages P); fold (normalizeStoredMessages P);
    rewrite IH; reflexivity.
Qed.

(** The two readings of a file agree: a bundle as the store writes it is
    normalized to the same bundle, with the same readings of the clock,
    whether it is read field by field, as any JSON value is, or as the
    typed bundle. *)
Lemma normalizeOther_asLoose P b cid w :
  normalizeOther P (asLoose b) cid w = normalizeBundle P b cid w.
Proof.
  unfold normalizeOther, normalizeBundle, bind.
  destruct (createConversationBundle P cid w) as [[fallback|e] w0];
    [|reflexivity].
  cbn [asLoose l_messages orElse]. rewrite normalizeOtherMessages_asLoose.
  destruct (normalizeStoredMessages P (messages (content b)) w0)
    as [[l|e] w1]; [|reflexivity].
  unfold ret.
  destruct b as [[fn fv] [cs le] [ci nm nh ca ua uid unm] [k mn] [ms fp tl nt]].
  cbn. destruct (sanitizeUserId uid), (sanitizeUserName unm); reflexivity.
Qed.

(** Loading a file that holds JSON returns a bundle and touches no
    file. *)
Lemma loadBundle_json P fileName cid d w :
  lookupFile fileName (files w) = Some d ->
  holdsJson d = true ->
  exists b w',
    loadBundle P (CONVERSATIONS_DIR, fileName) cid w = (Ok b, w')
    /\ sameDisk w w'
    /\ match d with
       | BundleJson raw =>
           updated_at (conversation b) = updated_at (conversation raw)
           /\ conv_created_at (conversation b)
              = conv_created_at (conversation raw)
           /\ List.length (messages (content b))
              = List.length (nonBlank (messages (content raw)))
       | OtherJson j =>
           forall stated, l_updated_at j = Some stated ->
                          updated_at (conversation b) = stated
       | Unparsable => True
       end.
Proof.
  intros Hfile Hjson. destruct d as [|raw|j]; [discriminate| |].
  - destruct (loadBundle_present P fileName cid raw w Hfile)
      as (ms & w' & Hrun & Hd & Hlen).
    eexists _, w'. split; [exact Hrun|]. split; [exact Hd|].
    cbn [normalizedWith conversation content messages updated_at
           conv_created_at].
    repeat split. exact Hlen.
  - unfold loadBundle, bind. rewrite (readJson_other _ _ _ Hfile).
    destruct (normalizeOther_ok P j cid w) as (b & w' & Hrun & Hd & _ & Hu).
    exists b, w'. split; [exact Hrun|]. split; [exact Hd | exact Hu].
Qed.

(** A file that does not hold JSON, or that is not there, cannot be
    loaded; nothing changes. *)
Lemma loadBundle_fails P fileName cid w :
  match lookupFile fileName (files w) with
  | Some d => holdsJson d = false
  | None => True
  end ->
  exists e, loadBundle P (CONVERSATIONS_DIR, fileName) cid w = (Throw e, w).
Proof.
  unfold loadBundle, bind.
  destruct (lookupFile fileName (files w)) as [[|raw|j]|] eqn:El;
    try discriminate; intros _.
  - rewrite (readJson_unparsable _ _ El). now exists SyntaxError.
  - rewrite (readJson_missing _ _ El). now exists ENOENT.
Qed.

Lemma In_dropNulls {A} (l : list (option A)) (a : A) :
  In a (dropNulls l) <-> In (Some a) l.
Proof.
  unfold dropNulls. rewrite in_flat_map. split.
  - intros ([x|] & Hin & Hx); cbn in Hx; [|contradiction].
    destruct Hx as [->|[]]. exact Hin.
  - intros H. exists (Some a). split; [exact H | now left].
Qed.

Lemma map_dropNulls {A B} (f : A -> B) (l : list (option A)) :
  List.map f (dropNulls l) = dropNulls (List.map (option_map f) l).
Proof.
  unfold dropNulls. induction l as [|[a|] r IH];
    cbn [flat_map List.map option_map app]; [reflexivity| |exact IH].
  now rewrite IH.
Qed.


(** One step of the listing loop: a summary under the id [listedAs]
    gives, for a file that holds JSON, and nothing for any other; no
    file content makes it throw. *)
Lemma summarize_spec P fileName w :
  exists o w',
    summarize P fileName w = (Ok o, w')
    /\ sameDisk w w'
    /\ option_map sum_conversationId o = listedAs (files w) fileName
    /\ (forall c, o = Some c -> summaryOf (files w) c).
Proof.
  unfold summarize, listedAs.
  destruct (Js.stripSuffix ".json" fileName) as [cid|] eqn:Es;
    [|exists None, w; repeat split; auto with store; discriminate].
  destruct (Js.isEmpty cid);
    [exists None, w; repeat split; auto with store; discriminate|].
  apply JsFacts.stripSuffix_Some in Es. subst fileName.
  unfold tryCatch.
  assert (Hskip :
    match lookupFile (cid ++ ".json")%string (files w) with
    | Some d => holdsJson d = false
    | None => True
    end ->
    exists o w',
      match
        (do b <- loadBundle P (CONVERSATIONS_DIR, (cid ++ ".json")%string) cid;
         ret (Some
           {| sum_conversationId := cid;
              title := normalizeConversationTitle P (name (conversation b)) cid;
              updatedAt :=
                if negb (Js.isEmpty (updated_at (conversation b)))
                then updated_at (conversation b)
                else conv_created_at (conversation b);
              messageCount := List.length (messages (content b)) |})) w
      with
      | (Ok a, w') => (Ok a, w')
      | (Throw e, w') => ret None w'
      end = (Ok o, w')
      /\ sameDisk w w'
      /\ option_map sum_conversationId o = None
      /\ (forall c, o = Some c -> summaryOf (files w) c)).
  { intros Hno. destruct (loadBundle_fails P _ cid w Hno) as (e & Hrun).
    unfold bind. rewrite Hrun. exists None, w.
    repeat split; auto with store; discriminate. }
  destruct (lookupFile (cid ++ ".json")%string (files w)) as [d|] eqn:El;
    [|now apply Hskip].
  destruct (holdsJson d) eqn:Eh; [|now apply Hskip]. clear Hskip.
  destruct (loadBundle_json P _ cid d w El Eh) as (b & w' & Hrun & Hd & Hfacts).
  unfold bind at 1. rewrite Hrun. unfold ret.
  eexists (Some _), w'. split; [reflexivity|]. split; [exact Hd|].
  split; [reflexivity|].
  intros c [= <-]. unfold summaryOf.
  cbn [sum_conversationId updatedAt messageCount]. rewrite El.
  destruct d as [|raw|j]; [discriminate| |].
  - destruct Hfacts as (Hu & Hc & Hl). rewrite Hu, Hc, Hl. unfold dateOf.
    destruct (Js.isEmpty (updated_at (conversation raw))); split; reflexivity.
  - intros stated Hstated Hne. rewrite (Hfacts stated Hstated), Hne.
    reflexivity.
Qed.

Lemma mapM_summarize_spec P names : forall w,
  exists found w',
    mapM (summarize P) names w = (Ok found, w')
    /\ sameDisk w w'
    /\ List.map (option_map sum_conversationId) found
       = List.map (listedAs (files w)) names
    /\ (forall c, In (Some c) found -> summaryOf (files w) c).
Proof.
  induction names as [|n r IH]; intros w; cbn [mapM List.map].
  - exists [], w. repeat split; auto with store. intros c [].
  - unfold bind at 1.
    destruct (summarize_spec P n w) as (o & w1 & Hrun & Hd1 & Ho & Hs1).
    rewrite Hrun. unfold bind at 1.
    destruct (IH w1) as (found & w2 & Hrun2 & Hd2 & Hf & Hs2). rewrite Hrun2.
    exists (o :: found), w2. split; [reflexivity|].
    split; [eapply sameDisk_trans; eassumption|].
    destruct Hd1 as [Hfiles _]. rewrite Hfiles in Hf, Hs2.
    split.
    + cbn [List.map]. now rewrite Ho, Hf.
    + intros c [->|Hc]; [now apply Hs1 | now apply Hs2].
Qed.

(** *** Sorting by recency *)

Lemma insertByRecency_In P x l y :
  In y (insertByRecency P x l) <-> y = x \/ In y l.
Proof.
  induction l as [|z r IH]; cbn [insertByRecency].
  - cbn. intuition.
  - destruct (_ <=? 0).
    + cbn. intuition.
    + cbn [In]. rewrite IH. intuition.
Qed.

Lemma sortByRecency_In P l y : In y (sortByRecency P l) <-> In y l.
Proof.
  induction l as [|x r IH]; cbn [sortByRecency]; [reflexivity|].
  rewrite insertByRecency_In, IH. cbn. intuition.
Qed.

Lemma length_insertByRecency P x l :
  List.length (insertByRecency P x l) = S (List.length l).
Proof.
  induction l as [|z r IH]; cbn [insertByRecency]; [reflexivity|].
  destruct (_ <=? 0); cbn [List.length]; [reflexivity | now rewrite IH].
Qed.

Lemma length_sortByRecency P l :
  List.length (sortByRecency P l) = List.length l.
Proof.
  induction l as [|x r IH]; cbn [sortByRecency]; [reflexivity|].
  now rewrite length_insertByRecency, IH.
Qed.

Lemma insertByRecency_Permutation P x l :
  Permutation (insertByRecency P x l) (x :: l).
Proof.
  induction l as [|z r IH]; cbn [insertByRecency]; [apply Permutation_refl|].
  destruct (_ <=? 0); [apply Permutation_refl|].
  eapply perm_trans; [apply perm_skip, IH | apply perm_swap].
Qed.

Lemma sortByRecency_Permutation P l : Permutation (sortByRecency P l) l.
Proof.
  induction l as [|x r IH]; cbn [sortByRecency]; [apply perm_nil|].
  eapply perm_trans; [apply insertByRecency_Permutation | apply perm_skip, IH].
Qed.

(** The time stamp the code sorts by is the instant the stamp denotes. *)
Lemma toTimestamp_timeOf P stamp : toTimestamp P stamp = timeOf P stamp.
Proof. reflexivity. Qed.

Lemma insertByRecency_latestFirst P x l :
  latestFirst P l -> latestFirst P (insertByRecency P x l).
Proof.
  unfold latestFirst. induction l as [|z r IH]; intros Hs; cbn [insertByRecency].
  - repeat constructor.
  - apply StronglySorted_inv in Hs. destruct Hs as [Hr Hz].
    destruct (Z.leb_spec
                (toTimestamp P (updatedAt z) - toTimestamp P (updatedAt x)) 0)
      as [Hle|Hgt].
    + constructor; [constructor; assumption|].
      constructor; [unfold notOlder, timeOf; unfold toTimestamp in Hle; lia|].
      rewrite List.Forall_forall in Hz |- *. intros c Hc.
      specialize (Hz c Hc).
      unfold notOlder, timeOf in *. unfold toTimestamp in Hle. lia.
    + constructor; [apply IH, Hr|].
      rewrite List.Forall_forall in Hz |- *. intros c Hc.
      apply insertByRecency_In in Hc.
      destruct Hc as [->|Hc]; [|apply Hz, Hc].
      unfold notOlder, timeOf. unfold toTimestamp in Hgt. lia.
Qed.

Lemma sortByRecency_latestFirst P l : latestFirst P (sortByRecency P l).
Proof.
  induction l as [|x r IH]; cbn [sortByRecency].
  - constructor.
  - apply insertByRecency_latestFirst, IH.
Qed.

(** The first conversation of a list that is latest first is the most
    recent one. *)
Lemma latestFirst_head P first others :
  latestFirst P (first :: others) -> List.Forall (notOlder P first) others.
Proof. intros Hs. apply StronglySorted_inv in Hs. exact (proj2 Hs). Qed.

(** [listConversationsForUi] returns one summary for each conversation
    of the directory, latest first, and touches no file. *)
Lemma listConversationsForUi_spec P w :
  exists l w',
    listConversationsForUi P w = (Ok l, w')
    /\ sameDisk w w'
    /\ latestFirst P l
    /\ Permutation (List.map sum_conversationId l) (listedIds P (files w))
    /\ List.Forall (summaryOf (files w)) l.
Proof.
  unfold listConversationsForUi, bind, readdir.
  destruct (mapM_summarize_spec P (List.map fst (files w)) w)
    as (found & w' & Hrun & Hd & Hids & Hsum).
  rewrite Hrun. exists (sortByRecency P (dropNulls found)), w'.
  split; [reflexivity|]. split; [exact Hd|].
  split; [apply sortByRecency_latestFirst|]. split.
  - unfold listedIds. rewrite <- Hids, <- map_dropNulls.
    apply Permutation_map, sortByRecency_Permutation.
  - apply List.Forall_forall. intros c Hc.
    apply sortByRecency_In, In_dropNulls in Hc. now apply Hsum.
Qed.

(** *** File names and conversation ids *)

Lemma listedAs_Some fs fileName cid :
  listedAs fs fileName = Some cid ->
  fileName = (cid ++ ".json")%string
  /\ cid <> EmptyString
  /\ exists d, lookupFile fileName fs = Some d /\ holdsJson d = true.
Proof.
  unfold listedAs.
  destruct (Js.stripSuffix ".json" fileName) as [c|] eqn:Es; [|discriminate].
  destruct (Js.isEmpty c) eqn:Ee; [discriminate|].
  destruct (lookupFile fileName fs) as [d|]; [|discriminate].
  destruct (holdsJson d) eqn:Eh; [|discriminate].
  intros [= <-]. split; [now apply JsFacts.stripSuffix_Some|].
  split; [intros ->; discriminate Ee | now exists d].
Qed.

Lemma In_listedIds P fs cid :
  In cid (listedIds P fs) <->
  exists fileName, In fileName (List.map fst fs)
                   /\ listedAs fs fileName = Some cid.
Proof.
  unfold listedIds. rewrite In_dropNulls, in_map_iff. split.
  - intros (n & Hn & Hin). now exists n.
  - intros (n & Hin & Hn). now exists n.
Qed.

(** A listed conversation has its file in the directory, and the file
    holds JSON. *)
Lemma listed_has_file P fs cid :
  In cid (listedIds P fs) ->
  exists d, lookupFile (cid ++ ".json")%string fs = Some d
            /\ holdsJson d = true.
Proof.
  intros H. apply In_listedIds in H. destruct H as (n & _ & Hn).
  apply listedAs_Some in Hn. destruct Hn as (-> & _ & Hd). exact Hd.
Qed.

(** *** Removing one file *)

Lemma lookupFile_removeFile_ne target fileName fs :
  fileName <> target ->
  lookupFile fileName (removeFile target fs) = lookupFile fileName fs.
Proof.
  intros Hne. induction fs as [|[n d] r IH]; [reflexivity|].
  cbn [removeFile List.filter fst lookupFile].
  destruct (String.eqb n target) eqn:Et; cbn [negb].
  - apply String.eqb_eq in Et. subst n.
    destruct (String.eqb target fileName) eqn:Ef.
    + apply String.eqb_eq in Ef. congruence.
    + exact IH.
  - cbn [lookupFile]. destruct (String.eqb n fileName); [reflexivity | exact IH].
Qed.

Lemma lookupFile_removeFile_eq target fs :
  lookupFile target (removeFile target fs) = None.
Proof.
  induction fs as [|[n d] r IH]; [reflexivity|].
  cbn [removeFile List.filter fst].
  destruct (String.eqb n target) eqn:Et; cbn [negb]; [exact IH|].
  cbn [lookupFile]. rewrite Et. exact IH.
Qed.

Lemma In_names_removeFile target fs fileName :
  In fileName (List.map fst (removeFile target fs))
  <-> In fileName (List.map fst fs) /\ fileName <> target.
Proof.
  unfold removeFile. rewrite !in_map_iff. split.
  - intros ([n d] & <- & Hin). apply filter_In in Hin. destruct Hin as [Hin Hne].
    cbn [fst] in *. split; [now exists (n, d)|].
    intros ->. rewrite String.eqb_refl in Hne. discriminate.
  - intros (([n d] & <- & Hin) & Hne). exists (n, d). split; [reflexivity|].
    apply filter_In. split; [exact Hin|]. cbn [fst] in *.
    destruct (String.eqb n target) eqn:E; [|reflexivity].
    apply String.eqb_eq in E. contradiction.
Qed.

Lemma listedAs_removeFile target fs fileName :
  fileName <> target ->
  listedAs (removeFile target fs) fileName = listedAs fs fileName.
Proof.
  intros Hne. unfold listedAs.
  now rewrite (lookupFile_removeFile_ne _ _ _ Hne).
Qed.

(** After the file of [cid] is removed, the conversations of the
    directory are the others, and only they. *)
Lemma remaining_listed P fs cid c :
  In c (listedIds P (removeFile (cid ++ ".json")%string fs))
  <-> In c (listedIds P fs) /\ c <> cid.
Proof.
  rewrite !In_listedIds. split.
  - intros (n & Hin & Hn). apply In_names_removeFile in Hin.
    destruct Hin as [Hin Hne].
    rewrite (listedAs_removeFile _ _ _ Hne) in Hn.
    split; [now exists n|].
    apply listedAs_Some in Hn. destruct Hn as (-> & _).
    intros E. apply Hne. now rewrite E.
  - intros ((n & Hin & Hn) & Hne).
    assert (Hn' : n <> (cid ++ ".json")%string).
    { pose proof (listedAs_Some _ _ _ Hn) as (-> & _).
      intros E. apply Hne. eapply JsFacts.append_inj_l, E. }
    exists n. split; [now apply In_names_removeFile|].
    now rewrite (listedAs_removeFile _ _ _ Hn').
Qed.

Lemma ids_of_names_NoDup fs (names : list string) :
  List.NoDup names ->
  List.NoDup (dropNulls (List.map (listedAs fs) names)).
Proof.
  induction names as [|n r IH]; intros Hnd; [constructor|].
  apply List.NoDup_cons_iff in Hnd. destruct Hnd as [Hn Hr].
  cbn [List.map dropNulls flat_map].
  destruct (listedAs fs n) as [c|] eqn:Ec; cbn [app];
    [|apply IH, Hr].
  fold (dropNulls (List.map (listedAs fs) r)).
  constructor; [|apply IH, Hr].
  intros Hc. apply In_dropNulls, in_map_iff in Hc.
  destruct Hc as (n' & Hn' & Hin).
  apply listedAs_Some in Ec. apply listedAs_Some in Hn'.
  destruct Ec as (-> & _). destruct Hn' as (-> & _).
  now apply Hn.
Qed.

(** Distinct file names give distinct conversation ids. *)
Lemma listedIds_NoDup P fs :
  List.NoDup (List.map fst fs) -> List.NoDup (listedIds P fs).
Proof. apply ids_of_names_NoDup. Qed.

Lemma two_distinct_other (l : list string) cid :
  (2 <= List.length l)%nat ->
  List.NoDup l ->
  exists c, In c l /\ c <> cid.
Proof.
  destruct l as [|a [|b r]]; cbn [List.length]; try lia. intros _ Hnd.
  apply List.NoDup_cons_iff in Hnd.
  destruct Hnd as [Hab _].
  destruct (String.eqb_spec a cid) as [Ea|Ea].
  - exists b. split; [right; now left|]. intros Eb. apply Hab.
    left. congruence.
  - exists a. split; [now left | exact Ea].
Qed.

Lemma getActiveConversationIdFromGlobal_ok P w :
  getActiveConversationIdFromGlobal P w
  = (Ok (activeIdOf P (globalInfo w)), w).
Proof.
  unfold getActiveConversationIdFromGlobal, bind, loadGlobalInfo, activeIdOf.
  destruct (globalInfo w) as [g|].
  - destruct (if negb (pathIsEmpty (activeJsonFilePath g)) then _ else None);
      [reflexivity|].
    destruct (activeChatIndex g); reflexivity.
  - reflexivity.
Qed.

(** The write of the global info at the end of a load or a snapshot:
    the call goes on whether the write goes through or not, and a write
    that fails leaves the global info as it was. *)
Lemma updateGlobal_caught P record w :
  exists w',
    tryCatch (updateGlobalActiveConversation P record) (fun _ => ret tt) w
    = (Ok tt, w')
    /\ files w' = files w
    /\ ticks w' = ticks w
    /\ (globalWriteFails P (ticks w) = false ->
        exists g, globalInfo w' = Some g
                  /\ activeJsonFilePath g = filePath record)
    /\ (globalWriteFails P (ticks w) = true -> globalInfo w' = globalInfo w).
Proof.
  unfold tryCatch, updateGlobalActiveConversation, bind, loadGlobalInfo,
    writeGlobalInfo, ret.
  destruct (globalWriteFails P (ticks w)).
  - exists w. repeat split; try reflexivity. discriminate.
  - eexists. split; [reflexivity|]. cbn [files ticks globalInfo].
    repeat split; try discriminate.
    intros _. eexists. split; reflexivity.
Qed.

(** [ensureConversationRecord] on an id whose file holds JSON loads it
    and creates nothing. *)
Lemma ensureConversationRecord_present P preferred sid d w :
  sanitizeConversationId preferred = Some sid ->
  lookupFile (sid ++ ".json")%string (files w) = Some d ->
  holdsJson d = true ->
  exists b w',
    ensureConversationRecord P preferred w
    = (Ok {| conversationId := sid;
             filePath := buildConversationFilePath sid;
             bundle := b |}, w')
    /\ sameDisk w w'.
Proof.
  intros Hsan Hfile Hjson. unfold ensureConversationRecord. rewrite Hsan.
  cbv zeta. unfold tryCatch, bind.
  destruct (loadBundle_json P (sid ++ ".json")%string sid d w Hfile Hjson)
    as (b & w' & Hrun & Hd & _).
  unfold buildConversationFilePath. rewrite Hrun.
  eexists _, w'. split; [reflexivity | exact Hd].
Qed.

Lemma loadConversationForUi_present P preferred sid d w :
  sanitizeConversationId preferred = Some sid ->
  lookupFile (sid ++ ".json")%string (files w) = Some d ->
  holdsJson d = true ->
  exists r w',
    loadConversationForUi P preferred w = (Ok r, w')
    /\ uc_conversationId r = sid
    /\ files w' = files w
    /\ (globalWriteFails P (ticks w') = false ->
        exists g, globalInfo w' = Some g
                  /\ activeJsonFilePath g = buildConversationFilePath sid)
    /\ (globalWriteFails P (ticks w') = true -> globalInfo w' = globalInfo w).
Proof.
  intros Hsan Hfile Hjson. unfold loadConversationForUi. unfold bind at 1.
  destruct (ensureConversationRecord_present P preferred sid d w Hsan Hfile
              Hjson) as (b & w1 & Hrun & Hf & Hg).
  rewrite Hrun. unfold bind at 1.
  destruct (updateGlobal_caught P
              {| conversationId := sid;
                 filePath := buildConversationFilePath sid;
                 bundle := b |} w1) as (w2 & Hup & Hf2 & Ht2 & Hok & Hfail).
  rewrite Hup. unfold ret. eexists _, w2. split; [reflexivity|].
  cbn [uc_conversationId conversationId]. rewrite Ht2.
  split; [reflexivity|]. split; [congruence|].
  split; [exact Hok|]. intros H. rewrite (Hfail H). exact Hg.
Qed.

Lemma existsb_id (l : list ConversationSummary) cid :
  existsb (fun c => String.eqb (sum_conversationId c) cid) l = true
  <-> In cid (List.map sum_conversationId l).
Proof.
  rewrite existsb_exists, in_map_iff. split.
  - intros (c & Hc & He). apply String.eqb_eq in He. now exists c.
  - intros (c & He & Hc). exists c. split; [exact Hc|].
    now apply String.eqb_eq.
Qed.

Lemma usableb_true deleted remaining candidate :
  usableb deleted remaining candidate = true ->
  exists c, usable deleted remaining candidate c.
Proof.
  destruct candidate as [c|]; [|discriminate]. cbn [usableb].
  rewrite andb_true_iff, negb_true_iff, String.eqb_neq.
  intros [Hne Hin]. exists c. repeat split; [exact Hne|].
  apply existsb_exists in Hin. destruct Hin as (x & Hx & He).
  apply String.eqb_eq in He. now subst.
Qed.

Lemma usableb_false deleted remaining candidate :
  usableb deleted remaining candidate = false ->
  forall c, ~ usable deleted remaining candidate c.
Proof.
  intros Hb c (-> & Hne & Hin). cbn [usableb] in Hb.
  apply andb_false_iff in Hb. destruct Hb as [Hb|Hb].
  - apply negb_false_iff, String.eqb_eq in Hb. contradiction.
  - assert (existsb (String.eqb c) (List.map sum_conversationId remaining)
            = true); [|congruence].
    apply existsb_exists. exists c. split; [exact Hin | apply String.eqb_refl].
Qed.
End ListingFacts.

Module DeleteFacts.
Import Store StoreSpec StoreScenario ListingFacts.

(** C7, with the condition it needs: [deleteConversationForUi] on a
    listed conversation, in a directory whose conversation files are
    named by sanitized ids (as every file is that the store writes).
    When the conversation is the only one, the call throws the
    LastConversation error and the files are as before.  Otherwise the
    bundle file is removed and the conversation returned is one of the
    remaining ones, chosen by the preference order: the caller's
    preferred id when it is still listed and is not the deleted id, else
    the global active id under the same condition, else the first of the
    remaining conversations, latest first.  It is recorded as the active
    one if the write of the global info goes through; if that write
    fails the call returns all the same and the global info is as
    before. *)
Theorem deleteConversationForUi_spec P w target sid preferred :
  sanitizeConversationId target = Some sid ->
  List.NoDup (List.map fst (files w)) ->
  List.Forall (fun c => sanitizeConversationId (Some c) = Some c)
    (listedIds P (files w)) ->
  In sid (listedIds P (files w)) ->
  (listedIds P (files w) = [sid] ->
   exists w',
     deleteConversationForUi P target preferred w
     = (Throw LastConversation, w')
     /\ files w' = files w)
  /\
  (listedIds P (files w) <> [sid] ->
   exists r w' remaining,
     deleteConversationForUi P target preferred w = (Ok r, w')
     /\ files w' = removeFile (sid ++ ".json")%string (files w)
     /\ lookupFile (sid ++ ".json")%string (files w') = None
     /\ Permutation (List.map sum_conversationId remaining)
          (listedIds P (removeFile (sid ++ ".json")%string (files w)))
     /\ List.Forall
          (summaryOf (removeFile (sid ++ ".json")%string (files w)))
          remaining
     /\ latestFirst P remaining
     /\ chooses P sid remaining
          (sanitizeConversationId preferred)
          (activeIdOf P (globalInfo w))
          (uc_conversationId r)
     /\ In (uc_conversationId r)
          (listedIds P (removeFile (sid ++ ".json")%string (files w)))
     /\ (globalWriteFails P (ticks w') = false ->
         exists g,
           globalInfo w' = Some g
           /\ activeJsonFilePath g
              = buildConversationFilePath (uc_conversationId r))
     /\ (globalWriteFails P (ticks w') = true ->
         globalInfo w' = globalInfo w)).
Proof.
  intros Hsan Hnd Hids Hin.
  destruct (listConversationsForUi_spec P w)
    as (l1 & w1 & Hrun1 & [Hf1 Hg1] & _ & Hperm1 & _).
  assert (Hin1 : In sid (List.map sum_conversationId l1)).
  { eapply Permutation_in; [apply Permutation_sym, Hperm1 | exact Hin]. }
  assert (Hlen1 : List.length l1 = List.length (listedIds P (files w))).
  { rewrite <- (length_map sum_conversationId l1).
    now apply Permutation_length. }
  split; intros Hcase;
    unfold deleteConversationForUi; rewrite Hsan; unfold bind at 1;
    rewrite Hrun1;
    rewrite (proj2 (existsb_id l1 sid) Hin1); cbn [negb].
  - exists w1. rewrite Hlen1, Hcase. cbn [List.length Nat.leb].
    split; [reflexivity | exact Hf1].
  - assert (Hlen : (2 <= List.length (listedIds P (files w)))%nat).
    { destruct (listedIds P (files w)) as [|a [|b r]];
        cbn [List.length] in *; try lia.
      - contradiction.
      - destruct Hin as [E|[]]. congruence. }
    destruct (Nat.leb_spec (List.length l1) 1) as [H1|_]; [lia|].
    (* unlink *)
    destruct (listed_has_file P (files w) sid Hin) as (d & Hd & _).
    unfold bind at 1. unfold unlink at 1.
    unfold buildConversationFilePath at 1 2. cbv beta. cbn [snd].
    rewrite Hf1, Hd.
    fold (removeFile (sid ++ ".json")%string (files w)).
    set (fs' := removeFile (sid ++ ".json")%string (files w)).
    set (w2 := {| files := fs'; globalInfo := globalInfo w1;
                  ticks := ticks w1 |}).
    (* second listing *)
    destruct (listConversationsForUi_spec P w2)
      as (l3 & w3 & Hrun3 & [Hf3 Hg3] & Hsorted & Hperm3 & Hsum3).
    unfold bind at 1. cbv beta. rewrite Hrun3.
    subst w2. cbn [files globalInfo] in Hrun3, Hf3, Hg3, Hperm3, Hsum3 |- *.
    unfold bind at 1. rewrite getActiveConversationIdFromGlobal_ok.
    rewrite Hg3, Hg1.
    cbv zeta.
    fold (usableb sid l3 (sanitizeConversationId preferred)).
    fold (usableb sid l3 (activeIdOf P (globalInfo w))).
    (* the remaining conversations are not empty *)
    assert (Hrem : exists first others, l3 = first :: others).
    { destruct (two_distinct_other (listedIds P (files w)) sid Hlen
                  (listedIds_NoDup P (files w) Hnd)) as (c & Hc & Hne).
      assert (Hc' : In c (List.map sum_conversationId l3)).
      { eapply Permutation_in; [apply Permutation_sym, Hperm3|].
        apply remaining_listed. now split. }
      destruct l3 as [|first others]; [destruct Hc'|].
      now exists first, others. }
    (* loading a remaining conversation *)
    assert (Hload : forall candidate next,
               candidate = Some next ->
               In next (List.map sum_conversationId l3) ->
               chooses P sid l3 (sanitizeConversationId preferred)
                 (activeIdOf P (globalInfo w)) next ->
               exists r w' remaining,
                 loadConversationForUi P candidate w3 = (Ok r, w')
                 /\ files w' = fs'
                 /\ lookupFile (sid ++ ".json")%string (files w') = None
                 /\ Permutation (List.map sum_conversationId remaining)
                      (listedIds P fs')
                 /\ List.Forall (summaryOf fs') remaining
                 /\ latestFirst P remaining
                 /\ chooses P sid remaining
                      (sanitizeConversationId preferred)
                      (activeIdOf P (globalInfo w))
                      (uc_conversationId r)
                 /\ In (uc_conversationId r) (listedIds P fs')
                 /\ (globalWriteFails P (ticks w') = false ->
                     exists g,
                       globalInfo w' = Some g
                       /\ activeJsonFilePath g
                          = buildConversationFilePath (uc_conversationId r))
                 /\ (globalWriteFails P (ticks w') = true ->
                     globalInfo w' = globalInfo w)).
    { intros candidate next -> Hnext Hchoice.
      assert (Hl : In next (listedIds P fs')).
      { eapply Permutation_in; eassumption. }
      destruct (listed_has_file P fs' next Hl) as (dn & Hdn & Hjn).
      destruct (proj1 (remaining_listed P (files w) sid next) Hl) as [Hold _].
      rewrite List.Forall_forall in Hids. specialize (Hids next Hold).
      rewrite <- Hf3 in Hdn.
      destruct (loadConversationForUi_present P (Some next) next dn w3
                  Hids Hdn Hjn) as (r & w' & Hr & Hid & Hfw & Hok & Hfail).
      exists r, w', l3. rewrite Hid.
      split; [exact Hr|]. split; [congruence|].
      split; [rewrite Hfw, Hf3; apply lookupFile_removeFile_eq|].
      split; [exact Hperm3|]. split; [exact Hsum3|]. split; [exact Hsorted|].
      split; [exact Hchoice|]. split; [exact Hl|].
      split; [exact Hok|]. intros H. rewrite (Hfail H). congruence. }
    destruct (usableb sid l3 (sanitizeConversationId preferred)) eqn:Epref.
    + destruct (usableb_true _ _ _ Epref) as (p & Hp).
      pose proof Hp as (Hpe & Hpne & Hpin).
      apply (Hload _ p Hpe Hpin). now apply choose_preferred.
    + pose proof (usableb_false _ _ _ Epref) as Hnopref.
      destruct (usableb sid l3 (activeIdOf P (globalInfo w))) eqn:Eglob.
      * destruct (usableb_true _ _ _ Eglob) as (q & Hq).
        pose proof Hq as (Hqe & Hqne & Hqin).
        apply (Hload _ q Hqe Hqin). now apply choose_global.
      * pose proof (usableb_false _ _ _ Eglob) as Hnoglob.
        destruct Hrem as (first & others & Hlist).
        apply (Hload _ (sum_conversationId first)).
        -- now rewrite Hlist.
        -- rewrite Hlist. now left.
        -- apply choose_latest with (others := others); try assumption.
           apply latestFirst_head. now rewrite <- Hlist.
Qed.

Lemma deleteConversationForUi_spec_witness :
  sanitizeConversationId (Some "conversation2") = Some "conversation2"
  /\ List.NoDup (List.map fst (files threeConversations))
  /\ List.Forall (fun c => sanitizeConversationId (Some c) = Some c)
       (listedIds testPlatform (files threeConversations))
  /\ In "conversation2" (listedIds testPlatform (files threeConversations))
  /\ listedIds testPlatform (files threeConversations) <> ["conversation2"]
  /\ exists r w' remaining,
       deleteConversationForUi testPlatform (Some "conversation2") None
         threeConversations = (Ok r, w')
       /\ files w'
          = removeFile "conversation2.json" (files threeConversations)
       /\ lookupFile "conversation2.json" (files w') = None
       /\ Permutation (List.map sum_conversationId remaining)
            (listedIds testPlatform
               (removeFile "conversation2.json" (files threeConversations)))
       /\ List.Forall
            (summaryOf
               (removeFile "conversation2.json" (files threeConversations)))
            remaining
       /\ latestFirst testPlatform remaining
       /\ chooses testPlatform "conversation2" remaining
            (sanitizeConversationId None)
            (activeIdOf testPlatform (globalInfo threeConversations))
            (uc_conversationId r)
       /\ In (uc_conversationId r)
            (listedIds testPlatform
               (removeFile "conversation2.json" (files threeConversations)))
       /\ (globalWriteFails testPlatform (ticks w') = false ->
           exists g,
             globalInfo w' = Some g
             /\ activeJsonFilePath g
                = buildConversationFilePath (uc_conversationId r))
       /\ (globalWriteFails testPlatform (ticks w') = true ->
           globalInfo w' = globalInfo threeConversations).
Proof.
  assert (H1 : sanitizeConversationId (Some "conversation2")
               = Some "conversation2") by reflexivity.
  assert (H2 : List.NoDup (List.map fst (files threeConversations))).
  { cbn. repeat constructor; cbn; intuition discriminate. }
  assert (H3 : List.Forall
                 (fun c => sanitizeConversationId (Some c) = Some c)
                 (listedIds testPlatform (files threeConversations))).
  { vm_compute. repeat constructor. }
  assert (H4 : In "conversation2"
                 (listedIds testPlatform (files threeConversations))).
  { vm_compute. right. left. reflexivity. }
  assert (H5 : listedIds testPlatform (files threeConversations)
               <> ["conversation2"]).
  { vm_compute. discriminate. }
  repeat (split; [assumption|]).
  exact (proj2 (deleteConversationForUi_spec testPlatform threeConversations
                  (Some "conversation2") "conversation2" None H1 H2 H3 H4)
           H5).
Defined.

(** The claim as it is worded, for every directory, fails.  Next to
    [conversation1.json] the directory holds a file [my chat.json] that
    the store did not name.  Deleting conversation1 leaves "my chat" as
    the one remaining conversation, and the code picks it; but
    [loadConversationForUi] sanitizes the id it is given, finds no file
    [mychat.json], and creates one: the conversation returned is a new
    one, "mychat", which is none of the remaining conversations, so no
    step of the preference order gives it. *)
Lemma deleteConversationForUi_spec_counterexample :
  let fs := removeFile "conversation1.json" (files foreignName) in
  sanitizeConversationId (Some "conversation1") = Some "conversation1"
  /\ List.NoDup (List.map fst (files foreignName))
  /\ listedIds testPlatform (files foreignName) = ["conversation1"; "my chat"]
  /\ sanitizeConversationId (Some "my chat") = Some "mychat"
  /\ listedIds testPlatform fs = ["my chat"]
  /\ exists r w',
       deleteConversationForUi testPlatform (Some "conversation1") None
         foreignName = (Ok r, w')
       /\ uc_conversationId r = "mychat"
       /\ List.map fst (files w') = ["my chat.json"; "mychat.json"]
       /\ ~ In (uc_conversationId r) (listedIds testPlatform fs)
       /\ forall remaining,
            Permutation (List.map sum_conversationId remaining)
              (listedIds testPlatform fs) ->
            ~ chooses testPlatform "conversation1" remaining None None
                (uc_conversationId r).
Proof.
  cbv zeta. split; [reflexivity|].
  split; [cbn; repeat constructor; cbn; intuition discriminate|].
  split; [vm_compute; reflexivity|].
  split; [vm_compute; reflexivity|].
  split; [vm_compute; reflexivity|].
  destruct (deleteConversationForUi testPlatform (Some "conversation1") None
              foreignName) as [res w'] eqn:Erun.
  vm_compute in Erun. injection Erun as <- <-.
  eexists _, _. split; [reflexivity|].
  cbn [uc_conversationId files]. split; [reflexivity|].
  split; [reflexivity|].
  assert (Hnot : ~ In "mychat"
                     (listedIds testPlatform
                        (removeFile "conversation1.json" (files foreignName)))).
  { vm_compute. intros [H|[]]. discriminate H. }
  split; [exact Hnot|].
  intros remaining Hperm Hchoice. apply Hnot.
  inversion Hchoice as [c Hu|c _ Hu|first others _ _ Hlist _ Hfirst].
  - destruct Hu as (Hu & _). discriminate Hu.
  - destruct Hu as (Hu & _). discriminate Hu.
  - eapply Permutation_in; [exact Hperm|].
    rewrite Hlist. cbn [List.map]. left. reflexivity.
Qed.

(** Deleting the latest of three conversations, no preference, no global
    pointer: the next active conversation is the later of the two left. *)
Example delete_latest_of_three :
  fst (deleteConversationForUi testPlatform (Some "conversation2") None
         threeConversations)
  = Ok {| uc_conversationId := "conversation3"; uc_messages := [];
          uc_model := "anthropic/claude-opus-4-5" |}.
Proof. vm_compute. reflexivity. Qed.

(** The caller's preference wins over recency. *)
Example delete_with_preference :
  fst (deleteConversationForUi testPlatform (Some "conversation2")
         (Some "conversation1") threeConversations)
  = Ok {| uc_conversationId := "conversation1"; uc_messages := [];
          uc_model := "anthropic/claude-opus-4-5" |}.
Proof. vm_compute. reflexivity. Qed.

(** Deleting the only conversation: LastConversation, file kept. *)
Example delete_only_conversation :
  fst (deleteConversationForUi testPlatform (Some "conversation1") None
         oneConversation) = Throw LastConversation
  /\ files (snd (deleteConversationForUi testPlatform (Some "conversation1")
                   None oneConversation)) = files oneConversation.
Proof. split; vm_compute; reflexivity. Qed.

(** On a disk where the global info cannot be written the call returns
    the same conversation, and the global info stays as it was. *)
Example delete_on_full_disk :
  fst (deleteConversationForUi fullDisk (Some "conversation2") None
         threeConversations)
  = Ok {| uc_conversationId := "conversation3"; uc_messages := [];
          uc_model := "anthropic/claude-opus-4-5" |}
  /\ globalInfo (snd (deleteConversationForUi fullDisk (Some "conversation2")
                        None threeConversations))
     = globalInfo threeConversations.
Proof. split; vm_compute; reflexivity. Qed.
End DeleteFacts.

Module LockFacts.
Import Lock.

(** *** Promises *)

(** A promise is settled exactly when all the gates it waits for are
    resolved, whether its chain started fulfilled or rejected. *)
Lemma settled_iff s p :
  stateOf s p <> Pending <->
  (forall g, In g (gatesOf p) -> gateIsResolved s g = true).
Proof.
  induction p as [| |prev IH g]; cbn [stateOf gatesOf].
  - split; [intros _ g' [] | discriminate].
  - split; [intros _ g' [] | discriminate].
  - split.
    + intros H g' Hin. apply in_app_or in Hin.
      destruct (stateOf s prev) eqn:E; [contradiction| |].
      * destruct Hin as [Hin|[<-|[]]].
        -- apply IH; [discriminate | exact Hin].
        -- destruct (gateIsResolved s g); [reflexivity | contradiction].
      * destruct Hin as [Hin|[<-|[]]].
        -- apply IH; [discriminate | exact Hin].
        -- destruct (gateIsResolved s g); [reflexivity | contradiction].
    + intros H.
      assert (Hprev : stateOf s prev <> Pending).
      { apply IH. intros g' Hg'. apply H, in_or_app. now left. }
      assert (Hg : gateIsResolved s g = true).
      { apply H, in_or_app. right. now left. }
      rewrite Hg. destruct (stateOf s prev); [contradiction | discriminate..].
Qed.


Lemma catchUndefined_Fulfilled st :
  catchUndefined st = Fulfilled <-> st <> Pending.
Proof. destruct st; cbn; split; congruence. Qed.

(** *** Preservation of the invariant *)

Lemma Inv_init : Inv init.
Proof.
  split; cbn [init calls conversationLockQueues]; intros;
    try (rewrite lookup_nil in *; discriminate);
    try (rewrite lookup_empty in *; discriminate).
Qed.

Lemma lookup_snoc_Some {A} (l : list A) (x y : A) i :
  (l ++ [x])%list !! i = Some y ->
  (l !! i = Some y /\ (i < List.length l)%nat)
  \/ (i = List.length l /\ y = x).
Proof.
  intros H. apply lookup_app_Some in H. destruct H as [H|[Hle H]].
  - left. split; [exact H | eapply lookup_lt_Some, H].
  - right. destruct (i - List.length l)%nat as [|k] eqn:E; cbn in H.
    + inversion H. split; [lia | reflexivity].
    + discriminate H.
Qed.

Lemma gateIsResolved_acquire cid s g :
  gateIsResolved s g = true -> gateIsResolved (acquire cid s) g = true.
Proof.
  unfold gateIsResolved, acquire. cbn [calls].
  destruct (calls s !! g) as [c|] eqn:E; [|discriminate].
  intros H. now rewrite (lookup_app_l_Some _ _ _ _ E).
Qed.

Lemma tailFor_cover cid s i ci :
  Inv s -> calls s !! i = Some ci -> conversationId ci = cid ->
  In i (gatesOf (tailFor cid s)) \/ released ci = true.
Proof.
  intros HI Hi Hc. unfold tailFor.
  destruct (conversationLockQueues s !! cid) as [q|] eqn:E.
  - eapply inv_entry_cover; eassumption.
  - right. eapply inv_no_entry; eassumption.
Qed.

Lemma tailFor_sound cid s g :
  Inv s -> In g (gatesOf (tailFor cid s)) ->
  exists cg, calls s !! g = Some cg /\ conversationId cg = cid.
Proof.
  intros HI Hg. unfold tailFor in Hg.
  destruct (conversationLockQueues s !! cid) as [q|] eqn:E.
  - eapply inv_entry_sound; eassumption.
  - destruct Hg.
Qed.

Lemma acquire_calls cid s :
  calls (acquire cid s)
  = (calls s ++ [{| conversationId := cid;
                    queue := match conversationLockQueues s !! cid with
                             | Some q => ref q
                             | None => nextRef s
                             end;
                    previousTail := tailFor cid s;
                    nextTail := ThenGate (tailFor cid s)
                                  (List.length (calls s));
                    gateResolved := false;
                    released := false;
                    returned := false |}])%list.
Proof.
  unfold acquire, tailFor.
  destruct (conversationLockQueues s !! cid); reflexivity.
Qed.

Lemma acquire_entry cid s :
  conversationLockQueues (acquire cid s) !! cid
  = Some {| ref := match conversationLockQueues s !! cid with
                   | Some q => ref q
                   | None => nextRef s
                   end;
            tail := ThenGate (tailFor cid s) (List.length (calls s)) |}.
Proof.
  unfold acquire, tailFor. cbn [conversationLockQueues].
  rewrite lookup_insert_eq.
  destruct (conversationLockQueues s !! cid); reflexivity.
Qed.

Lemma acquire_other_entry cid cid' s :
  cid' <> cid ->
  conversationLockQueues (acquire cid s) !! cid'
  = conversationLockQueues s !! cid'.
Proof.
  intros Hne. unfold acquire. cbn [conversationLockQueues].
  apply lookup_insert_ne. congruence.
Qed.

Lemma Inv_acquire cid s : Inv s -> Inv (acquire cid s).
Proof.
  intros HI.
  pose proof (acquire_calls cid s) as Hcalls.
  set (cn := {| conversationId := cid;
                queue := match conversationLockQueues s !! cid with
                         | Some q => ref q
                         | None => nextRef s
                         end;
                previousTail := tailFor cid s;
                nextTail := ThenGate (tailFor cid s) (List.length (calls s));
                gateResolved := false; released := false;
                returned := false |}) in *.
  assert (Hold : forall i c, calls s !! i = Some c ->
                   calls (acquire cid s) !! i = Some c).
  { intros i c Hi. rewrite Hcalls. now apply lookup_app_l_Some. }
  split.
  - (* inv_flags *)
    intros t c Ht. rewrite Hcalls in Ht.
    apply lookup_snoc_Some in Ht. destruct Ht as [[Ht _]|[_ ->]].
    + eapply inv_flags; eassumption.
    + split; [reflexivity | discriminate].
  - (* inv_next *)
    intros t c Ht. rewrite Hcalls in Ht.
    apply lookup_snoc_Some in Ht. destruct Ht as [[Ht _]|[-> ->]].
    + eapply inv_next; eassumption.
    + reflexivity.
  - (* inv_cover *)
    intros i j ci cj Hi Hj Hlt Hc. rewrite Hcalls in Hi, Hj.
    apply lookup_snoc_Some in Hi, Hj.
    destruct Hj as [[Hj Hjn]|[-> ->]].
    + destruct Hi as [[Hi _]|[-> _]]; [|lia].
      eapply inv_cover; eassumption.
    + destruct Hi as [[Hi _]|[-> _]]; [|lia].
      cbn [previousTail cn]. eapply tailFor_cover; eassumption.
  - (* inv_sound *)
    intros j cj g Hj Hg. rewrite Hcalls in Hj.
    apply lookup_snoc_Some in Hj. destruct Hj as [[Hj Hjn]|[-> ->]].
    + destruct (inv_sound s HI j cj g Hj Hg) as (Hlt & cg & Hcg & Hc).
      split; [exact Hlt|]. exists cg. split; [now apply Hold | exact Hc].
    + cbn [previousTail cn conversationId] in Hg |- *.
      destruct (tailFor_sound cid s g HI Hg) as (cg & Hcg & Hc).
      split; [eapply lookup_lt_Some, Hcg|].
      exists cg. split; [now apply Hold | exact Hc].
  - (* inv_returned *)
    intros j cj g Hj Hr Hg. rewrite Hcalls in Hj.
    apply lookup_snoc_Some in Hj. destruct Hj as [[Hj Hjn]|[-> ->]].
    + apply gateIsResolved_acquire. eapply inv_returned; eassumption.
    + discriminate Hr.
  - (* inv_entry_cover *)
    intros cid' q i ci Hq Hi Hc. rewrite Hcalls in Hi.
    apply lookup_snoc_Some in Hi.
    destruct (decide (cid' = cid)) as [->|Hne].
    + rewrite acquire_entry in Hq. inversion Hq; subst q. cbn [tail gatesOf].
      destruct Hi as [[Hi _]|[-> ->]].
      * destruct (tailFor_cover cid s i ci HI Hi Hc) as [H|H];
          [left; apply in_or_app; now left | now right].
      * left. apply in_or_app. right. now left.
    + rewrite (acquire_other_entry _ _ _ Hne) in Hq.
      destruct Hi as [[Hi _]|[-> ->]].
      * eapply inv_entry_cover; eassumption.
      * cbn [conversationId cn] in Hc. congruence.
  - (* inv_entry_sound *)
    intros cid' q g Hq Hg.
    destruct (decide (cid' = cid)) as [->|Hne].
    + rewrite acquire_entry in Hq. inversion Hq; subst q.
      cbn [tail gatesOf] in Hg. apply in_app_or in Hg.
      destruct Hg as [Hg|[<-|[]]].
      * destruct (tailFor_sound cid s g HI Hg) as (cg & Hcg & Hc).
        exists cg. split; [now apply Hold | exact Hc].
      * exists cn. split; [|reflexivity].
        rewrite Hcalls. rewrite lookup_app_r by lia.
        now rewrite Nat.sub_diag.
    + rewrite (acquire_other_entry _ _ _ Hne) in Hq.
      destruct (inv_entry_sound s HI cid' q g Hq Hg) as (cg & Hcg & Hc).
      exists cg. split; [now apply Hold | exact Hc].
  - (* inv_no_entry *)
    intros cid' i ci Hq Hi Hc. rewrite Hcalls in Hi.
    apply lookup_snoc_Some in Hi.
    destruct (decide (cid' = cid)) as [->|Hne].
    + rewrite acquire_entry in Hq. discriminate Hq.
    + rewrite (acquire_other_entry _ _ _ Hne) in Hq.
      destruct Hi as [[Hi _]|[-> ->]].
      * eapply inv_no_entry; eassumption.
      * cbn [conversationId cn] in Hc. congruence.
Qed.

(** Updating the flags of one call: the frame stays, flags only rise. *)
Section SetCall.
Variables (s : State) (t : nat) (c c' : Call).
Hypothesis HI : Inv s.
Hypothesis Ht : calls s !! t = Some c.
Hypothesis Hcid : conversationId c' = conversationId c.
Hypothesis Hprev : previousTail c' = previousTail c.
Hypothesis Hnext : nextTail c' = nextTail c.
Hypothesis Hgate : gateResolved c = true -> gateResolved c' = true.
Hypothesis Hrel : released c = true -> released c' = true.
Hypothesis Hflags : gateResolved c' = released c'.
Hypothesis Hret : released c' = true -> returned c' = true.
Hypothesis Hwait :
  returned c' = true ->
  forall g, In g (gatesOf (previousTail c)) -> gateIsResolved s g = true.

Lemma setCall_lookup i x :
  calls (setCall t c' s) !! i = Some x ->
  exists x0, calls s !! i = Some x0
    /\ conversationId x = conversationId x0
    /\ previousTail x = previousTail x0
    /\ nextTail x = nextTail x0
    /\ (released x0 = true -> released x = true)
    /\ ((i = t /\ x = c') \/ (i <> t /\ x = x0)).
Proof.
  unfold setCall. cbn [calls]. intros H.
  apply list_lookup_insert_Some in H.
  destruct H as [(<- & <- & _)|(Hne & H)].
  - exists c. repeat split; try assumption. left. now split.
  - exists x. repeat split; try assumption; try reflexivity; [tauto|].
    right. split; [congruence | reflexivity].
Qed.

Lemma setCall_lookup_old i x0 :
  calls s !! i = Some x0 ->
  exists x, calls (setCall t c' s) !! i = Some x
    /\ conversationId x = conversationId x0
    /\ (released x0 = true -> released x = true)
    /\ (gateResolved x0 = true -> gateResolved x = true).
Proof.
  intros H. unfold setCall. cbn [calls].
  destruct (decide (i = t)) as [->|Hne].
  - exists c'. rewrite Ht in H. inversion H; subst x0.
    split; [apply list_lookup_insert_eq; eapply lookup_lt_Some, Ht|].
    repeat split; assumption.
  - exists x0. split; [now rewrite list_lookup_insert_ne by congruence|].
    repeat split; tauto.
Qed.

Lemma gateIsResolved_setCall g :
  gateIsResolved s g = true -> gateIsResolved (setCall t c' s) g = true.
Proof.
  unfold gateIsResolved at 1.
  destruct (calls s !! g) as [x0|] eqn:E; [|discriminate]. intros H.
  destruct (setCall_lookup_old g x0 E) as (x & Hx & _ & _ & Hg).
  unfold gateIsResolved. rewrite Hx. now apply Hg.
Qed.

Lemma Inv_setCall : Inv (setCall t c' s).
Proof.
  split.
  - (* inv_flags *)
    intros i x Hi.
    destruct (setCall_lookup i x Hi) as (x0 & Hx0 & _ & _ & _ & _ & [[-> ->]|[_ ->]]).
    + split; assumption.
    + eapply inv_flags; eassumption.
  - (* inv_next *)
    intros i x Hi.
    destruct (setCall_lookup i x Hi) as (x0 & Hx0 & _ & Hp & Hn & _ & _).
    rewrite Hn, Hp. eapply inv_next; eassumption.
  - (* inv_cover *)
    intros i j ci cj Hi Hj Hlt Hc.
    destruct (setCall_lookup i ci Hi) as (ci0 & Hi0 & Hci & _ & _ & Hri & _).
    destruct (setCall_lookup j cj Hj) as (cj0 & Hj0 & Hcj & Hpj & _ & _ & _).
    rewrite Hpj.
    destruct (inv_cover s HI i j ci0 cj0 Hi0 Hj0 Hlt) as [H|H];
      [congruence | now left | right; now apply Hri].
  - (* inv_sound *)
    intros j cj g Hj Hg.
    destruct (setCall_lookup j cj Hj) as (cj0 & Hj0 & Hcj & Hpj & _ & _ & _).
    rewrite Hpj in Hg.
    destruct (inv_sound s HI j cj0 g Hj0 Hg) as (Hlt & cg0 & Hg0 & Hc).
    split; [exact Hlt|].
    destruct (setCall_lookup_old g cg0 Hg0) as (cg & Hcg & Hcc & _).
    exists cg. split; [exact Hcg | congruence].
  - (* inv_returned *)
    intros j cj g Hj Hr Hg.
    destruct (setCall_lookup j cj Hj)
      as (cj0 & Hj0 & _ & Hpj & _ & _ & [[-> ->]|[_ ->]]).
    + apply gateIsResolved_setCall. rewrite Hprev in Hg.
      now apply Hwait.
    + apply gateIsResolved_setCall. eapply inv_returned; eassumption.
  - (* inv_entry_cover *)
    intros cid q i ci Hq Hi Hc.
    destruct (setCall_lookup i ci Hi) as (ci0 & Hi0 & Hci & _ & _ & Hri & _).
    destruct (inv_entry_cover s HI cid q i ci0 Hq Hi0) as [H|H];
      [congruence | now left | right; now apply Hri].
  - (* inv_entry_sound *)
    intros cid q g Hq Hg.
    destruct (inv_entry_sound s HI cid q g Hq Hg) as (cg0 & Hg0 & Hc).
    destruct (setCall_lookup_old g cg0 Hg0) as (cg & Hcg & Hcc & _).
    exists cg. split; [exact Hcg | congruence].
  - (* inv_no_entry *)
    intros cid i ci Hq Hi Hc.
    destruct (setCall_lookup i ci Hi) as (ci0 & Hi0 & Hci & _ & _ & Hri & _).
    apply Hri. eapply inv_no_entry; [exact HI | exact Hq | exact Hi0 | congruence].
Qed.
End SetCall.

Lemma Inv_resume t s s' : Inv s -> resume t s = Some s' -> Inv s'.
Proof.
  intros HI. unfold resume.
  destruct (calls s !! t) as [c|] eqn:Ht; [|discriminate].
  destruct (returned c) eqn:Er; [discriminate|].
  destruct (catchUndefined (stateOf s (previousTail c))) eqn:Ec;
    try discriminate.
  intros H. inversion H; subst s'. clear H.
  apply catchUndefined_Fulfilled in Ec.
  pose proof (proj1 (settled_iff _ _) Ec) as Hwait.
  eapply Inv_setCall with (c := c); try eassumption; try reflexivity;
    cbn [gateResolved released returned previousTail]; try tauto;
    try (eapply inv_flags; eassumption).
Qed.

Lemma Inv_release t s s' : Inv s -> release t s = Some s' -> Inv s'.
Proof.
  intros HI. unfold release.
  destruct (calls s !! t) as [c|] eqn:Ht; [|discriminate].
  destruct (returned c) eqn:Er; cbn [negb]; [|discriminate].
  destruct (released c) eqn:El.
  { intros H. inversion H; subst s'. exact HI. }
  cbv zeta.
  set (c' := {| conversationId := conversationId c; queue := queue c;
                previousTail := previousTail c; nextTail := nextTail c;
                gateResolved := true; released := true;
                returned := true |}).
  assert (HI1 : Inv (setCall t c' s)).
  { eapply Inv_setCall with (c := c); try eassumption; try reflexivity;
      cbn [gateResolved released returned previousTail c']; try tauto.
    intros _ g Hg. eapply inv_returned; eassumption. }
  destruct (conversationLockQueues (setCall t c' s) !! conversationId c)
    as [q|] eqn:Eq.
  2:{ intros H. inversion H; subst s'. exact HI1. }
  destruct (bool_decide (ref q = queue c) && bool_decide (tail q = nextTail c))
    eqn:Em; cbn [negb].
  2:{ intros H. inversion H; subst s'. exact HI1. }
  intros H. inversion H; subst s'. clear H.
  apply andb_true_iff in Em. destruct Em as [_ Etail].
  apply bool_decide_eq_true in Etail.
  split; cbn [calls conversationLockQueues].
  - apply (inv_flags _ HI1).
  - apply (inv_next _ HI1).
  - apply (inv_cover _ HI1).
  - apply (inv_sound _ HI1).
  - intros j cj g Hj Hr Hg.
    pose proof (inv_returned _ HI1 j cj g Hj Hr Hg) as Hres.
    exact Hres.
  - intros cid q' i ci Hq Hi Hc.
    apply lookup_delete_Some in Hq. destruct Hq as [Hne Hq].
    exact (inv_entry_cover _ HI1 cid q' i ci Hq Hi Hc).
  - intros cid q' g Hq Hg.
    apply lookup_delete_Some in Hq. destruct Hq as [Hne Hq].
    exact (inv_entry_sound _ HI1 cid q' g Hq Hg).
  - intros cid i ci Hq Hi Hc.
    apply lookup_delete_None in Hq. destruct Hq as [<-|Hq].
    + (* the deleted entry: every call of the conversation has released *)
      destruct (inv_entry_cover _ HI1 _ q i ci Eq Hi Hc) as [Hin|Hr];
        [|exact Hr].
      rewrite Etail, (inv_next _ HI _ _ Ht) in Hin.
      cbn [gatesOf] in Hin. apply in_app_or in Hin.
      destruct Hin as [Hin|[<-|[]]].
      * pose proof (inv_returned _ HI t c i Ht Er Hin) as Hres.
        assert (Hres1 : gateIsResolved (setCall t c' s) i = true).
        { eapply gateIsResolved_setCall with (c := c); try eassumption;
            cbn [gateResolved released c']; tauto. }
        unfold gateIsResolved, setCall in Hres1. cbn [calls] in Hres1.
        rewrite Hi in Hres1.
        destruct (inv_flags _ HI1 i ci Hi) as [Hf _]. congruence.
      * unfold setCall in Hi. cbn [calls] in Hi.
        rewrite list_lookup_insert_eq in Hi by (eapply lookup_lt_Some, Ht).
        inversion Hi. reflexivity.
    + exact (inv_no_entry _ HI1 cid i ci Hq Hi Hc).
Qed.

Lemma Inv_step l s s' : Inv s -> step l s = Some s' -> Inv s'.
Proof.
  destruct l as [cid|t|t]; cbn [step]; intros HI H.
  - inversion H; subst s'. now apply Inv_acquire.
  - eapply Inv_resume; eassumption.
  - eapply Inv_release; eassumption.
Qed.

Lemma reachable_Inv s : reachable s -> Inv s.
Proof.
  induction 1 as [|s l s' _ IH Hstep]; [apply Inv_init|].
  eapply Inv_step; eassumption.
Qed.

Lemma run_reachable ls : forall s s',
  reachable s -> run ls s = Some s' -> reachable s'.
Proof.
  induction ls as [|l r IH]; intros s s' Hs Hrun; cbn [run] in Hrun.
  - inversion Hrun; subst. exact Hs.
  - destruct (step l s) as [s1|] eqn:E; [|discriminate].
    eapply IH; [|exact Hrun]. eapply reachable_step; eassumption.
Qed.



(** While call 0 holds the lock of conversation1, call 1 cannot be
    resumed; call 2, for another conversation, can. *)
Example second_call_waits :
  match run [Acquire "conversation1"; Acquire "conversation1";
             Acquire "conversation2"; Resume 0%nat] init with
  | Some s => resume 1 s = None /\ is_Some (resume 2 s)
  | None => False
  end.
Proof. vm_compute. split; [reflexivity | eauto]. Qed.

(** Behind a tail that rejected, the next call is resumed all the same
    and its own tail is fulfilled once its gate is resolved. *)
Example rejected_tail_does_not_block s g :
  catchUndefined (stateOf s PromiseReject) = Fulfilled
  /\ (gateIsResolved s g = true ->
      stateOf s (ThenGate PromiseReject g) = Fulfilled).
Proof. split; [reflexivity|]. cbn [stateOf]. now intros ->. Qed.
End LockFacts.

Module PersistFacts.
Import Store StoreSpec StoreScenario ListingFacts.

Lemma toStoredMessage_ok P m w :
  exists r w', toStoredMessage P m w = (Ok r, w') /\ sameDisk w w'.
Proof.
  unfold toStoredMessage.
  destruct (ui_role m);
    [exists None, w; split; [reflexivity | apply sameDisk_refl] | |];
    (destruct (Js.isEmpty (Js.trim (extractTextFromUIMessage m)));
     [exists None, w; split; [reflexivity | apply sameDisk_refl]|];
     unfold bind, nowISO, createMessageId, ret;
     destruct (Js.isEmpty (ui_id m)); eexists _, _;
     (split; [reflexivity | split; reflexivity])).
Qed.

Lemma mapM_toStoredMessage_ok P msgs : forall w,
  exists converted w',
    mapM (toStoredMessage P) msgs w = (Ok converted, w') /\ sameDisk w w'.
Proof.
  induction msgs as [|m r IH]; intros w; cbn [mapM].
  - exists [], w. split; [reflexivity | apply sameDisk_refl].
  - unfold bind at 1.
    destruct (toStoredMessage_ok P m w) as (x & w1 & Hx & Hd1). rewrite Hx.
    unfold bind at 1.
    destruct (IH w1) as (xs & w2 & Hxs & Hd2). rewrite Hxs.
    eexists _, w2. split; [reflexivity|].
    eapply sameDisk_trans; eassumption.
Qed.

Lemma lookupFile_replaceFile fileName d fs :
  lookupFile fileName (replaceFile fileName d fs) = Some d.
Proof.
  induction fs as [|[n d0] r IH]; cbn [replaceFile lookupFile].
  - now rewrite String.eqb_refl.
  - destruct (String.eqb n fileName) eqn:E; cbn [lookupFile]; rewrite E;
      [reflexivity | exact IH].
Qed.

(** What [persistPromptSnapshot] stores for a conversation that has a
    bundle file: the merge of the loaded messages with the converted
    incoming ones. *)
Lemma persistPromptSnapshot_stores_merge P w target sid raw msgs :
  sanitizeConversationId target = Some sid ->
  lookupFile (sid ++ ".json")%string (files w) = Some (BundleJson raw) ->
  exists existing converted b' w',
    persistPromptSnapshot P target msgs None w = (Ok sid, w')
    /\ lookupFile (sid ++ ".json")%string (files w') = Some (BundleJson b')
    /\ messages (content b')
       = mergeStoredMessagesPreservingExisting existing (dropNulls converted)
    /\ List.length existing
       = List.length (nonBlank (messages (content raw))).
Proof.
  intros Hsan Hfile. unfold persistPromptSnapshot. cbv zeta.
  unfold bind at 1.
  unfold ensureConversationRecord. rewrite Hsan. cbv zeta.
  unfold tryCatch at 1. unfold bind at 1.
  destruct (loadBundle_present P (sid ++ ".json")%string sid raw w Hfile)
    as (ms & w1 & Hload & Hd1 & Hlen).
  unfold buildConversationFilePath at 1. rewrite Hload.
  unfold ret at 1. cbn [bundle filePath conversationId].
  unfold bind at 1.
  destruct (mapM_toStoredMessage_ok P msgs w1) as (converted & w2 & Hconv & Hd2).
  rewrite Hconv.
  unfold bind, nowISO, saveBundle, atomicWriteJson, tryCatch,
    updateGlobalActiveConversation, bind, loadGlobalInfo, writeGlobalInfo,
    ret, tick.
  cbn [files globalInfo ticks bundle filePath conversationId].
  destruct (globalWriteFails P _);
    (eexists ms, converted, _, _; split; [reflexivity|];
     cbn [files]; unfold buildConversationFilePath; cbn [snd];
     split; [apply lookupFile_replaceFile|];
     split; [reflexivity | exact Hlen]).
Qed.
End PersistFacts.

Module RoutingBounds.
Import Routing Scenario TierOrder.

Ltac pt_bounds :=
  repeat match goal with
         | |- context [pt ?b] =>
             let H := fresh in pose proof (RoutingFacts.pt_range b) as H;
             generalize dependent (pt b); intros
         end.

Lemma scorePromptLength_range prompt : 0 <= scorePromptLength prompt <= 11.
Proof.
  unfold scorePromptLength. destruct (Js.isEmpty _); [lia|].
  cbv zeta. pt_bounds. lia.
Qed.

Lemma scoreInstructionComplexity_range cm prompt :
  0 <= scoreInstructionComplexity cm prompt <= 11.
Proof.
  unfold scoreInstructionComplexity. destruct (Js.isEmpty _); [lia|].
  cbv zeta. pt_bounds. lia.
Qed.

Lemma scoreToolComplexity_range tools : 0 <= scoreToolComplexity tools <= 9.
Proof.
  unfold scoreToolComplexity.
  destruct (webSearchEnabled tools), (deepSearchEnabled tools);
    cbn [andb]; pt_bounds; lia.
Qed.

(** X1: whatever the prompt, the tool signals and the match counts of the
    six instruction patterns, the complexity score lies between 0 and 31:
    at most 11 points for the length, 11 for the instructions and 9 for
    the tools. *)
Theorem scorePromptComplexity_range cm prompt tools :
  0 <= scorePromptLength prompt <= 11
  /\ 0 <= scoreInstructionComplexity cm prompt <= 11
  /\ 0 <= scoreToolComplexity tools <= 9
  /\ 0 <= scorePromptComplexity cm prompt tools <= 31.
Proof.
  pose proof (scorePromptLength_range prompt).
  pose proof (scoreInstructionComplexity_range cm prompt).
  pose proof (scoreToolComplexity_range tools).
  repeat (split; [lia|]).
  unfold scorePromptComplexity. destruct (Js.isEmpty _); lia.
Qed.

Lemma thresholds_range s :
  4 <= clampInt (9 - clampInt s 0 100 / 20) 4 9 <= 9
  /\ 7 <= clampInt (17 - clampInt s 0 100 / 10) 7 17 <= 17.
Proof. rewrite !RoutingFacts.clampInt_clamp by lia. unfold RoutingSpec.clamp. lia. Qed.

(** X2: a prompt that is empty once trimmed scores 0 whatever the tools,
    and is never routed to the heavy tier: it goes to the tooling tier
    when a tool signal is present and to the light tier otherwise, at
    every sensitivity. *)
Theorem blank_prompt_tier env cm prompt selectedModel tools settings :
  Js.trim prompt = EmptyString ->
  scorePromptComplexity cm prompt tools = 0
  /\ tier (buildRoutingDecision env cm prompt selectedModel tools settings)
     = if webSearchEnabled tools || deepSearchEnabled tools
          || (0 <? attachmentCount tools)
       then tooling else light.
Proof.
  intros Hblank.
  assert (Hc : scorePromptComplexity cm prompt tools = 0).
  { unfold scorePromptComplexity. now rewrite Hblank. }
  split; [exact Hc|].
  rewrite RoutingFacts.tier_buildRoutingDecision. cbv zeta. rewrite Hc.
  destruct (thresholds_range (routingSensitivity settings)) as [Ht Hh].
  destruct (Z.leb_spec
              (clampInt (17 - clampInt (routingSensitivity settings) 0 100 / 10) 7 17
               - (if deepSearchEnabled tools then 2 else 0)) 0) as [H|_].
  { destruct (deepSearchEnabled tools); lia. }
  destruct (Z.leb_spec
              (clampInt (9 - clampInt (routingSensitivity settings) 0 100 / 20) 4 9)
              0) as [H|_]; [lia|].
  now rewrite orb_false_r.
Qed.

Lemma blank_prompt_tier_witness :
  Js.trim "   " = EmptyString
  /\ scorePromptComplexity noMatches "   " deepSearchOnly = 0
  /\ tier (buildRoutingDecision defaultEnv noMatches "   " DEFAULT_MODEL
             deepSearchOnly
             {| routingSensitivity := 100; historyCompression := 50 |})
     = tooling.
Proof.
  split; [reflexivity|].
  apply (blank_prompt_tier defaultEnv noMatches "   " DEFAULT_MODEL
           deepSearchOnly
           {| routingSensitivity := 100; historyCompression := 50 |}).
  reflexivity.
Defined.

(** X3: for a fixed prompt and fixed tool signals, raising the
    sensitivity never lowers the tier in the order light, tooling,
    heavy. *)
Theorem tier_monotone_in_sensitivity
    env cm prompt selectedModel tools hc (s s' : Z) :
  s <= s' ->
  tierRank (tier (buildRoutingDecision env cm prompt selectedModel tools
                    {| routingSensitivity := s; historyCompression := hc |}))
  <= tierRank (tier (buildRoutingDecision env cm prompt selectedModel tools
                    {| routingSensitivity := s'; historyCompression := hc |})).
Proof.
  intros Hle. rewrite !RoutingFacts.tier_buildRoutingDecision. cbv zeta.
  simpl routingSensitivity.
  set (c := scorePromptComplexity cm prompt tools).
  set (bias := if deepSearchEnabled tools then 2 else 0).
  set (sig := webSearchEnabled tools || deepSearchEnabled tools
              || (0 <? attachmentCount tools)).
  assert (Hdiv10 : clampInt s 0 100 / 10 <= clampInt s' 0 100 / 10).
  { apply Z.div_le_mono; [lia|]. apply RoutingFacts.clampInt_mono; lia. }
  assert (Hdiv20 : clampInt s 0 100 / 20 <= clampInt s' 0 100 / 20).
  { apply Z.div_le_mono; [lia|]. apply RoutingFacts.clampInt_mono; lia. }
  assert (Hh : clampInt (17 - clampInt s' 0 100 / 10) 7 17
               <= clampInt (17 - clampInt s 0 100 / 10) 7 17).
  { apply RoutingFacts.clampInt_mono; lia. }
  assert (Ht : clampInt (9 - clampInt s' 0 100 / 20) 4 9
               <= clampInt (9 - clampInt s 0 100 / 20) 4 9).
  { apply RoutingFacts.clampInt_mono; lia. }
  destruct (Z.leb_spec (clampInt (17 - clampInt s 0 100 / 10) 7 17 - bias) c);
    destruct (Z.leb_spec (clampInt (17 - clampInt s' 0 100 / 10) 7 17 - bias) c);
    try lia; cbn [tierRank]; try lia;
    destruct sig; cbn [orb tierRank]; try lia;
    destruct (Z.leb_spec (clampInt (9 - clampInt s 0 100 / 20) 4 9) c);
    destruct (Z.leb_spec (clampInt (9 - clampInt s' 0 100 / 20) 4 9) c);
    cbn [tierRank]; lia.
Qed.

Lemma tier_monotone_in_sensitivity_witness :
  0 <= 100
  /\ tier (buildRoutingDecision defaultEnv noMatches plainPrompt DEFAULT_MODEL
             noTools
             {| routingSensitivity := 0; historyCompression := 50 |}) = light
  /\ tier (buildRoutingDecision defaultEnv noMatches plainPrompt DEFAULT_MODEL
             noTools
             {| routingSensitivity := 100; historyCompression := 50 |}) = heavy
  /\ tierRank light <= tierRank heavy.
Proof.
  split; [lia|].
  assert (H0 : tier (buildRoutingDecision defaultEnv noMatches plainPrompt
                       DEFAULT_MODEL noTools
                       {| routingSensitivity := 0;
                          historyCompression := 50 |}) = light)
    by (vm_compute; reflexivity).
  assert (H1 : tier (buildRoutingDecision defaultEnv noMatches plainPrompt
                       DEFAULT_MODEL noTools
                       {| routingSensitivity := 100;
                          historyCompression := 50 |}) = heavy)
    by (vm_compute; reflexivity).
  split; [exact H0|]. split; [exact H1|].
  rewrite <- H0 at 1. rewrite <- H1.
  apply (tier_monotone_in_sensitivity defaultEnv noMatches plainPrompt
           DEFAULT_MODEL noTools 50 0 100). lia.
Defined.

Lemma Math_round_div_mono a b d : 0 < d -> a <= b ->
  Math_round_div a d <= Math_round_div b d.
Proof.
  intros Hd Hab. unfold Math_round_div. apply Z.div_le_mono; lia.
Qed.

(** X4: for every tier and every value of the compression setting, also
    one outside [0,100], the history window has 6 to 24 messages and the
    summary budget 900 to 4200 characters; and for one setting the light
    tier never gets more history than the tooling tier, nor the tooling
    tier more than the heavy tier. *)
Theorem history_always_in_range (t : RoutingTier) (hc : Z) :
  let h := computeHistoryCompression t hc in
  6 <= hp_historyWindowMessages h <= 24
  /\ 900 <= hp_historySummaryMaxChars h <= 4200
  /\ hp_historyWindowMessages (computeHistoryCompression light hc)
     <= hp_historyWindowMessages (computeHistoryCompression tooling hc)
     <= hp_historyWindowMessages (computeHistoryCompression heavy hc)
  /\ hp_historySummaryMaxChars (computeHistoryCompression light hc)
     <= hp_historySummaryMaxChars (computeHistoryCompression tooling hc)
     <= hp_historySummaryMaxChars (computeHistoryCompression heavy hc).
Proof.
  cbv zeta. unfold computeHistoryCompression.
  unfold MAX_HISTORY_WINDOW_MESSAGES, MIN_HISTORY_WINDOW_MESSAGES,
    MAX_HISTORY_SUMMARY_CHARS, MIN_HISTORY_SUMMARY_CHARS.
  cbv zeta. cbn [hp_historyWindowMessages hp_historySummaryMaxChars].
  set (w := Math_round_div _ 100). set (c := Math_round_div _ 100).
  split; [|split; [|split]].
  - destruct t; cbn [hp_historyWindowMessages];
      rewrite RoutingFacts.clampInt_clamp by lia; unfold RoutingSpec.clamp; lia.
  - destruct t; cbn [hp_historySummaryMaxChars];
      rewrite RoutingFacts.clampInt_clamp by lia; unfold RoutingSpec.clamp; lia.
  - split; apply RoutingFacts.clampInt_mono; lia.
  - split; apply RoutingFacts.clampInt_mono; lia.
Qed.

(** X5: more compression never gives more history: for every tier, when
    the compression setting grows, the history window and the summary
    budget stay or shrink. *)
Theorem history_shrinks_with_compression (t : RoutingTier) (hc hc' : Z) :
  hc <= hc' ->
  hp_historyWindowMessages (computeHistoryCompression t hc')
  <= hp_historyWindowMessages (computeHistoryCompression t hc)
  /\ hp_historySummaryMaxChars (computeHistoryCompression t hc')
     <= hp_historySummaryMaxChars (computeHistoryCompression t hc).
Proof.
  intros Hle. unfold computeHistoryCompression.
  unfold MAX_HISTORY_WINDOW_MESSAGES, MIN_HISTORY_WINDOW_MESSAGES,
    MAX_HISTORY_SUMMARY_CHARS, MIN_HISTORY_SUMMARY_CHARS.
  cbv zeta.
  assert (Hc : clampInt hc 0 100 <= clampInt hc' 0 100)
    by (apply RoutingFacts.clampInt_mono; lia).
  assert (Hw : Math_round_div ((24 - 6) * clampInt hc 0 100) 100
               <= Math_round_div ((24 - 6) * clampInt hc' 0 100) 100)
    by (apply Math_round_div_mono; lia).
  assert (Hs : Math_round_div ((4200 - 900) * clampInt hc 0 100) 100
               <= Math_round_div ((4200 - 900) * clampInt hc' 0 100) 100)
    by (apply Math_round_div_mono; lia).
  destruct t; cbn [hp_historyWindowMessages hp_historySummaryMaxChars];
    split; apply RoutingFacts.clampInt_mono; lia.
Qed.

Lemma history_shrinks_with_compression_witness :
  0 <= 100
  /\ hp_historyWindowMessages (computeHistoryCompression tooling 100)
     <= hp_historyWindowMessages (computeHistoryCompression tooling 0)
  /\ hp_historySummaryMaxChars (computeHistoryCompression tooling 100)
     <= hp_historySummaryMaxChars (computeHistoryCompression tooling 0).
Proof.
  split; [lia|].
  apply (history_shrinks_with_compression tooling 0 100). lia.
Defined.

Lemma has_In set x : has set x = true <-> In x set.
Proof. apply MergeFacts.existsb_eqb_In. Qed.

Lemma uniqueInOrder_In xs : forall seen x,
  In x (uniqueInOrder seen xs) <-> In x xs /\ ~ In x seen.
Proof.
  induction xs as [|y r IH]; intros seen x; cbn [uniqueInOrder].
  - split; [intros [] | intros [[] _]].
  - destruct (has seen y) eqn:E.
    + rewrite IH. apply has_In in E. split.
      * intros [H1 H2]. split; [now right | exact H2].
      * intros [[<-|H1] H2]; [contradiction | now split].
    + assert (Hy : ~ In y seen).
      { intros H. apply has_In in H. congruence. }
      cbn [In]. rewrite IH. cbn [In]. split.
      * intros [<-|[H1 H2]]; [split; [now left | exact Hy]|].
        split; [now right | tauto].
      * intros [[<-|H1] H2]; [now left|].
        destruct (string_dec y x) as [->|Hne]; [now left|].
        right. split; [exact H1 | intros [?|?]; contradiction].
Qed.

Lemma uniqueInOrder_NoDup xs : forall seen, NoDup (uniqueInOrder seen xs).
Proof.
  induction xs as [|y r IH]; intros seen; cbn [uniqueInOrder].
  - constructor.
  - destruct (has seen y); [apply IH|].
    apply NoDup_cons. split; [|apply IH].
    rewrite list_elem_of_In, uniqueInOrder_In. cbn [In]. tauto.
Qed.

Lemma NoDup_List_filter {A} (f : A -> bool) (l : list A) :
  NoDup l -> NoDup (List.filter f l).
Proof.
  induction 1 as [|x l Hx Hl IH]; cbn [List.filter]; [constructor|].
  destruct (f x); [|exact IH].
  apply NoDup_cons. split; [|exact IH].
  rewrite list_elem_of_In, List.filter_In. rewrite list_elem_of_In in Hx. tauto.
Qed.

Lemma availableModels_buildRoutingDecision
    env cm prompt selectedModel tools settings :
  availableModels
    (buildRoutingDecision env cm prompt selectedModel tools settings)
  = List.filter (has CHAT_MODELS)
      (uniqueInOrder [] (tierModelsOf (pickTierModels env selectedModel))).
Proof. reflexivity. Qed.

Lemma model_buildRoutingDecision
    env cm prompt selectedModel tools settings :
  let d := buildRoutingDecision env cm prompt selectedModel tools settings in
  In (model d) (tierModelsOf (pickTierModels env selectedModel))
  /\ heavyModel d = tm_heavy (pickTierModels env selectedModel)
  /\ (tier d = heavy -> model d = heavyModel d).
Proof.
  cbv zeta. split; [|split; [reflexivity|]].
  - unfold buildRoutingDecision. cbv zeta. cbn [model tierModelsOf].
    match goal with |- In (match ?t with _ => _ end) _ => destruct t end;
      unfold tierModelsOf; cbn [In]; auto.
  - unfold buildRoutingDecision. cbv zeta. cbn [model tier heavyModel].
    intros ->. reflexivity.
Qed.

(** X6: the models offered with a decision are chat models without
    repetition, the token budget lies in [400, 8000] whatever the
    environment sets, a heavy decision runs on the heavy model, and
    escalation is allowed only from the light tier and only when the
    heavy model differs from the chosen model. *)
Theorem decision_well_formed env cm prompt selectedModel tools settings :
  let d := buildRoutingDecision env cm prompt selectedModel tools settings in
  NoDup (availableModels d)
  /\ Forall (fun m => In m CHAT_MODELS) (availableModels d)
  /\ 400 <= maxTokens d <= 8000
  /\ (tier d = heavy -> model d = heavyModel d)
  /\ (allowEscalation d = true -> tier d = light /\ model d <> heavyModel d).
Proof.
  cbv zeta. split; [|split; [|split; [|split]]].
  - rewrite availableModels_buildRoutingDecision.
    apply NoDup_List_filter, uniqueInOrder_NoDup.
  - rewrite availableModels_buildRoutingDecision.
    apply List.Forall_forall. intros m Hm. apply List.filter_In in Hm.
    now apply has_In.
  - unfold buildRoutingDecision. cbv zeta. cbn [maxTokens].
    match goal with |- _ <= match ?t with _ => _ end <= _ => destruct t end;
      rewrite RoutingFacts.clampInt_clamp by lia; unfold RoutingSpec.clamp; lia.
  - apply model_buildRoutingDecision.
  - unfold buildRoutingDecision. cbv zeta.
    cbn [allowEscalation tier model heavyModel].
    intros H. apply andb_true_iff in H. destruct H as [H1 H2].
    split.
    + match type of H1 with RoutingTier_eqb ?t light = true =>
        destruct t; try discriminate H1 end. reflexivity.
    + apply negb_true_iff, String.eqb_neq in H2. congruence.
Qed.

(** X7: routing stays with the provider of the selected model: when the
    selected model names one of the three providers, the chosen model and
    the heavy model are models of that provider and are among the models
    offered with the decision; a selected chat model is itself the heavy
    model. *)
Theorem routing_keeps_provider env cm prompt selectedModel tools settings :
  getProviderFromModelName selectedModel <> other ->
  let d := buildRoutingDecision env cm prompt selectedModel tools settings in
  getProviderFromModelName (model d) = getProviderFromModelName selectedModel
  /\ getProviderFromModelName (heavyModel d)
     = getProviderFromModelName selectedModel
  /\ In (model d) (availableModels d)
  /\ In (heavyModel d) (availableModels d)
  /\ (has CHAT_MODELS selectedModel = true -> heavyModel d = selectedModel).
Proof.
  intros Hprov. cbv zeta.
  pose proof (model_buildRoutingDecision env cm prompt selectedModel tools
                settings) as Hm. cbv zeta in Hm.
  destruct Hm as (Hin & Hheavy & _).
  rewrite Hheavy, availableModels_buildRoutingDecision.
  set (d := buildRoutingDecision env cm prompt selectedModel tools settings)
    in *.
  assert (Hall : forall m,
            In m (tierModelsOf (pickTierModels env selectedModel)) ->
            getProviderFromModelName m = getProviderFromModelName selectedModel
            /\ has CHAT_MODELS m = true).
  { intros m Hmem. unfold pickTierModels, tierModelsOf in Hmem.
    destruct (getProviderFromModelName selectedModel) eqn:Ep;
      [| | |contradiction];
      cbn [tm_light tm_tooling tm_heavy In] in Hmem;
      destruct (has CHAT_MODELS selectedModel) eqn:Ec;
      repeat (destruct Hmem as [<-|Hmem];
              [first [ split; [exact Ep | exact Ec]
                     | split; vm_compute; reflexivity ]|]);
      contradiction. }
  assert (Hoffered : forall m,
            In m (tierModelsOf (pickTierModels env selectedModel)) ->
            In m (List.filter (has CHAT_MODELS)
                    (uniqueInOrder []
                       (tierModelsOf (pickTierModels env selectedModel))))).
  { intros m Hmem. apply List.filter_In. split; [|now apply Hall].
    apply uniqueInOrder_In. split; [exact Hmem | intros []]. }
  assert (Hh : In (tm_heavy (pickTierModels env selectedModel))
                 (tierModelsOf (pickTierModels env selectedModel))).
  { unfold tierModelsOf. cbn [In]. auto. }
  split; [now apply Hall|]. split; [now apply Hall|].
  split; [now apply Hoffered|]. split; [now apply Hoffered|].
  intros Hc. unfold pickTierModels.
  destruct (getProviderFromModelName selectedModel);
    cbn [tm_heavy]; now rewrite Hc.
Qed.

Lemma routing_keeps_provider_witness :
  getProviderFromModelName "google/gemini-2.5-pro" <> other
  /\ let d := buildRoutingDecision defaultEnv noMatches "hello"
                "google/gemini-2.5-pro" noTools
                {| routingSensitivity := 55; historyCompression := 50 |} in
     getProviderFromModelName (model d)
     = getProviderFromModelName "google/gemini-2.5-pro"
     /\ getProviderFromModelName (heavyModel d)
        = getProviderFromModelName "google/gemini-2.5-pro"
     /\ In (model d) (availableModels d)
     /\ In (heavyModel d) (availableModels d)
     /\ (has CHAT_MODELS "google/gemini-2.5-pro" = true ->
         heavyModel d = "google/gemini-2.5-pro").
Proof.
  assert (H : getProviderFromModelName "google/gemini-2.5-pro" <> other)
    by (vm_compute; discriminate).
  split; [exact H|].
  exact (routing_keeps_provider defaultEnv noMatches "hello"
           "google/gemini-2.5-pro" noTools
           {| routingSensitivity := 55; historyCompression := 50 |} H).
Defined.

End RoutingBounds.

Module SanitizeFacts.
Import Store StringClass.

Lemma isIdChar_not_space c : Js.isIdChar c = true -> Js.isWhiteSpace c = false.
Proof. destruct c as [[] [] [] [] [] [] [] []]; vm_compute; congruence. Qed.

Lemma allChars_keepChars p s : allChars p (Js.keepChars p s) = true.
Proof.
  induction s as [|c r IH]; cbn [Js.keepChars allChars]; [reflexivity|].
  destruct (p c) eqn:E; [|exact IH]. cbn [allChars]. now rewrite E, IH.
Qed.

Lemma keepChars_id p s : allChars p s = true -> Js.keepChars p s = s.
Proof.
  induction s as [|c r IH]; cbn [Js.keepChars allChars]; [reflexivity|].
  intros H. apply andb_true_iff in H. destruct H as [Hc Hr].
  rewrite Hc. f_equal. now apply IH.
Qed.

Lemma trimEnd_id s :
  allChars (fun c => negb (Js.isWhiteSpace c)) s = true -> Js.trimEnd s = s.
Proof.
  induction s as [|c r IH]; cbn [Js.trimEnd allChars]; [reflexivity|].
  intros H. apply andb_true_iff in H. destruct H as [Hc Hr].
  rewrite (IH Hr). apply negb_true_iff in Hc. rewrite Hc.
  now destruct r.
Qed.

Lemma trim_id s :
  allChars (fun c => negb (Js.isWhiteSpace c)) s = true -> Js.trim s = s.
Proof.
  intros H. unfold Js.trim.
  assert (Hs : Js.trimStart s = s).
  { destruct s as [|c r]; [reflexivity|]. cbn [allChars] in H.
    apply andb_true_iff in H. destruct H as [Hc _].
    apply negb_true_iff in Hc. cbn [Js.trimStart]. now rewrite Hc. }
  rewrite Hs. now apply trimEnd_id.
Qed.

Lemma allChars_impl (p q : ascii -> bool) s :
  (forall c, p c = true -> q c = true) ->
  allChars p s = true -> allChars q s = true.
Proof.
  intros Hpq. induction s as [|c r IH]; cbn [allChars]; [reflexivity|].
  intros H. apply andb_true_iff in H. destruct H as [Hc Hr].
  now rewrite (Hpq _ Hc), IH.
Qed.

Lemma idChars_trim s : allChars Js.isIdChar s = true -> Js.trim s = s.
Proof.
  intros H. apply trim_id. revert H. apply allChars_impl.
  intros c Hc. now rewrite (isIdChar_not_space c Hc).
Qed.

(** A sanitized id is a fixed point of the sanitizer. *)
Lemma sanitizeConversationId_fixed s :
  s <> EmptyString -> allChars Js.isIdChar s = true ->
  sanitizeConversationId (Some s) = Some s.
Proof.
  intros Hne Hall. unfold sanitizeConversationId.
  destruct s as [|c r]; [contradiction|]. cbn [Js.isEmpty].
  rewrite idChars_trim by exact Hall. rewrite keepChars_id by exact Hall.
  reflexivity.
Qed.

Lemma sanitizeConversationId_Some value s :
  sanitizeConversationId value = Some s ->
  s <> EmptyString /\ allChars Js.isIdChar s = true.
Proof.
  unfold sanitizeConversationId. destruct value as [v|]; [|discriminate].
  destruct (Js.isEmpty v); [discriminate|].
  destruct (0 <? String.length _)%nat eqn:E; [|discriminate].
  intros H. inversion H; subst s. split; [|apply allChars_keepChars].
  intros Hs. rewrite Hs in E. discriminate E.
Qed.

Lemma stripSuffix_append c suffix :
  Js.stripSuffix suffix (c ++ suffix)%string = Some c.
Proof.
  unfold Js.stripSuffix. rewrite JsFacts.length_append.
  replace (String.length suffix <=? String.length c + String.length suffix)%nat
    with true by (symmetry; apply Nat.leb_le; lia).
  replace (String.length c + String.length suffix - String.length suffix)%nat
    with (String.length c) by lia.
  assert (H : forall a b : string,
             substring (String.length a) (String.length b) (a ++ b)%string = b
             /\ substring 0 (String.length a) (a ++ b)%string = a).
  { clear. induction a as [|x a IH]; intros b.
    - split; [apply JsFacts.substring_all | apply JsFacts.substring_0_0].
    - rewrite JsFacts.append_cons. cbn [String.length substring].
      destruct (IH b) as [H1 H2]. split; [exact H1 | now rewrite H2]. }
  destruct (H c suffix) as [H1 H2]. rewrite H1, H2, String.eqb_refl.
  reflexivity.
Qed.

(** X8: what [sanitizeConversationId] returns is a non-empty string of
    letters, digits, underscores and dashes, and the sanitizer returns it
    unchanged when it is applied again; the same holds of
    [sanitizeUserId] applied to that id. *)
Theorem sanitizeConversationId_idempotent value s :
  sanitizeConversationId value = Some s ->
  s <> EmptyString
  /\ allChars Js.isIdChar s = true
  /\ sanitizeConversationId (Some s) = Some s
  /\ sanitizeUserId (Some s) = Some s.
Proof.
  intros H. destruct (sanitizeConversationId_Some value s H) as [Hne Hall].
  split; [exact Hne|]. split; [exact Hall|].
  split; [now apply sanitizeConversationId_fixed|].
  unfold sanitizeUserId.
  rewrite idChars_trim by exact Hall. rewrite keepChars_id by exact Hall.
  destruct s; [contradiction | reflexivity].
Qed.

Lemma sanitizeConversationId_idempotent_witness :
  sanitizeConversationId (Some "  chat #42/a_b-c ") = Some "chat42a_b-c"
  /\ "chat42a_b-c" <> EmptyString
  /\ allChars Js.isIdChar "chat42a_b-c" = true
  /\ sanitizeConversationId (Some "chat42a_b-c") = Some "chat42a_b-c"
  /\ sanitizeUserId (Some "chat42a_b-c") = Some "chat42a_b-c".
Proof.
  assert (H : sanitizeConversationId (Some "  chat #42/a_b-c ")
              = Some "chat42a_b-c") by (vm_compute; reflexivity).
  split; [exact H|].
  exact (sanitizeConversationId_idempotent _ _ H).
Defined.

(** X9: the file path built for a sanitized conversation id gives the id
    back: [getConversationIdFromPath] inverts [buildConversationFilePath]
    on every id the sanitizer can return. *)
Theorem conversation_path_round_trip value s :
  sanitizeConversationId value = Some s ->
  getConversationIdFromPath (buildConversationFilePath s) = Some s.
Proof.
  intros H. destruct (sanitizeConversationId_Some value s H) as [Hne Hall].
  unfold getConversationIdFromPath, buildConversationFilePath. cbn [snd].
  rewrite stripSuffix_append. now apply sanitizeConversationId_fixed.
Qed.

Lemma conversation_path_round_trip_witness :
  sanitizeConversationId (Some " conversation7 ") = Some "conversation7"
  /\ getConversationIdFromPath (buildConversationFilePath "conversation7")
     = Some "conversation7".
Proof.
  assert (H : sanitizeConversationId (Some " conversation7 ")
              = Some "conversation7") by (vm_compute; reflexivity).
  split; [exact H|].
  exact (conversation_path_round_trip _ _ H).
Defined.

Lemma spacedOnce_collapseWs s : forall b,
  spacedOnce b (Js.collapseWs b s) = true.
Proof.
  induction s as [|c r IH]; intros b; cbn [Js.collapseWs]; [reflexivity|].
  destruct (Js.isWhiteSpace c) eqn:E.
  - destruct b; [apply IH|].
    cbn [spacedOnce]. change (Js.isWhiteSpace " ") with true.
    cbn [negb andb]. rewrite IH. reflexivity.
  - cbn [spacedOnce]. rewrite E. apply IH.
Qed.

Lemma spacedOnce_prefix s : forall n b,
  spacedOnce b s = true -> spacedOnce b (substring 0 n s) = true.
Proof.
  induction s as [|c r IH]; intros n b H.
  - now destruct n.
  - destruct n as [|n]; [reflexivity|].
    cbn [substring spacedOnce] in *.
    destruct (Js.isWhiteSpace c).
    + apply andb_true_iff in H. destruct H as [H1 H2].
      rewrite H1. cbn [andb]. now apply IH.
    + now apply IH.
Qed.

Lemma length_prefix s : forall n,
  String.length (substring 0 n s) = Nat.min n (String.length s).
Proof.
  induction s as [|c r IH]; intros [|n]; cbn [substring String.length];
    try reflexivity.
  now rewrite IH.
Qed.

Lemma trimEnd_head c r :
  Js.isWhiteSpace c = false ->
  exists r', Js.trimEnd (String c r) = String c r'.
Proof.
  intros Hc. cbn [Js.trimEnd]. rewrite Hc.
  destruct (Js.trimEnd r); eauto.
Qed.

Lemma trim_head s :
  Js.trim s = EmptyString
  \/ exists c r, Js.trim s = String c r /\ Js.isWhiteSpace c = false.
Proof.
  unfold Js.trim.
  assert (H : Js.trimStart s = EmptyString
              \/ exists c r, Js.trimStart s = String c r
                             /\ Js.isWhiteSpace c = false).
  { induction s as [|c r IH]; [now left|].
    cbn [Js.trimStart]. destruct (Js.isWhiteSpace c) eqn:E; [exact IH|].
    right. eauto. }
  destruct H as [->|(c & r & -> & Hc)]; [now left|].
  right. destruct (trimEnd_head c r Hc) as [r' Hr]. eauto.
Qed.

(** X10: a sanitized user name has between 1 and 120 characters, does not
    begin with white space, and its white space is made of single plain
    spaces (tabs, line breaks and runs of spaces are collapsed). *)
Theorem sanitizeUserName_shape value n :
  sanitizeUserName value = Some n ->
  (1 <= String.length n <= 120)%nat /\ spacedOnce true n = true.
Proof.
  unfold sanitizeUserName. destruct value as [v|]; [|discriminate].
  destruct (Js.isEmpty (Js.collapseWs false (Js.trim v))) eqn:E; [discriminate|].
  intros H. inversion H; subst n. clear H. unfold Js.sliceTo.
  rewrite length_prefix. split.
  - destruct (Js.collapseWs false (Js.trim v)); [discriminate E|].
    cbn [String.length]. lia.
  - apply spacedOnce_prefix.
    destruct (trim_head v) as [Ht|(c & r & Ht & Hc)]; rewrite Ht in *.
    + discriminate E.
    + cbn [Js.collapseWs]. rewrite Hc. cbn [spacedOnce]. rewrite Hc.
      apply spacedOnce_collapseWs.
Qed.

Lemma sanitizeUserName_shape_witness :
  sanitizeUserName (Some "  Ada   Lovelace ") = Some "Ada Lovelace"
  /\ (1 <= String.length "Ada Lovelace" <= 120)%nat
  /\ spacedOnce true "Ada Lovelace" = true.
Proof.
  assert (H : sanitizeUserName (Some "  Ada   Lovelace ")
              = Some "Ada Lovelace") by (vm_compute; reflexivity).
  split; [exact H|].
  exact (sanitizeUserName_shape _ _ H).
Defined.

End SanitizeFacts.

Module MimeExact.
Import Mime MimeMask.

Lemma at_is_true buf i v :
  at_is buf i v = true <->
  exists b, nth_error buf i = Some b /\ byteVal b = v.
Proof.
  unfold at_is. destruct (nth_error buf i) as [b|].
  - rewrite N.eqb_eq. split; [eauto | now intros (b' & [= <-] & H)].
  - split; [discriminate | now intros (b' & [=] & _)].
Qed.

Lemma at_is_byte buf i (x : byte) :
  at_is buf i (byteVal x) = true <-> nth_error buf i = Some x.
Proof.
  rewrite at_is_true. split.
  - intros (b & Hb & Hv). apply MimeFacts.byteVal_inj in Hv. now subst.
  - eauto.
Qed.

Lemma subarray_0_5 buf :
  subarray buf 0 5 = PDF_SIGNATURE -> beginsWith PDF_SIGNATURE buf.
Proof.
  unfold subarray, beginsWith, PDF_SIGNATURE. cbn [Nat.sub skipn].
  destruct buf as [|a [|b [|c [|d [|e rest]]]]]; try discriminate.
  cbn [firstn]. intros [= -> -> -> -> ->]. now exists rest.
Qed.

Lemma png_test buf :
  (8 <=? List.length buf)%nat
  && at_is buf 0 137 && at_is buf 1 80 && at_is buf 2 78 && at_is buf 3 71
  && at_is buf 4 13 && at_is buf 5 10 && at_is buf 6 26 && at_is buf 7 10
  = true
  <-> beginsWith PNG_SIGNATURE buf.
Proof.
  change 137%N with (byteVal x89). change 80%N with (byteVal x50).
  change 78%N with (byteVal x4e). change 71%N with (byteVal x47).
  change 13%N with (byteVal x0d). change 10%N with (byteVal x0a).
  change 26%N with (byteVal x1a).
  rewrite !andb_true_iff, !at_is_byte. split.
  - intros ((((((((_ & H0) & H1) & H2) & H3) & H4) & H5) & H6) & H7).
    destruct buf as [|b0 [|b1 [|b2 [|b3 [|b4 [|b5 [|b6 [|b7 rest]]]]]]]];
      try discriminate.
    cbn in *. exists rest. unfold PNG_SIGNATURE. cbn. congruence.
  - intros [rest ->]. repeat split.
Qed.

Lemma jpeg_test buf :
  (3 <=? List.length buf)%nat
  && at_is buf 0 255 && at_is buf 1 216 && at_is buf 2 255 = true
  <-> beginsWith JPEG_SIGNATURE buf.
Proof.
  change 255%N with (byteVal xff). change 216%N with (byteVal xd8).
  rewrite !andb_true_iff, !at_is_byte. split.
  - intros (((_ & H0) & H1) & H2).
    destruct buf as [|b0 [|b1 [|b2 rest]]]; try discriminate.
    cbn in *. exists rest. unfold JPEG_SIGNATURE. cbn. congruence.
  - intros [rest ->]. repeat split.
Qed.

Lemma string_of_list_ascii_inj (a b : list ascii) :
  string_of_list_ascii a = string_of_list_ascii b -> a = b.
Proof.
  intros H. apply (f_equal list_ascii_of_string) in H.
  now rewrite !list_ascii_of_string_of_list_ascii in H.
Qed.

Lemma ascii_of_N_low7_inj (b : byte) (c : ascii) :
  ascii_of_N (N.land (byteVal b) 127) = c <-> low7 b = N_of_ascii c.
Proof.
  unfold low7. split.
  - intros <-. destruct b; reflexivity.
  - intros H. rewrite H. apply ascii_N_embedding.
Qed.

Lemma toString_ascii_tag (buf : Buffer) (tag : Buffer) (lit : string) :
  List.map N_of_ascii (list_ascii_of_string lit) = List.map byteVal tag ->
  String.eqb (toString_ascii buf) lit = true <->
  List.map low7 buf = List.map byteVal tag.
Proof.
  intros Htag. rewrite String.eqb_eq. unfold toString_ascii.
  rewrite <- Htag. clear Htag tag. split.
  - intros H. rewrite <- (string_of_list_ascii_of_string lit) in H.
    apply string_of_list_ascii_inj in H.
    rewrite <- H, List.map_map. apply List.map_ext.
    intros b. now apply (proj1 (ascii_of_N_low7_inj b _)).
  - intros H. rewrite <- (string_of_list_ascii_of_string lit). f_equal.
    revert H. generalize (list_ascii_of_string lit). clear lit.
    induction buf as [|b r IH]; intros [|c l] H; try discriminate;
      [reflexivity|].
    cbn [List.map] in *. inversion H as [[H1 H2]].
    f_equal; [now apply ascii_of_N_low7_inj | now apply IH].
Qed.

Lemma webp_test buf :
  (12 <=? List.length buf)%nat
  && String.eqb (toString_ascii (subarray buf 0 4)) "RIFF"
  && String.eqb (toString_ascii (subarray buf 8 12)) "WEBP" = true
  <-> isRiffWebpLow7 buf.
Proof.
  rewrite !andb_true_iff.
  rewrite (toString_ascii_tag _ RIFF_TAG) by reflexivity.
  rewrite (toString_ascii_tag _ WEBP_TAG) by reflexivity.
  split.
  - intros ((Hlen & Hr) & Hw). apply Nat.leb_le in Hlen.
    destruct buf as
      [|r0 [|r1 [|r2 [|r3 [|b4 [|b5 [|b6 [|b7 [|w0 [|w1 [|w2 [|w3 rest]]]]]]]]]]]];
      cbn [List.length] in Hlen; try lia.
    exists r0, r1, r2, r3, b4, b5, b6, b7, w0, w1, w2, w3, rest.
    split; [reflexivity|]. split; [exact Hr | exact Hw].
  - intros (r0 & r1 & r2 & r3 & b4 & b5 & b6 & b7 & w0 & w1 & w2 & w3 & rest
            & -> & Hr & Hw).
    split; [split|]; [reflexivity | exact Hr | exact Hw].
Qed.

Lemma low7_first_byte (b : byte) :
  low7 b = 82%N -> byteVal b <> 37%N /\ byteVal b <> 137%N /\ byteVal b <> 255%N.
Proof. destruct b; vm_compute; intros H; try discriminate H; repeat split; discriminate. Qed.

Lemma detect_pdf_iff buf :
  detectMimeFromBinary buf = Some "application/pdf"
  <-> beginsWith PDF_SIGNATURE buf.
Proof.
  split; [|apply MimeFacts.detect_pdf].
  unfold detectMimeFromBinary.
  destruct (_ && toString_utf8_is _ _) eqn:E.
  - intros _. apply andb_true_iff in E. destruct E as [_ E].
    apply MimeFacts.toString_utf8_is_pdf in E. now apply subarray_0_5.
  - repeat match goal with
           | |- (if ?c then _ else _) = _ -> _ => destruct c
           end; discriminate.
Qed.

Lemma detect_png_iff buf :
  detectMimeFromBinary buf = Some "image/png"
  <-> beginsWith PNG_SIGNATURE buf.
Proof.
  split; [|apply MimeFacts.detect_png].
  unfold detectMimeFromBinary.
  destruct (_ && toString_utf8_is _ _); [discriminate|].
  match goal with |- (if ?c then _ else _) = _ -> _ =>
    destruct c eqn:E end.
  - intros _. now apply png_test.
  - repeat match goal with
           | |- (if ?c then _ else _) = _ -> _ => destruct c
           end; discriminate.
Qed.

Lemma detect_jpeg_iff buf :
  detectMimeFromBinary buf = Some "image/jpeg"
  <-> beginsWith JPEG_SIGNATURE buf.
Proof.
  split; [|apply MimeFacts.detect_jpeg].
  unfold detectMimeFromBinary.
  destruct (_ && toString_utf8_is _ _); [discriminate|].
  match goal with |- (if ?c then _ else _) = _ -> _ =>
    destruct c end; [discriminate|].
  match goal with |- (if ?c then _ else _) = _ -> _ =>
    destruct c eqn:E end.
  - intros _. now apply jpeg_test.
  - repeat match goal with
           | |- (if ?c then _ else _) = _ -> _ => destruct c
           end; discriminate.
Qed.

Lemma detect_webp_iff buf :
  detectMimeFromBinary buf = Some "image/webp" <-> isRiffWebpLow7 buf.
Proof.
  split.
  - unfold detectMimeFromBinary.
    destruct (_ && toString_utf8_is _ _); [discriminate|].
    match goal with |- (if ?c then _ else _) = _ -> _ =>
      destruct c end; [discriminate|].
    match goal with |- (if ?c then _ else _) = _ -> _ =>
      destruct c end; [discriminate|].
    match goal with |- (if ?c then _ else _) = _ -> _ =>
      destruct c eqn:E end; [|discriminate].
    intros _. now apply webp_test.
  - intros Hw. pose proof (proj2 (webp_test buf) Hw) as Ht.
    destruct Hw as (r0 & r1 & r2 & r3 & b4 & b5 & b6 & b7 & w0 & w1 & w2 & w3
                    & rest & -> & Hr & _).
    cbn [List.map] in Hr. injection Hr as Hr0 _ _ _.
    destruct (low7_first_byte r0 Hr0) as (H37 & H137 & H255).
    unfold detectMimeFromBinary. rewrite Ht.
    rewrite MimeFacts.pdf_test_false.
    2:{ unfold subarray, PDF_SIGNATURE. cbn. intros [= ->]. now apply H37. }
    rewrite andb_false_r.
    assert (E137 : at_is ([r0; r1; r2; r3; b4; b5; b6; b7; w0; w1; w2; w3]
                          ++ rest)%list 0 137 = false).
    { unfold at_is. cbn. now apply N.eqb_neq. }
    assert (E255 : at_is ([r0; r1; r2; r3; b4; b5; b6; b7; w0; w1; w2; w3]
                          ++ rest)%list 0 255 = false).
    { unfold at_is. cbn. now apply N.eqb_neq. }
    rewrite E137, E255, !andb_false_r. cbn [andb]. reflexivity.
Qed.

(** X11: the PDF, PNG and JPEG answers of [detectMimeFromBinary] are
    exact: it returns "application/pdf" exactly for the buffers that begin
    with the bytes of "%PDF-" (the UTF-8 decoding accepts nothing else),
    "image/png" exactly for those that begin with the eight bytes of the
    PNG signature, and "image/jpeg" exactly for those that begin with
    FF D8 FF. *)
Theorem detect_exact_signatures buf :
  (detectMimeFromBinary buf = Some "application/pdf"
   <-> beginsWith PDF_SIGNATURE buf)
  /\ (detectMimeFromBinary buf = Some "image/png"
      <-> beginsWith PNG_SIGNATURE buf)
  /\ (detectMimeFromBinary buf = Some "image/jpeg"
      <-> beginsWith JPEG_SIGNATURE buf).
Proof.
  split; [apply detect_pdf_iff|].
  split; [apply detect_png_iff | apply detect_jpeg_iff].
Qed.

(** X12: [detectMimeFromBinary] returns "image/webp" exactly for the
    buffers of at least twelve bytes whose bytes 0-3 and 8-11, each read
    without its highest bit, are "RIFF" and "WEBP"; and it returns null
    exactly when the buffer is of none of the four kinds. *)
Theorem detect_webp_up_to_high_bit buf :
  (detectMimeFromBinary buf = Some "image/webp" <-> isRiffWebpLow7 buf)
  /\ (detectMimeFromBinary buf = None
      <-> ~ beginsWith PDF_SIGNATURE buf /\ ~ beginsWith PNG_SIGNATURE buf
          /\ ~ beginsWith JPEG_SIGNATURE buf /\ ~ isRiffWebpLow7 buf).
Proof.
  split; [apply detect_webp_iff|].
  rewrite <- detect_pdf_iff, <- detect_png_iff, <- detect_jpeg_iff,
    <- detect_webp_iff.
  split.
  - intros ->. repeat split; discriminate.
  - intros (H1 & H2 & H3 & H4).
    assert (Hcases : forall r, detectMimeFromBinary buf = r ->
              r = None \/ r = Some "application/pdf" \/ r = Some "image/png"
              \/ r = Some "image/jpeg" \/ r = Some "image/webp").
    { intros r <-. unfold detectMimeFromBinary.
      repeat match goal with
             | |- context [if ?c then _ else _] => destruct c
             end; tauto. }
    destruct (Hcases _ eq_refl) as [H|[H|[H|[H|H]]]];
      [exact H | contradiction..].
Qed.

End MimeExact.

Module ToolCacheFacts.
Import ToolCache.

Lemma ttlOf_floor setting : 30000 <= ttlOf setting.
Proof. destruct setting; cbn [ttlOf]; lia. Qed.

Lemma get_after_set setting now now' k v c :
  getCachedToolContext now' k (setCachedToolContext setting now k v c)
  = if now + ttlOf setting <=? now'
    then (None, delete k c)
    else (Some v, setCachedToolContext setting now k v c).
Proof.
  unfold getCachedToolContext, setCachedToolContext. cbv zeta.
  rewrite lookup_insert_eq. cbn [expiresAt value].
  destruct (now + ttlOf setting <=? now'); [|reflexivity].
  now rewrite delete_insert_eq.
Qed.

(** X13: a context stored at time [now] is served, and the cache left as
    it is, at every time before [now] plus the time to live; that time is
    never shorter than 30 seconds, whatever the environment sets; from
    then on the lookup answers null and removes the entry. *)
Theorem cached_context_lifetime setting now now' k v c :
  let c1 := setCachedToolContext setting now k v c in
  (now' < now + 30000 -> getCachedToolContext now' k c1 = (Some v, c1))
  /\ (now' < now + ttlOf setting ->
      getCachedToolContext now' k c1 = (Some v, c1))
  /\ (now + ttlOf setting <= now' ->
      getCachedToolContext now' k c1 = (None, delete k c)).
Proof.
  cbv zeta. pose proof (ttlOf_floor setting) as Hfloor.
  rewrite get_after_set.
  destruct (Z.leb_spec (now + ttlOf setting) now'); repeat split; intros;
    first [reflexivity | lia].
Qed.

(** A lookup never serves an expired entry and never leaves one
    behind for its key: after a miss the key has no entry, a hit returns
    the stored value of an entry that expires later and changes nothing,
    and the entries of the other keys are never touched. *)
Lemma lookup_purges_expired now k c :
  let '(answer, c') := getCachedToolContext now k c in
  (answer = None -> c' !! k = None)
  /\ (forall v, answer = Some v ->
        c' = c /\ exists e, c !! k = Some e /\ value e = v /\ now < expiresAt e)
  /\ (forall k', k' <> k -> c' !! k' = c !! k').
Proof.
  unfold getCachedToolContext.
  destruct (c !! k) as [e|] eqn:E.
  - destruct (Z.leb_spec (expiresAt e) now) as [Hle|Hlt].
    + split; [intros _; apply lookup_delete_eq|].
      split; [intros v [=]|].
      intros k' Hne. now apply lookup_delete_ne.
    + split; [intros [=]|]. split; [|reflexivity].
      intros v [= <-]. split; [reflexivity|]. now exists e.
  - split; [intros _; exact E|]. split; [intros v [=] | reflexivity].
Qed.



End ToolCacheFacts.

Module StreamFacts.
Import Store Stream StringClass.

Lemma latestFrom_Some fromLast t :
  latestFrom fromLast = Some t <->
  exists later m earlier,
    fromLast = (later ++ m :: earlier)%list
    /\ Forall (fun m' => ~ speaks m') later
    /\ speaks m /\ Js.trim (extractTextFromUIMessage m) = t.
Proof.
  induction fromLast as [|m r IH]; cbn [latestFrom].
  - split; [discriminate|]. intros (later & m & earlier & H & _).
    destruct later; discriminate H.
  - assert (Hskip : ~ speaks m ->
              (latestFrom r = Some t <->
               exists later m0 earlier,
                 m :: r = (later ++ m0 :: earlier)%list
                 /\ Forall (fun m' => ~ speaks m') later
                 /\ speaks m0 /\ Js.trim (extractTextFromUIMessage m0) = t)).
    { intros Hns. rewrite IH. split.
      - intros (later & m0 & earlier & -> & Hl & Hs & Ht).
        exists (m :: later), m0, earlier.
        split; [reflexivity|]. split; [now constructor|]. now split.
      - intros (later & m0 & earlier & Heq & Hl & Hs & Ht).
        destruct later as [|x later]; cbn in Heq; inversion Heq; subst.
        + contradiction.
        + exists later, m0, earlier. inversion Hl; subst. tauto. }
    destruct (ui_role m) eqn:Er;
      try (apply Hskip; intros [Hu _]; congruence).
    destruct (Js.isEmpty (Js.trim (extractTextFromUIMessage m))) eqn:Ee;
      cbn [negb].
    + apply Hskip. intros [_ Hn]. apply Hn.
      now destruct (Js.trim (extractTextFromUIMessage m)).
    + assert (Hs : speaks m).
      { split; [exact Er|]. intros Hn. rewrite Hn in Ee. discriminate Ee. }
      split.
      * intros [= <-]. exists [], m, r.
        split; [reflexivity|]. split; [constructor|]. now split.
      * intros (later & m0 & earlier & Heq & Hl & Hs0 & Ht).
        destruct later as [|x later]; cbn in Heq; inversion Heq; subst.
        -- reflexivity.
        -- inversion Hl; subst. contradiction.
Qed.

Lemma latestFrom_None fromLast :
  latestFrom fromLast = None <-> Forall (fun m' => ~ speaks m') fromLast.
Proof.
  induction fromLast as [|m r IH]; cbn [latestFrom].
  - split; [constructor | reflexivity].
  - assert (Hskip : ~ speaks m ->
              (latestFrom r = None <->
               Forall (fun m' => ~ speaks m') (m :: r))).
    { intros Hns. rewrite IH. split.
      - intros H. now constructor.
      - intros H. now inversion H. }
    destruct (ui_role m) eqn:Er;
      try (apply Hskip; intros [Hu _]; congruence).
    destruct (Js.isEmpty (Js.trim (extractTextFromUIMessage m))) eqn:Ee;
      cbn [negb].
    + apply Hskip. intros [_ Hn]. apply Hn.
      now destruct (Js.trim (extractTextFromUIMessage m)).
    + split; [discriminate|]. intros H. inversion H as [|? ? Hn _]; subst.
      exfalso. apply Hn. split; [exact Er|].
      intros Hn'. rewrite Hn' in Ee. discriminate Ee.
Qed.

(** X16: [getLatestUserMessage] returns the trimmed text of the last
    message that has the role user and text that is not blank, skipping
    assistant and system messages and blank user messages behind it; it
    returns null exactly when the request has no such message. *)
Theorem latest_user_message messages :
  (forall t,
     getLatestUserMessage messages = Some t <->
     exists before m after,
       messages = (before ++ m :: after)%list
       /\ speaks m /\ Js.trim (extractTextFromUIMessage m) = t
       /\ Forall (fun m' => ~ speaks m') after)
  /\ (getLatestUserMessage messages = None <->
      Forall (fun m' => ~ speaks m') messages).
Proof.
  unfold getLatestUserMessage. split.
  - intros t. rewrite latestFrom_Some. split.
    + intros (later & m & earlier & Heq & Hl & Hs & Ht).
      exists (rev earlier), m, (rev later).
      split.
      { apply (f_equal (@rev _)) in Heq. rewrite rev_involutive in Heq.
        rewrite Heq, rev_app_distr. cbn [rev]. now rewrite <- app_assoc. }
      split; [exact Hs|]. split; [exact Ht|].
      apply List.Forall_forall. intros x Hx. apply in_rev in Hx.
      rewrite List.Forall_forall in Hl. now apply Hl.
    + intros (before & m & after & -> & Hs & Ht & Ha).
      exists (rev after), m, (rev before).
      split; [rewrite rev_app_distr; cbn [rev]; now rewrite <- app_assoc|].
      split; [|tauto].
      apply List.Forall_forall. intros x Hx. apply in_rev in Hx.
      rewrite List.Forall_forall in Ha. now apply Ha.
  - rewrite latestFrom_None. split; intros H; apply List.Forall_forall;
      intros x Hx; rewrite List.Forall_forall in H; apply H.
    + now apply in_rev in Hx.
    + now apply in_rev.
Qed.

Lemma span_spec p s :
  let '(tok, rest) := span p s in
  s = (tok ++ rest)%string
  /\ allChars p tok = true
  /\ match rest with String c _ => p c = false | EmptyString => True end.
Proof.
  induction s as [|c r IH]; cbn [span]; [repeat split|].
  destruct (p c) eqn:E.
  - destruct (span p r) as [tok rest]. destruct IH as (-> & Ha & Hr).
    rewrite JsFacts.append_cons. cbn [allChars]. rewrite E. tauto.
  - cbn [allChars]. repeat split. exact E.
Qed.

Lemma append_empty_r (s : string) : (s ++ EmptyString)%string = s.
Proof.
  induction s as [|c r IH]; [reflexivity|].
  rewrite JsFacts.append_cons. now rewrite IH.
Qed.

(** What the matches of a text are: runs that add up to the text, of
    alternating kinds. *)
Lemma matchAll_spec fuel : forall s,
  (String.length s <= fuel)%nat ->
  String.concat EmptyString (matchAll fuel s) = s
  /\ forallb isRun (matchAll fuel s) = true
  /\ alternate (matchAll fuel s) = true
  /\ match matchAll fuel s, s with
     | tok :: _, String c _ => startsWithSpace tok = Js.isWhiteSpace c
     | [], EmptyString => True
     | _, _ => False
     end.
Proof.
  induction fuel as [|fuel IH]; intros s Hlen.
  - destruct s; [repeat split | cbn in Hlen; lia].
  - destruct s as [|c r]; [repeat split|].
    cbn [matchAll].
    set (p := if Js.isWhiteSpace c then Js.isWhiteSpace else notWhiteSpace).
    replace (if Js.isWhiteSpace c then span Js.isWhiteSpace (String c r)
             else span notWhiteSpace (String c r))
      with (span p (String c r)) by (unfold p; now destruct (Js.isWhiteSpace c)).
    assert (Hpc : p c = true).
    { unfold p, notWhiteSpace. now destruct (Js.isWhiteSpace c) eqn:E; rewrite E. }
    pose proof (span_spec p (String c r)) as Hsp.
    cbn [span] in Hsp |- *. rewrite Hpc in Hsp |- *.
    destruct (span p r) as [tok rest].
    destruct Hsp as (Heq & Hall & Hrest).
    rewrite JsFacts.append_cons in Heq. injection Heq as Heq.
    assert (Hlr : (String.length rest <= fuel)%nat).
    { apply (f_equal String.length) in Heq.
      rewrite JsFacts.length_append in Heq. cbn [String.length] in Hlen. lia. }
    destruct (IH rest Hlr) as (Hcat & Hruns & Halt & Hhead).
    assert (Hrun : isRun (String c tok) = true).
    { unfold isRun. cbn [Js.isEmpty negb andb].
      unfold p in Hall. destruct (Js.isWhiteSpace c); rewrite Hall;
        [reflexivity | apply orb_true_r]. }
    split; [|split; [|split]].
    + cbn [String.concat].
      destruct (matchAll fuel rest) as [|tok' toks] eqn:Em.
      * destruct rest; [|contradiction]. subst r.
        now rewrite append_empty_r.
      * rewrite Hcat. change (EmptyString ++ rest)%string with rest.
        now rewrite Heq.
    + cbn [forallb]. now rewrite Hrun, Hruns.
    + cbn [alternate]. destruct (matchAll fuel rest) as [|tok' toks] eqn:Em;
        [reflexivity|].
      rewrite Halt, andb_true_r. cbn [startsWithSpace].
      destruct rest as [|d rest']; [contradiction|].
      rewrite Hhead. unfold p, notWhiteSpace in Hrest.
      destruct (Js.isWhiteSpace c); [now rewrite Hrest|].
      apply negb_false_iff in Hrest. now rewrite Hrest.
    + reflexivity.
Qed.

(** X17: the tokens of [splitIntoStreamingTokens] put together give the
    text back, character for character; each token is a non-empty run of
    white space or a non-empty run of other characters; neighbouring
    tokens are of different kinds, so the runs are maximal; and only the
    empty text has no token. *)
Theorem streaming_tokens_partition text :
  let tokens := splitIntoStreamingTokens text in
  String.concat EmptyString tokens = text
  /\ forallb isRun tokens = true
  /\ alternate tokens = true
  /\ (tokens = [] <-> text = EmptyString).
Proof.
  cbv zeta. unfold splitIntoStreamingTokens.
  destruct text as [|c r]; [repeat split|].
  cbn [Js.isEmpty].
  destruct (matchAll_spec (String.length (String c r)) (String c r)
              (Nat.le_refl _)) as (Hcat & Hruns & Halt & Hhead).
  destruct (matchAll (String.length (String c r)) (String c r))
    as [|tok toks]; [contradiction|].
  repeat split; try assumption; discriminate.
Qed.

End StreamFacts.

Module WriteFootprint.
Import AtomicWrite.

(** X19: [atomicWriteJson] touches two paths only, the target and its
    temporary file: every other path reads the same in every state a
    reader can observe during the call and in the state it leaves,
    whatever goes wrong; and a call that resolves leaves the new text in
    the target and no temporary file. *)
Theorem atomicWriteJson_footprint
    pid uuid faults fs filePath serialized (other : Path) :
  other <> filePath ->
  other <> tempPathOf pid uuid filePath ->
  let run := atomicWriteJson pid uuid faults fs filePath serialized in
  Forall (fun s : FileSystem => s !! other = fs !! other) (observable run)
  /\ final run !! other = fs !! other
  /\ (outcome run = Resolved ->
      final run !! filePath = Some serialized
      /\ final run !! tempPathOf pid uuid filePath = None).
Proof.
  intros Hne Hnt. cbv zeta.
  pose proof (AtomicWriteFacts.tempPath_fresh pid uuid filePath) as Hfresh.
  unfold atomicWriteJson.
  destruct (mkdirFails faults).
  { cbn. split; [repeat constructor|]. split; [reflexivity | discriminate]. }
  pose proof (AtomicWriteFacts.writeFile_other fs
                (tempPathOf pid uuid filePath) serialized
                (writeStopsAfter faults) other Hnt) as Hw.
  destruct (writeFile _ _ _ _) as [[states fs1] ok] eqn:Ew.
  destruct Hw as [Hstates Hfs1].
  destruct ok; cbn [negb].
  2:{ cbn. split; [now constructor|]. split; [exact Hfs1 | discriminate]. }
  destruct (renameFails faults).
  - assert (Hfs2 : (if unlinkFails faults then fs1
                    else unlink fs1 (tempPathOf pid uuid filePath)) !! other
                   = fs !! other).
    { destruct (unlinkFails faults); [exact Hfs1|].
      unfold unlink. now rewrite lookup_delete_ne by (apply not_eq_sym; exact Hnt). }
    cbn. split; [|split; [exact Hfs2 | discriminate]].
    constructor; [reflexivity|]. apply Forall_app. split; [exact Hstates|].
    constructor; [exact Hfs2 | constructor].
  - destruct (writeStopsAfter faults) eqn:Est.
    { unfold writeFile in Ew. inversion Ew. }
    rewrite AtomicWriteFacts.writeFile_complete in Ew.
    injection Ew as Es Ef. clear Es. subst fs1.
    assert (Hfs2 : rename (<[tempPathOf pid uuid filePath := serialized]> fs)
                     (tempPathOf pid uuid filePath) filePath !! other
                   = fs !! other).
    { unfold rename. rewrite lookup_insert_eq.
      rewrite lookup_insert_ne by (apply not_eq_sym; exact Hne).
      rewrite lookup_delete_ne by (apply not_eq_sym; exact Hnt).
      now apply lookup_insert_ne, not_eq_sym. }
    cbn. split; [|split; [exact Hfs2|]].
    + constructor; [reflexivity|]. apply Forall_app. split; [exact Hstates|].
      constructor; [exact Hfs2 | constructor].
    + intros _. unfold rename. rewrite lookup_insert_eq. split.
      * apply lookup_insert_eq.
      * rewrite lookup_insert_ne by (apply not_eq_sym; exact Hfresh).
        apply lookup_delete_eq.
Qed.

Lemma atomicWriteJson_footprint_witness :
  join "dedalus_stuff" "globalInfo.json" <> bundlePath
  /\ join "dedalus_stuff" "globalInfo.json" <> tempPathOf "4242" "uuid" bundlePath
  /\ let run := atomicWriteJson "4242" "uuid" stopsAfterTwo diskWithBundle
                  bundlePath newText in
     Forall (fun s : FileSystem =>
               s !! join "dedalus_stuff" "globalInfo.json"
               = diskWithBundle !! join "dedalus_stuff" "globalInfo.json")
       (observable run)
     /\ final run !! join "dedalus_stuff" "globalInfo.json"
        = diskWithBundle !! join "dedalus_stuff" "globalInfo.json"
     /\ (outcome run = Resolved ->
         final run !! bundlePath = Some newText
         /\ final run !! tempPathOf "4242" "uuid" bundlePath = None).
Proof.
  assert (H1 : join "dedalus_stuff" "globalInfo.json" <> bundlePath)
    by (vm_compute; discriminate).
  assert (H2 : join "dedalus_stuff" "globalInfo.json"
               <> tempPathOf "4242" "uuid" bundlePath)
    by (vm_compute; discriminate).
  split; [exact H1|]. split; [exact H2|].
  exact (atomicWriteJson_footprint "4242" "uuid" stopsAfterTwo diskWithBundle
           bundlePath newText _ H1 H2).
Defined.

End WriteFootprint.

Module MergeOrder.
Import Store StoreSpec.

Lemma unseen_sub incoming : forall seen m,
  In m (unseen seen incoming) -> In m incoming.
Proof.
  induction incoming as [|m0 r IH]; intros seen m; cbn [unseen]; [intros []|].
  destruct (existsb _ seen).
  - intros H. right. eapply IH, H.
  - intros [<-|H]; [now left|]. right. eapply IH, H.
Qed.

(** X21: on a conversation that has stored messages with distinct ids a
    snapshot keeps the ids distinct: the stored messages stay in front,
    in their order, what is appended are incoming messages, and every
    incoming message is represented by its id in the result. *)
Theorem merge_keeps_ids_distinct existing incoming :
  existing <> [] ->
  NoDup (List.map id existing) ->
  let merged := mergeStoredMessagesPreservingExisting existing incoming in
  NoDup (List.map id merged)
  /\ (exists appended,
        merged = (existing ++ appended)%list
        /\ forall m, In m appended -> In m incoming)
  /\ (forall m, In m incoming -> In (id m) (List.map id merged)).
Proof.
  intros Hne Hnd. cbv zeta.
  rewrite MergeFacts.merge_nonempty_existing by exact Hne.
  split; [now apply MergeFacts.mergeById_NoDup|]. split.
  - exists (unseen (List.map id existing) incoming).
    split; [reflexivity|]. intros m. apply unseen_sub.
  - intros m Hm. unfold mergeById. rewrite map_app. apply in_or_app.
    destruct (MergeFacts.unseen_covers incoming (List.map id existing) m Hm);
      [now left | now right].
Qed.

Lemma merge_keeps_ids_distinct_witness :
  let stored := {| id := "m1"; role := user; text := "hello";
                   created_at := "t0" |} in
  let again := {| id := "m1"; role := user; text := "hello again";
                  created_at := "t1" |} in
  let reply := {| id := "m2"; role := assistant; text := "hi";
                  created_at := "t2" |} in
  [stored] <> []
  /\ NoDup (List.map id [stored])
  /\ mergeStoredMessagesPreservingExisting [stored] [again; reply; reply]
     = [stored; reply]
  /\ NoDup (List.map id
              (mergeStoredMessagesPreservingExisting [stored]
                 [again; reply; reply])).
Proof.
  cbv zeta.
  assert (H1 : [{| id := "m1"; role := user; text := "hello";
                   created_at := "t0" |}] <> []) by discriminate.
  assert (H2 : NoDup (List.map id [{| id := "m1"; role := user;
                                      text := "hello"; created_at := "t0" |}])).
  { cbn. apply NoDup_singleton. }
  split; [exact H1|]. split; [exact H2|]. split; [reflexivity|].
  exact (proj1 (merge_keeps_ids_distinct _
                  [{| id := "m1"; role := user; text := "hello again";
                      created_at := "t1" |};
                   {| id := "m2"; role := assistant; text := "hi";
                      created_at := "t2" |};
                   {| id := "m2"; role := assistant; text := "hi";
                      created_at := "t2" |}] H1 H2)).
Defined.

End MergeOrder.

Module StoreErrors.
Import Store StoreSpec StoreScenario ListingFacts StoreView.

(** X22: with [allowCreate: false] a snapshot creates nothing: for an id
    that sanitizes to nothing it throws the missing-active-conversation
    error, and for an id without a bundle file it throws the ENOENT error
    of the read; in both cases the directory, the global info and the
    clock are as before. *)
Theorem persist_without_create P target msgs o w :
  allowCreate o = Some false ->
  match sanitizeConversationId target with
  | None =>
      persistPromptSnapshot P target msgs (Some o) w
      = (Throw MissingActiveConversationId, w)
  | Some sid =>
      lookupFile (sid ++ ".json")%string (files w) = None ->
      persistPromptSnapshot P target msgs (Some o) w = (Throw ENOENT, w)
  end.
Proof.
  intros Hallow. unfold persistPromptSnapshot. rewrite Hallow. cbv zeta.
  unfold bind at 1. unfold ensureExistingConversationRecord.
  destruct (sanitizeConversationId target) as [sid|]; [|reflexivity].
  intros Habs. cbv zeta. unfold bind at 1. unfold loadBundle, bind.
  now rewrite (StoreFacts.readJson_absent sid w Habs).
Qed.

Lemma persist_without_create_witness :
  allowCreate {| allowCreate := Some false; opt_modelName := None;
                 opt_userId := None; opt_userName := None |} = Some false
  /\ persistPromptSnapshot testPlatform (Some "conversation9")
       [userText "m1" "hello"]
       (Some {| allowCreate := Some false; opt_modelName := None;
                opt_userId := None; opt_userName := None |})
       oneConversation
     = (Throw ENOENT, oneConversation).
Proof.
  split; [reflexivity|].
  exact (persist_without_create testPlatform (Some "conversation9")
           [userText "m1" "hello"]
           {| allowCreate := Some false; opt_modelName := None;
              opt_userId := None; opt_userName := None |}
           oneConversation eq_refl eq_refl).
Defined.

(** X23: [deleteConversationForUi] on a conversation that is not listed
    (no file, or a file that is not JSON) throws the not-found error and
    leaves every file and the global info as they were; on an id that
    sanitizes to nothing it throws the missing-id error before reading
    anything. *)
Theorem delete_unknown_conversation P w target preferred :
  match sanitizeConversationId target with
  | None =>
      deleteConversationForUi P target preferred w
      = (Throw MissingConversationId, w)
  | Some sid =>
      ~ In sid (listedIds P (files w)) ->
      exists w',
        deleteConversationForUi P target preferred w
        = (Throw ConversationNotFound, w')
        /\ sameDisk w w'
  end.
Proof.
  unfold deleteConversationForUi.
  destruct (sanitizeConversationId target) as [sid|]; [|reflexivity].
  intros Hnot. unfold bind at 1.
  destruct (listConversationsForUi_spec P w)
    as (l & w' & Hrun & Hd & _ & Hperm & _).
  rewrite Hrun. exists w'. split; [|exact Hd].
  destruct (existsb _ l) eqn:E; [|reflexivity].
  apply existsb_id in E. exfalso. apply Hnot.
  eapply Permutation_in; eassumption.
Qed.




(** A directory with a bundle dated t10, a file that holds the number
    42, a file that is not JSON and a text file, listed when the clock
    reads t100: the number is listed as a conversation, dated by the
    clock during the call (its second reading), ahead of the bundle. *)
Example listing_of_mixed_directory :
  exists l w',
    listConversationsForUi testPlatform mixedDirectory = (Ok l, w')
    /\ List.map (fun c => (sum_conversationId c, updatedAt c, messageCount c)) l
       = [("42", "t101", 0%nat); ("conversation1", "t10", 0%nat)].
Proof. eexists _, _. split; vm_compute; reflexivity. Qed.

End StoreErrors.

Module AppendTwice.
Import Store StoreSpec StoreScenario ListingFacts StoreView.

(** Loading keeps the role and the text of every message that is not
    blank, in order. *)
Lemma normalizeStoredMessages_said P ms : forall w,
  exists l w',
    normalizeStoredMessages P ms w = (Ok l, w')
    /\ sameDisk w w'
    /\ List.map said l = List.map said (nonBlank ms).
Proof.
  induction ms as [|m r IH]; intros w;
    cbn [normalizeStoredMessages nonBlank List.filter].
  - exists [], w. repeat split; reflexivity.
  - destruct (Js.isEmpty (Js.trim (text m))) eqn:E; cbn [negb].
    + apply IH.
    + unfold bind.
      destruct (0 <? String.length (id m))%nat.
      * unfold ret at 1.
        destruct (IH w) as (l & w' & Hrun & Hd & Hs).
        fold (nonBlank r). rewrite Hrun.
        eexists _, w'. split; [reflexivity|]. split; [exact Hd|].
        cbn [List.map]. now rewrite Hs.
      * unfold createMessageId.
        destruct (IH (tick w)) as (l & w' & Hrun & Hd & Hs).
        fold (nonBlank r). rewrite Hrun.
        eexists _, w'. split; [reflexivity|]. split.
        { eapply sameDisk_trans; [apply sameDisk_tick | exact Hd]. }
        cbn [List.map]. now rewrite Hs.
Qed.

Lemma loadBundle_said P fileName cid raw w :
  lookupFile fileName (files w) = Some (BundleJson raw) ->
  exists ms w',
    loadBundle P (CONVERSATIONS_DIR, fileName) cid w
    = (Ok (normalizedWith P raw cid ms), w')
    /\ sameDisk w w'
    /\ List.map said ms = List.map said (nonBlank (messages (content raw))).
Proof.
  intros H. unfold loadBundle, bind. rewrite (readJson_present _ _ _ H).
  unfold normalizeBundle. unfold bind at 1.
  unfold createConversationBundle, bind, nowISO, ret.
  destruct (normalizeStoredMessages_said P (messages (content raw)) (tick w))
    as (l & w' & Hrun & Hd & Hs).
  rewrite Hrun. exists l, w'. split; [reflexivity|]. split; [|exact Hs].
  eapply sameDisk_trans; [apply sameDisk_tick | exact Hd].
Qed.

(** Loading a file that holds JSON finds the messages [saidIn] gives. *)
Lemma loadBundle_saidIn P fileName cid d w :
  lookupFile fileName (files w) = Some d ->
  holdsJson d = true ->
  exists b w',
    loadBundle P (CONVERSATIONS_DIR, fileName) cid w = (Ok b, w')
    /\ sameDisk w w'
    /\ List.map said (messages (content b)) = saidIn d.
Proof.
  intros Hfile Hjson. destruct d as [|raw|j]; [discriminate| |].
  - destruct (loadBundle_said P fileName cid raw w Hfile)
      as (ms & w' & Hrun & Hd & Hs).
    eexists _, w'. split; [exact Hrun|]. split; [exact Hd | exact Hs].
  - unfold loadBundle, bind. rewrite (readJson_other _ _ _ Hfile).
    destruct (normalizeOther_ok P j cid w) as (b & w' & Hrun & Hd & Hs & _).
    exists b, w'. split; [exact Hrun|]. split; [exact Hd | exact Hs].
Qed.

Lemma lastMessage_said l :
  option_map said (lastMessage l)
  = List.last (List.map Some (List.map said l)) None.
Proof.
  unfold lastMessage. induction l as [|m r IH]; [reflexivity|].
  destruct r as [|m' r']; [reflexivity|].
  cbn [List.map List.last] in *. exact IH.
Qed.

Lemma nonBlank_snoc l m :
  Js.isEmpty (Js.trim (text m)) = false ->
  nonBlank (l ++ [m])%list = (nonBlank l ++ [m])%list.
Proof.
  intros H. unfold nonBlank. rewrite List.filter_app. cbn [List.filter].
  now rewrite H.
Qed.

(** The test of [appendAssistantCompletion] on the last loaded
    message. *)
Lemma repeated_iff ms t :
  match lastMessage ms with
  | Some m => StoredRole_eqb (role m) assistant && String.eqb (text m) t
  | None => false
  end = true
  <-> option_map said (lastMessage ms) = Some (assistant, t).
Proof.
  destruct (lastMessage ms) as [m|]; cbn [option_map]; [|split; discriminate].
  unfold said. rewrite andb_true_iff, String.eqb_eq. split.
  - intros [Hr ->]. destruct (role m); [discriminate | reflexivity].
  - intros [= -> ->]. split; reflexivity.
Qed.

(** On a conversation whose last message is already the assistant's
    text, the call saves nothing. *)
Lemma append_repeated P cid sid t d w :
  sanitizeConversationId (Some cid) = Some sid ->
  lookupFile (sid ++ ".json")%string (files w) = Some d ->
  holdsJson d = true ->
  lastSaidIn d = Some (assistant, t) ->
  exists w', appendAssistantCompletion P cid t w = (Ok tt, w')
             /\ sameDisk w w'.
Proof.
  intros Hsan Hfile Hjson Hlast. unfold appendAssistantCompletion.
  destruct (Js.isEmpty (Js.trim t));
    [exists w; split; [reflexivity | apply sameDisk_refl]|].
  unfold bind at 1. unfold ensureConversationRecord. rewrite Hsan.
  cbv zeta. unfold tryCatch, bind at 1.
  destruct (loadBundle_saidIn P (sid ++ ".json")%string sid d w Hfile Hjson)
    as (b & w' & Hrun & Hd & Hs).
  unfold buildConversationFilePath at 1. rewrite Hrun.
  unfold ret at 1. cbn [bundle].
  assert (Hrep : option_map said (lastMessage (messages (content b)))
                 = Some (assistant, t)).
  { rewrite lastMessage_said, Hs. exact Hlast. }
  apply repeated_iff in Hrep. rewrite Hrep.
  exists w'. split; [reflexivity | exact Hd].
Qed.

(** What is stored once the assistant's text has been appended to the
    loaded messages ends with that text. *)
Lemma lastSaidIn_appended b ms i t created now :
  Js.isEmpty (Js.trim t) = false ->
  lastSaidIn
    (BundleJson
       (withConversation
          (withMessages b
             (ms ++ [{| id := i; role := assistant; text := t;
                        created_at := created |}])%list)
          (setUpdatedAt
             (conversation
                (withMessages b
                   (ms ++ [{| id := i; role := assistant; text := t;
                              created_at := created |}])%list))
             now)))
  = Some (assistant, t).
Proof.
  intros Htext. unfold lastSaidIn, saidIn.
  cbn [withConversation withMessages content messages].
  rewrite nonBlank_snoc by exact Htext.
  rewrite !List.map_app. cbn [List.map]. apply List.last_last.
Qed.

(** After a call that returned, with a text that is not blank, the
    conversation ends with the assistant's text. *)
Lemma append_leaves_text P cid sid t w w1 :
  sanitizeConversationId (Some cid) = Some sid ->
  Js.isEmpty (Js.trim t) = false ->
  appendAssistantCompletion P cid t w = (Ok tt, w1) ->
  exists d1,
    lookupFile (sid ++ ".json")%string (files w1) = Some d1
    /\ holdsJson d1 = true
    /\ lastSaidIn d1 = Some (assistant, t).
Proof.
  intros Hsan Htext. unfold appendAssistantCompletion. rewrite Htext.
  unfold bind at 1.
  destruct (lookupFile (sid ++ ".json")%string (files w)) as [d|] eqn:Ef;
    [destruct (holdsJson d) eqn:Ej|].
  - (* JSON: it is loaded *)
    unfold ensureConversationRecord. rewrite Hsan. cbv zeta.
    unfold tryCatch, bind at 1.
    destruct (loadBundle_saidIn P (sid ++ ".json")%string sid d w Ef Ej)
      as (b & w' & Hrun & Hd & Hs).
    unfold buildConversationFilePath at 1. rewrite Hrun.
    unfold ret at 1. cbn [bundle].
    destruct (match lastMessage (messages (content b)) with
              | Some m => StoredRole_eqb (role m) assistant
                          && String.eqb (text m) t
              | None => false
              end) eqn:Erep.
    + intros [= <-]. exists d. destruct Hd as [Hf _]. rewrite Hf.
      split; [exact Ef|]. split; [exact Ej|]. apply repeated_iff in Erep.
      unfold lastSaidIn. rewrite <- Hs, <- lastMessage_said. exact Erep.
    + unfold bind, createMessageId, nowISO, saveBundle, atomicWriteJson, tick.
      cbn [files globalInfo ticks filePath snd buildConversationFilePath].
      intros [= <-]. cbn [files].
      eexists. split; [apply PersistFacts.lookupFile_replaceFile|].
      split; [reflexivity|]. now apply lastSaidIn_appended.
  - (* not JSON: the read throws *)
    unfold ensureConversationRecord. rewrite Hsan. cbv zeta.
    unfold tryCatch, bind at 1, loadBundle, bind at 1.
    destruct d; try discriminate Ej.
    unfold buildConversationFilePath.
    rewrite (readJson_unparsable _ _ Ef). unfold throw. discriminate.
  - (* no file: a fresh bundle is created *)
    rewrite (StoreFacts.ensureConversationRecord_absent P (Some cid) sid w
               Hsan Ef).
    cbn [bundle content messages freshBundle lastMessage List.map List.last].
    unfold bind, createMessageId, nowISO, saveBundle, atomicWriteJson, tick.
    cbn [files globalInfo ticks filePath snd buildConversationFilePath].
    intros [= <-]. cbn [files].
    eexists. split; [apply PersistFacts.lookupFile_replaceFile|].
    split; [reflexivity|].
    exact (lastSaidIn_appended _ [] _ _ _ _ Htext).
Qed.

(** X25: a completion that is appended twice in a row is stored once:
    when [appendAssistantCompletion] has returned for a conversation id
    that the sanitizer accepts, the same call made again returns and
    changes neither a file nor the global info. *)
Theorem append_twice_stores_once P cid sid t w w1 :
  sanitizeConversationId (Some cid) = Some sid ->
  appendAssistantCompletion P cid t w = (Ok tt, w1) ->
  exists w2,
    appendAssistantCompletion P cid t w1 = (Ok tt, w2)
    /\ sameDisk w1 w2.
Proof.
  intros Hsan Hfirst.
  destruct (Js.isEmpty (Js.trim t)) eqn:Htext.
  - exists w1. unfold appendAssistantCompletion. rewrite Htext.
    split; [reflexivity | apply sameDisk_refl].
  - destruct (append_leaves_text P cid sid t w w1 Hsan Htext Hfirst)
      as (d1 & Hfile & Hjson & Hlast).
    exact (append_repeated P cid sid t d1 w1 Hsan Hfile Hjson Hlast).
Qed.

Lemma append_twice_stores_once_witness :
  let w1 := snd (appendAssistantCompletion testPlatform "conversation1"
                   "answer" oneConversation) in
  sanitizeConversationId (Some "conversation1") = Some "conversation1"
  /\ appendAssistantCompletion testPlatform "conversation1" "answer"
       oneConversation = (Ok tt, w1)
  /\ storedIds "conversation1" w1 = Some ["assistant-101"]
  /\ exists w2,
       appendAssistantCompletion testPlatform "conversation1" "answer" w1
       = (Ok tt, w2)
       /\ sameDisk w1 w2.
Proof.
  cbv zeta.
  assert (H1 : sanitizeConversationId (Some "conversation1")
               = Some "conversation1") by reflexivity.
  assert (H2 : appendAssistantCompletion testPlatform "conversation1" "answer"
                 oneConversation
               = (Ok tt,
                  snd (appendAssistantCompletion testPlatform "conversation1"
                         "answer" oneConversation)))
    by (vm_compute; reflexivity).
  split; [exact H1|]. split; [exact H2|].
  split; [vm_compute; reflexivity|].
  exact (append_twice_stores_once testPlatform "conversation1" "conversation1"
           "answer" oneConversation _ H1 H2).
Defined.

(** X26: a conversation that has been loaded is the active one, as far
    as the global info can be written: when [loadConversationForUi]
    returns for an id that the sanitizer accepts, it returns that id and
    the id has a file that holds JSON; if the write of the global info
    went through, [getActiveConversationIdFromGlobal] reads that id back;
    if the write failed, the call has returned all the same and the
    global info is as it was before the call. *)
Theorem loaded_conversation_is_active P preferred sid w r w' :
  sanitizeConversationId preferred = Some sid ->
  loadConversationForUi P preferred w = (Ok r, w') ->
  uc_conversationId r = sid
  /\ (exists d,
        lookupFile (sid ++ ".json")%string (files w') = Some d
        /\ holdsJson d = true)
  /\ (globalWriteFails P (ticks w') = false ->
      getActiveConversationIdFromGlobal P w' = (Ok (Some sid), w'))
  /\ (globalWriteFails P (ticks w') = true ->
      globalInfo w' = globalInfo w).
Proof.
  intros Hsan Hload.
  assert (Hactive : forall g,
            activeJsonFilePath g = buildConversationFilePath sid ->
            activeIdOf P (Some g) = Some sid).
  { intros g Hg. unfold activeIdOf. rewrite Hg.
    change (pathIsEmpty (buildConversationFilePath sid)) with false.
    cbn [negb].
    destruct (SanitizeFacts.sanitizeConversationId_Some _ _ Hsan) as [Hne Hall].
    unfold getConversationIdFromPath, buildConversationFilePath. cbn [snd].
    rewrite SanitizeFacts.stripSuffix_append.
    now rewrite SanitizeFacts.sanitizeConversationId_fixed. }
  destruct (lookupFile (sid ++ ".json")%string (files w)) as [d|] eqn:Ef;
    [destruct (holdsJson d) eqn:Ej|].
  - destruct (loadConversationForUi_present P preferred sid d w Hsan Ef Ej)
      as (r0 & w0 & Hrun & Hid & Hf & Hok & Hfail).
    rewrite Hrun in Hload. injection Hload as <- <-.
    split; [exact Hid|]. split; [exists d; now rewrite Hf|].
    split; [|exact Hfail].
    intros Hwrite. destruct (Hok Hwrite) as (g & Hg & Hpath).
    rewrite getActiveConversationIdFromGlobal_ok, Hg.
    now rewrite (Hactive g Hpath).
  - (* not JSON: the load throws *)
    exfalso. revert Hload. unfold loadConversationForUi. unfold bind at 1.
    unfold ensureConversationRecord. rewrite Hsan. cbv zeta.
    unfold tryCatch, bind at 1, loadBundle, bind at 1.
    destruct d; try discriminate Ej.
    unfold buildConversationFilePath.
    rewrite (readJson_unparsable _ _ Ef). unfold throw. discriminate.
  - revert Hload. unfold loadConversationForUi. unfold bind at 1.
    rewrite (StoreFacts.ensureConversationRecord_absent P preferred sid w
               Hsan Ef).
    unfold bind at 1.
    match goal with
    | |- context [tryCatch (updateGlobalActiveConversation P ?record) _ ?w0] =>
        destruct (updateGlobal_caught P record w0)
          as (w2 & Hup & Hf2 & Ht2 & Hok & Hfail)
    end.
    rewrite Hup. unfold ret. intros [= <- <-].
    cbn [uc_conversationId conversationId filePath files ticks globalInfo]
      in *.
    rewrite Ht2. split; [reflexivity|].
    split.
    { rewrite Hf2. eexists.
      split; [now apply StoreFacts.lookupFile_app_absent | reflexivity]. }
    split; [|exact Hfail].
    intros Hwrite. destruct (Hok Hwrite) as (g & Hg & Hpath).
    rewrite getActiveConversationIdFromGlobal_ok, Hg.
    now rewrite (Hactive g Hpath).
Qed.

Lemma loaded_conversation_is_active_witness :
  let run := loadConversationForUi testPlatform (Some " conversation3 ")
               threeConversations in
  sanitizeConversationId (Some " conversation3 ") = Some "conversation3"
  /\ (exists r, fst run = Ok r /\ uc_conversationId r = "conversation3")
  /\ getActiveConversationIdFromGlobal testPlatform (snd run)
     = (Ok (Some "conversation3"), snd run).
Proof.
  cbv zeta.
  assert (H1 : sanitizeConversationId (Some " conversation3 ")
               = Some "conversation3") by (vm_compute; reflexivity).
  destruct (loadConversationForUi testPlatform (Some " conversation3 ")
              threeConversations) as [res w'] eqn:Erun.
  assert (Hok : exists r, res = Ok r).
  { vm_compute in Erun. injection Erun as <- _. eauto. }
  destruct Hok as [r ->].
  destruct (loaded_conversation_is_active testPlatform _ _ _ _ _ H1 Erun)
    as (Hid & _ & Hact & _).
  split; [exact H1|]. cbn [fst snd]. split; [eauto | exact (Hact eq_refl)].
Defined.

(** On a disk where the global info cannot be written, loading a
    conversation returns it, and no conversation is recorded as the
    active one. *)
Example load_on_full_disk :
  let run := loadConversationForUi fullDisk (Some "conversation3")
               threeConversations in
  (exists r, fst run = Ok r /\ uc_conversationId r = "conversation3")
  /\ globalInfo (snd run) = None
  /\ getActiveConversationIdFromGlobal fullDisk (snd run)
     = (Ok None, snd run).
Proof.
  cbv zeta. split; [eexists; split; vm_compute; reflexivity|].
  split; vm_compute; reflexivity.
Qed.

End AppendTwice.

Module RenameFacts.
Import Store StoreSpec StoreScenario ListingFacts StoreView Rename.


Lemma ensureExisting_json P sid d w :
  sanitizeConversationId (Some sid) = Some sid ->
  lookupFile (sid ++ ".json")%string (files w) = Some d ->
  holdsJson d = true ->
  exists record w1,
    ensureExistingConversationRecord P (Some sid) w = (Ok record, w1)
    /\ sameDisk w w1.
Proof.
  intros Hfix Hfile Hjson. unfold ensureExistingConversationRecord.
  rewrite Hfix. cbv zeta. unfold bind at 1.
  destruct (loadBundle_json P (sid ++ ".json")%string sid d w Hfile Hjson)
    as (b & w1 & Hrun & Hd & _).
  unfold buildConversationFilePath at 1. rewrite Hrun.
  eexists _, w1. split; [reflexivity | exact Hd].
Qed.




(** X28: [renameConversationForUi] refuses without writing: an id that
    sanitizes to nothing gives the missing-id error, an id without a
    bundle file the not-found error (in place of the ENOENT of the read),
    a file that is not JSON the error of the parser, and, for a
    conversation that exists (its file holds a bundle, or any other
    JSON), a name that is blank once trimmed gives the empty-name error;
    in every case the files and the global info are as before. *)
Theorem rename_refusals P target requestedName w :
  match sanitizeConversationId target with
  | None =>
      renameConversationForUi P target requestedName w
      = (RenameThrows (StoreError MissingConversationId), w)
  | Some sid =>
      match lookupFile (sid ++ ".json")%string (files w) with
      | None =>
          renameConversationForUi P target requestedName w
          = (RenameThrows (StoreError ConversationNotFound), w)
      | Some Unparsable =>
          renameConversationForUi P target requestedName w
          = (RenameThrows (StoreError SyntaxError), w)
      | Some (BundleJson raw) =>
          Js.trim requestedName = EmptyString ->
          exists w',
            renameConversationForUi P target requestedName w
            = (RenameThrows EmptyConversationName, w')
            /\ sameDisk w w'
      | Some (OtherJson j) =>
          Js.trim requestedName = EmptyString ->
          exists w',
            renameConversationForUi P target requestedName w
            = (RenameThrows EmptyConversationName, w')
            /\ sameDisk w w'
      end
  end.
Proof.
  unfold renameConversationForUi.
  destruct (sanitizeConversationId target) as [sid|] eqn:Hsan; [|reflexivity].
  destruct (SanitizeFacts.sanitizeConversationId_Some _ _ Hsan) as [Hne Hall].
  pose proof (SanitizeFacts.sanitizeConversationId_fixed sid Hne Hall) as Hfix.
  assert (Hblank : forall d,
            lookupFile (sid ++ ".json")%string (files w) = Some d ->
            holdsJson d = true ->
            Js.trim requestedName = EmptyString ->
            exists w',
              match ensureExistingConversationRecord P (Some sid) w with
              | (Ok record, w1) =>
                  match sanitizeConversationTitle requestedName with
                  | Some nextName =>
                      match storeName P record nextName w1 with
                      | (Ok summary, w2) => (Renamed summary, w2)
                      | (Throw error, w2) =>
                          (RenameThrows (StoreError error), w2)
                      end
                  | None => (RenameThrows EmptyConversationName, w1)
                  end
              | (Throw ENOENT, w1) =>
                  (RenameThrows (StoreError ConversationNotFound), w1)
              | (Throw error, w1) => (RenameThrows (StoreError error), w1)
              end = (RenameThrows EmptyConversationName, w')
              /\ sameDisk w w').
  { intros d Ef Ej Hblank.
    destruct (ensureExisting_json P sid d w Hfix Ef Ej)
      as (record & w1 & Hrun & Hd).
    rewrite Hrun. unfold sanitizeConversationTitle. rewrite Hblank.
    exists w1. split; [reflexivity | exact Hd]. }
  destruct (lookupFile (sid ++ ".json")%string (files w)) as [[|raw|j]|] eqn:Ef.
  - unfold ensureExistingConversationRecord. rewrite Hfix. cbv zeta.
    unfold bind at 1, loadBundle, bind at 1, buildConversationFilePath.
    now rewrite (readJson_unparsable _ _ Ef).
  - now apply (Hblank (BundleJson raw)).
  - now apply (Hblank (OtherJson j)).
  - unfold ensureExistingConversationRecord. rewrite Hfix. cbv zeta.
    unfold bind at 1, loadBundle, bind at 1.
    now rewrite (StoreFacts.readJson_absent sid w Ef).
Qed.

End RenameFacts.

Module LockEntries.
Import Lock LockView.

Lemma Owned_init : Owned init.
Proof. intros cid q H. cbn in H. rewrite lookup_empty in H. discriminate H. Qed.

Lemma Owned_acquire cid s : Owned s -> Owned (acquire cid s).
Proof.
  intros HO cid' q' Hq'.
  destruct (decide (cid' = cid)) as [->|Hne].
  - rewrite LockFacts.acquire_entry in Hq'. inversion Hq'; subst q'. clear Hq'.
    exists (List.length (calls s)). eexists.
    split.
    { rewrite LockFacts.acquire_calls.
      rewrite lookup_app_r by lia. rewrite Nat.sub_diag. reflexivity. }
    cbn. repeat split; reflexivity.
  - rewrite LockFacts.acquire_other_entry in Hq' by exact Hne.
    destruct (HO cid' q' Hq') as (t & c & Ht & Hc & Hr & Htail & Href).
    exists t, c. split; [|repeat split; assumption].
    rewrite LockFacts.acquire_calls. now apply lookup_app_l_Some.
Qed.

Lemma Owned_resume t s s' : Owned s -> resume t s = Some s' -> Owned s'.
Proof.
  intros HO. unfold resume.
  destruct (calls s !! t) as [c|] eqn:Ht; [|discriminate].
  destruct (returned c); [discriminate|].
  destruct (catchUndefined _); try discriminate.
  intros [= <-]. intros cid q Hq. cbn [setCall conversationLockQueues] in Hq.
  destruct (HO cid q Hq) as (t' & c' & Ht' & Hc & Hr & Htail & Href).
  destruct (decide (t' = t)) as [->|Hne].
  - rewrite Ht in Ht'. inversion Ht'; subst c'.
    exists t. eexists. split.
    { unfold setCall. cbn [calls]. apply list_lookup_insert_eq.
      eapply lookup_lt_Some, Ht. }
    cbn. repeat split; assumption.
  - exists t', c'. split; [|repeat split; assumption].
    unfold setCall. cbn [calls]. now rewrite list_lookup_insert_ne by congruence.
Qed.

Lemma Owned_release t s s' : Owned s -> release t s = Some s' -> Owned s'.
Proof.
  intros HO. unfold release.
  destruct (calls s !! t) as [c|] eqn:Ht; [|discriminate].
  destruct (returned c); cbn [negb]; [|discriminate].
  destruct (released c) eqn:Hrel; [now intros [= <-]|].
  cbn [setCall conversationLockQueues nextRef calls].
  assert (Hkeep : forall cid q,
            conversationLockQueues s !! cid = Some q ->
            (cid <> conversationId c
             \/ ~ (ref q = queue c /\ tail q = nextTail c)) ->
            exists t' c', <[t := {| conversationId := conversationId c;
                                    queue := queue c;
                                    previousTail := previousTail c;
                                    nextTail := nextTail c;
                                    gateResolved := true;
                                    released := true;
                                    returned := true |}]> (calls s) !! t'
                          = Some c'
                          /\ conversationId c' = cid /\ released c' = false
                          /\ tail q = nextTail c' /\ ref q = queue c').
  { intros cid q Hq Hother.
    destruct (HO cid q Hq) as (t' & c' & Ht' & Hc & Hr & Htail & Href).
    assert (Hne : t' <> t).
    { intros ->. rewrite Ht in Ht'. inversion Ht'; subst c'.
      destruct Hother as [H|H]; [now apply H | apply H; now split]. }
    exists t', c'. split; [|repeat split; assumption].
    now rewrite list_lookup_insert_ne by congruence. }
  destruct (conversationLockQueues s !! conversationId c) as [q0|] eqn:Hq0.
  - destruct (bool_decide (ref q0 = queue c)
              && bool_decide (tail q0 = nextTail c)) eqn:Esame; cbn [negb].
    + (* the entry is this call's: it is deleted *)
      intros [= <-]. intros cid q Hq.
      unfold setCall in *. cbn [conversationLockQueues calls] in *.
      apply lookup_delete_Some in Hq. destruct Hq as [Hne Hq].
      apply (Hkeep cid q Hq). left. congruence.
    + (* a later call has replaced the tail *)
      intros [= <-]. intros cid q Hq.
      unfold setCall in *. cbn [conversationLockQueues calls] in *.
      apply (Hkeep cid q Hq).
      destruct (decide (cid = conversationId c)) as [->|Hne]; [|now left].
      right. rewrite Hq0 in Hq. inversion Hq; subst q0.
      intros [H1 H2]. apply andb_false_iff in Esame.
      destruct Esame as [E|E]; apply bool_decide_eq_false in E; contradiction.
  - intros [= <-]. intros cid q Hq.
    unfold setCall in *. cbn [conversationLockQueues calls] in *.
    apply (Hkeep cid q Hq). left. intros ->. congruence.
Qed.

Lemma reachable_Owned s : reachable s -> Owned s.
Proof.
  induction 1 as [|s l s' _ IH Hstep]; [apply Owned_init|].
  destruct l as [cid|t|t]; cbn [step] in Hstep.
  - inversion Hstep; subst s'. now apply Owned_acquire.
  - eapply Owned_resume; eassumption.
  - eapply Owned_release; eassumption.
Qed.

(** X29: the lock map holds no stale entry: in every state that the
    lock can reach, a conversation has an entry in the map exactly when
    some call for it has not released yet, and then the entry is the
    queue object of such a call with the tail that call installed.  So
    once every call has released, the map is empty again. *)
Theorem lock_map_has_no_stale_entry s :
  reachable s ->
  (forall cid,
     is_Some (conversationLockQueues s !! cid)
     <-> exists t, unreleased s cid t)
  /\ Owned s
  /\ ((forall t c, calls s !! t = Some c -> released c = true) ->
      conversationLockQueues s = ∅).
Proof.
  intros Hreach.
  pose proof (reachable_Owned s Hreach) as HO.
  pose proof (LockFacts.reachable_Inv s Hreach) as HI.
  assert (Hiff : forall cid,
            is_Some (conversationLockQueues s !! cid)
            <-> exists t, unreleased s cid t).
  { intros cid. split.
    - intros [q Hq].
      destruct (HO cid q Hq) as (t & c & Ht & Hc & Hr & _).
      exists t, c. now repeat split.
    - intros (t & c & Ht & Hc & Hr).
      destruct (conversationLockQueues s !! cid) as [q|] eqn:Hq; [eauto|].
      pose proof (inv_no_entry s HI cid t c Hq Ht Hc). congruence. }
  split; [exact Hiff|]. split; [exact HO|].
  intros Hall. apply map_eq. intros cid. rewrite lookup_empty.
  destruct (conversationLockQueues s !! cid) as [q|] eqn:Hq; [|reflexivity].
  destruct (proj1 (Hiff cid)) as (t & c & Ht & _ & Hr);
    [rewrite Hq; eauto|].
  rewrite (Hall t c Ht) in Hr. discriminate Hr.
Qed.

Lemma lock_map_has_no_stale_entry_witness :
  reachable afterAllReleased
  /\ List.length (calls afterAllReleased) = 3%nat
  /\ conversationLockQueues afterAllReleased = ∅.
Proof.
  assert (Hreach : reachable afterAllReleased).
  { apply (LockFacts.run_reachable allReleased init afterAllReleased
             reachable_init). vm_compute. reflexivity. }
  split; [exact Hreach|]. split; [reflexivity|].
  apply (lock_map_has_no_stale_entry afterAllReleased Hreach).
  intros t c Ht.
  destruct t as [|[|[|t]]]; vm_compute in Ht; inversion Ht; reflexivity.
Defined.

End LockEntries.

Module OcrFacts.
Import Ocr.

Lemma chunkChars_snoc l s :
  chunkChars (l ++ [s])%list
  = chunkChars l + Z.of_nat (String.length (nextChunk s)).
Proof.
  unfold chunkChars. induction l as [|x l IH]; cbn [app fold_right]; lia.
Qed.

Lemma collect_budget attachments : forall totalChars sections result,
  totalChars = chunkChars sections ->
  0 <= totalChars <= MAX_OCR_CONTEXT_CHARS_TOTAL ->
  Forall wellSized sections ->
  collect totalChars sections attachments = Some result ->
  0 <= chunkChars result <= MAX_OCR_CONTEXT_CHARS_TOTAL
  /\ Forall wellSized result
  /\ (List.length result
      <= List.length sections + List.length attachments)%nat.
Proof.
  induction attachments as [|a rest IH];
    intros totalChars sections result Htot Hrange Hall; cbn [collect].
  - intros [= <-]. subst totalChars. repeat split; try tauto. cbn. lia.
  - destruct (parsedText a) as [parsed|]; [|discriminate].
    cbv zeta.
    assert (Hskip : collect totalChars sections rest = Some result ->
              0 <= chunkChars result <= MAX_OCR_CONTEXT_CHARS_TOTAL
              /\ Forall wellSized result
              /\ (List.length result
                  <= List.length sections + List.length (a :: rest))%nat).
    { intros H. destruct (IH _ _ _ Htot Hrange Hall H) as (H1 & H2 & H3).
      repeat split; try tauto. cbn [List.length]. lia. }
    destruct (Js.isEmpty (Js.trim (replaceCRLF parsed))); [exact Hskip|].
    destruct (Z.leb_spec (MAX_OCR_CONTEXT_CHARS_TOTAL - totalChars) 0).
    { intros [= <-]. subst totalChars. repeat split; try tauto. lia. }
    set (chunk := Js.sliceTo _ _).
    destruct (Js.isEmpty chunk) eqn:Ee; [exact Hskip|].
    assert (Hlen : 1 <= Z.of_nat (String.length chunk)
                   <= Z.min MAX_OCR_CONTEXT_CHARS_PER_FILE
                        (MAX_OCR_CONTEXT_CHARS_TOTAL - totalChars)).
    { split.
      - destruct chunk; [discriminate Ee | cbn [String.length]; lia].
      - unfold chunk, Js.sliceTo.
        rewrite SanitizeFacts.length_prefix.
        unfold MAX_OCR_CONTEXT_CHARS_PER_FILE, MAX_OCR_CONTEXT_CHARS_TOTAL
          in *. lia. }
    intros Hc.
    apply IH in Hc.
    + destruct Hc as (H1 & H2 & H3). repeat split; try tauto.
      rewrite length_app in H3. cbn [List.length] in *. lia.
    + rewrite chunkChars_snoc. cbn [nextChunk]. lia.
    + lia.
    + apply Forall_app. split; [exact Hall|].
      constructor; [|constructor]. unfold wellSized. cbn [nextChunk]. lia.
Qed.

(** X30: the OCR context never exceeds its budget: when
    [buildOcrPromptContext] returns, the sections it is made of hold at
    most 30000 characters of attachment text in all and between 1 and
    12000 each, and there is at least one section and at most one per
    attachment; it throws when a parse throws before the budget is used
    up, and when no attachment gives text. *)
Theorem ocr_context_within_budget attachments :
  match collect 0 [] attachments with
  | None => buildOcrPromptContext attachments = inl ParseFailed
  | Some sections =>
      0 <= chunkChars sections <= MAX_OCR_CONTEXT_CHARS_TOTAL
      /\ Forall wellSized sections
      /\ (List.length sections <= List.length attachments)%nat
      /\ (sections = [] <->
          buildOcrPromptContext attachments = inl NoTextExtracted)
      /\ (sections <> [] ->
          exists context, buildOcrPromptContext attachments = inr context)
  end.
Proof.
  unfold buildOcrPromptContext.
  destruct (collect 0 [] attachments) as [sections|] eqn:E; [|reflexivity].
  destruct (collect_budget attachments 0 [] sections) as (H1 & H2 & H3);
    [reflexivity | unfold MAX_OCR_CONTEXT_CHARS_TOTAL; lia | constructor
     | exact E |].
  split; [exact H1|]. split; [exact H2|]. split; [exact H3|].
  destruct sections as [|s l].
  - split; [tauto | intros H; contradiction].
  - split; [split; discriminate | eauto].
Qed.

End OcrFacts.

Module FailoverFacts.
Import Routing Failover.

Lemma dedupe_spec candidates : forall deduped,
  NoDup deduped ->
  Forall (fun m => In m CHAT_MODELS) deduped ->
  (List.length deduped <= 1)%nat ->
  let result := dedupe deduped candidates in
  NoDup result
  /\ Forall (fun m => In m CHAT_MODELS) result
  /\ (List.length result <= 2)%nat
  /\ exists more, result = (deduped ++ more)%list.
Proof.
  induction candidates as [|c rest IH]; intros deduped Hnd Hall Hlen;
    cbn [dedupe].
  - cbv zeta. repeat split; try assumption; [lia|].
    exists []. now rewrite app_nil_r.
  - destruct (has CHAT_MODELS c) eqn:Ec; cbn [negb]; [|now apply IH].
    destruct (has deduped c) eqn:Ed; cbn [negb].
    + destruct (Nat.leb_spec 2 (List.length deduped)); [lia|].
      now apply IH.
    + assert (Hnd' : NoDup (deduped ++ [c])%list).
      { apply NoDup_app. split; [exact Hnd|]. split; [|apply NoDup_singleton].
        intros x Hx Hc. apply list_elem_of_In in Hx.
        apply list_elem_of_In in Hc. destruct Hc as [<-|[]].
        apply RoutingBounds.has_In in Hx. congruence. }
      assert (Hall' : Forall (fun m => In m CHAT_MODELS) (deduped ++ [c])%list).
      { apply Forall_app. split; [exact Hall|].
        constructor; [now apply RoutingBounds.has_In | constructor]. }
      destruct (Nat.leb_spec 2 (List.length (deduped ++ [c])%list)) as [H2|H2].
      * cbv zeta. split; [exact Hnd'|]. split; [exact Hall'|].
        rewrite length_app in *. cbn [List.length] in *.
        split; [lia | now exists [c]].
      * destruct (IH (deduped ++ [c])%list Hnd' Hall') as (H3 & H4 & H5 & more & Hm).
        { rewrite length_app in *. cbn [List.length] in *. lia. }
        cbv zeta. repeat split; try assumption.
        exists (c :: more). rewrite Hm, <- app_assoc. reflexivity.
Qed.

Lemma DEFAULT_MODEL_chat : In DEFAULT_MODEL CHAT_MODELS.
Proof. now left. Qed.

(** X14: whatever the routing decision and the failover setting, the
    models a request is tried on are one or two different chat models;
    and when the model of the decision is a chat model it comes first:
    alone when there is neither escalation nor failover, followed by the
    heavy model when the decision allows escalation to a heavy model that
    is a chat model. *)
Theorem execution_chain_well_formed failover d :
  let chain := getModelExecutionChain failover d in
  (1 <= List.length chain <= 2)%nat
  /\ NoDup chain
  /\ Forall (fun m => In m CHAT_MODELS) chain
  /\ (has CHAT_MODELS (model d) = true ->
      (exists more, chain = model d :: more)
      /\ (allowEscalation d = false -> failover = false ->
          chain = [model d])
      /\ (allowEscalation d = true -> heavyModel d <> model d ->
          has CHAT_MODELS (heavyModel d) = true ->
          chain = [model d; heavyModel d])).
Proof.
  cbv zeta. unfold getModelExecutionChain. cbv zeta.
  set (candidates := if failover && _ && _ then _ else _).
  destruct (dedupe_spec candidates []) as (Hnd & Hall & Hlen & _);
    [constructor | constructor | cbn; lia |].
  assert (Hshape :
    (1 <= List.length (if (List.length (dedupe [] candidates) =? 0)%nat
                       then [DEFAULT_MODEL] else dedupe [] candidates) <= 2)%nat
    /\ NoDup (if (List.length (dedupe [] candidates) =? 0)%nat
              then [DEFAULT_MODEL] else dedupe [] candidates)
    /\ Forall (fun m => In m CHAT_MODELS)
         (if (List.length (dedupe [] candidates) =? 0)%nat
          then [DEFAULT_MODEL] else dedupe [] candidates)).
  { destruct (dedupe [] candidates) as [|x l]; cbn [List.length Nat.eqb].
    - split; [lia|]. split; [apply NoDup_singleton|].
      constructor; [apply DEFAULT_MODEL_chat | constructor].
    - cbn [List.length] in Hlen. split; [lia|]. now split. }
  destruct Hshape as (H1 & H2 & H3).
  split; [exact H1|]. split; [exact H2|]. split; [exact H3|].
  intros Hchat.
  assert (Hfirst : forall rest,
            dedupe [] (model d :: rest)
            = dedupe [model d] rest).
  { intros rest. cbn [dedupe]. rewrite Hchat. reflexivity. }
  split; [|split].
  - unfold candidates.
    destruct (allowEscalation d && negb (String.eqb (heavyModel d) (model d)));
      destruct (failover && _ && _); cbn [app]; rewrite Hfirst;
      match goal with |- context [dedupe [model d] ?r] =>
        destruct (dedupe_spec r [model d]) as (_ & _ & _ & more & ->);
          [apply NoDup_singleton
          | constructor; [now apply RoutingBounds.has_In | constructor]
          | cbn; lia |]
      end; cbn [app List.length Nat.eqb]; eauto.
  - intros Hesc ->. unfold candidates. rewrite Hesc. cbn [andb app].
    rewrite Hfirst. reflexivity.
  - intros Hesc Hne Hheavy. unfold candidates. rewrite Hesc.
    apply String.eqb_neq in Hne. rewrite Hne. cbn [andb negb app List.length].
    change (2 <? 2)%nat with false. rewrite andb_false_r. cbn [andb].
    rewrite Hfirst. cbn [dedupe]. rewrite Hheavy. cbn [negb has existsb].
    rewrite Hne. cbn [orb negb app List.length]. reflexivity.
Qed.

End FailoverFacts.
